(** * mysh: a shallow embedding of the command interpreter [mysh.py]

    The development follows the source file top-down.  Python strings are
    sequences of code points below 256 ([list ascii]); the process
    environment [os.environ] is a finite map; every function that touches
    the operating system is a computation in a small state-and-exception
    monad over a [world] record, and what the operating system answers
    (results of [os.fork], file tests, ...) is read from an [OS] record.
    The loop of [run_shell] runs over the list of the lines that [input]
    returns, and [load_myshrc] reads the rc file through a function from
    paths to what is found there. *)

From Stdlib Require Import ZArith NArith Ascii String List Lia Bool DecimalString.
From stdpp Require Import gmap strings list.
Import ListNotations.

Open Scope string_scope.
Open Scope list_scope.
Open Scope nat_scope.

(** Python [str]. *)
Abbreviation str := (list ascii).

Coercion list_ascii_of_string : string >-> list.

Definition strs (l : list string) : list str := map list_ascii_of_string l.

(** ** Python string primitives *)

Module Py.

Definition code (c : ascii) : nat := nat_of_ascii c.

Definition in_range (lo hi : nat) (c : ascii) : bool :=
  (lo <=? code c) && (code c <=? hi).

(** [c in s] for a one-character string [c]. *)
Definition char_in (c : ascii) (s : str) : bool := existsb (Ascii.eqb c) s.

(** [str.isspace] on one code point: TAB..CR, FS..US, SPACE, NEL, NBSP. *)
Definition isspace (c : ascii) : bool :=
  in_range 9 13 c || in_range 28 32 c || (code c =? 133) || (code c =? 160).

Definition is_ascii_digit (c : ascii) : bool := in_range 48 57 c.
Definition is_ascii_upper (c : ascii) : bool := in_range 65 90 c.
Definition is_ascii_lower (c : ascii) : bool := in_range 97 122 c.
Definition is_ascii_alpha (c : ascii) : bool := is_ascii_upper c || is_ascii_lower c.
Definition is_underscore (c : ascii) : bool := Ascii.eqb c "_".

(** The code points in 128..255 for which [str.isalnum] holds: the
    letters of Latin-1 and its superscript digits and vulgar fractions. *)
Definition is_latin1_alnum (c : ascii) : bool :=
  (code c =? 170) || (code c =? 178) || (code c =? 179) || (code c =? 181)
  || (code c =? 185) || (code c =? 186) || in_range 188 190 c
  || in_range 192 214 c || in_range 216 246 c || in_range 248 255 c.

(** [\w] of the [re] module on [str] patterns: alphanumeric or underscore. *)
Definition is_word (c : ascii) : bool :=
  is_ascii_alpha c || is_ascii_digit c || is_underscore c || is_latin1_alnum c.

Fixpoint dropwhile (p : ascii -> bool) (s : str) : str :=
  match s with
  | [] => []
  | c :: s' => if p c then dropwhile p s' else s
  end.

Fixpoint takewhile (p : ascii -> bool) (s : str) : str :=
  match s with
  | [] => []
  | c :: s' => if p c then c :: takewhile p s' else []
  end.

Definition lstrip (s : str) : str := dropwhile isspace s.
Definition rstrip (s : str) : str := rev (dropwhile isspace (rev s)).
(** [s.strip()] *)
Definition strip (s : str) : str := rstrip (lstrip s).
(** [s.rstrip(c)] for a one-character [c]. *)
Definition rstrip_char (c : ascii) (s : str) : str :=
  rev (dropwhile (Ascii.eqb c) (rev s)).

Definition str_eqb (a b : str) : bool := bool_decide (a = b).

(** [s.startswith(p)] *)
Fixpoint startswith (p s : str) : bool :=
  match p, s with
  | [], _ => true
  | _ :: _, [] => false
  | a :: p', b :: s' => Ascii.eqb a b && startswith p' s'
  end.

(** [sub in s] *)
Fixpoint contains (sub s : str) : bool :=
  startswith sub s ||
  match s with
  | [] => false
  | _ :: s' => contains sub s'
  end.

(** [s.find(sub)]; [None] stands for [-1]. *)
Fixpoint find_sub (sub s : str) : option nat :=
  if startswith sub s then Some 0
  else match s with
       | [] => None
       | _ :: s' => option_map S (find_sub sub s')
       end.

(** [s[i:j]] for [0 <= i], [0 <= j]. *)
Definition slice (s : str) (i j : nat) : str := firstn (j - i) (skipn i s).

(** [s[i]]; [None] stands for [IndexError]. *)
Definition index {A} (l : list A) (i : nat) : option A := nth_error l i.

(** [s.find(c, start)] for a one-character [c]; [None] stands for [-1]. *)
Fixpoint find_from (c : ascii) (pos : nat) (s : str) : option nat :=
  match s with
  | [] => None
  | d :: s' => if Ascii.eqb c d then Some pos else find_from c (S pos) s'
  end.
Definition find_char (c : ascii) (start : nat) (s : str) : option nat :=
  find_from c start (skipn start s).

(** [s.replace(old, new)] for a non-empty [old]: the occurrences of [old]
    are found left to right and do not overlap.  [skip] counts the
    characters of a matched occurrence that remain to be passed over. *)
Fixpoint replace_from (old new : str) (skip : nat) (s : str) : str :=
  match s with
  | [] => []
  | c :: s' =>
      match skip with
      | S k => replace_from old new k s'
      | O =>
          if startswith old s
          then new ++ replace_from old new (length old - 1) s'
          else c :: replace_from old new 0 s'
      end
  end.
Definition replace (old new s : str) : str := replace_from old new 0 s.

(** [s.split(sep)] for a one-character [sep]: never the empty list. *)
Fixpoint split_acc (sep : ascii) (cur : str) (s : str) : list str :=
  match s with
  | [] => [rev cur]
  | c :: s' =>
      if Ascii.eqb c sep then rev cur :: split_acc sep [] s'
      else split_acc sep (c :: cur) s'
  end.
Definition split (sep : ascii) (s : str) : list str := split_acc sep [] s.

(** [sep.join(l)] *)
Fixpoint join (sep : str) (l : list str) : str :=
  match l with
  | [] => []
  | [x] => x
  | x :: l' => x ++ sep ++ join sep l'
  end.

(** [str(n)] for a non-negative integer. *)
Definition str_of_nat (n : nat) : str :=
  list_ascii_of_string (DecimalString.NilZero.string_of_uint (Nat.to_uint n)).

(** *** [int(s)]

    White space is dropped at both ends, one sign is allowed, and the
    digits may be grouped by single underscores.  [None] stands for
    [ValueError]. *)

(** The white space that [int] skips: TAB..CR and SPACE, and of the other
    code points of [str.isspace] those above 127 (NEL and NBSP), which the
    conversion turns into spaces first; FS..US are not skipped. *)
Definition is_int_space (c : ascii) : bool :=
  in_range 9 13 c || (code c =? 32) || (code c =? 133) || (code c =? 160).
Definition int_strip (s : str) : str :=
  rev (dropwhile is_int_space (rev (dropwhile is_int_space s))).

Definition digit_val (c : ascii) : Z := Z.of_nat (code c - 48).

(** [prev_digit] tells whether the previous character was a digit, so
    that an underscore is accepted only between two digits. *)
Fixpoint int_digits (acc : Z) (prev_digit : bool) (s : str) : option Z :=
  match s with
  | [] => if prev_digit then Some acc else None
  | c :: s' =>
      if is_ascii_digit c then int_digits (10 * acc + digit_val c) true s'
      else if is_underscore c && prev_digit then
        match s' with
        | d :: _ => if is_ascii_digit d then int_digits acc false s' else None
        | [] => None
        end
      else None
  end.

(** [sys.int_info.default_max_str_digits]: a decimal string with more
    digits than this (underscores and the sign are not counted, leading
    zeros are) is refused with [ValueError]; the program never changes the
    limit. *)
Definition max_str_digits : Z := 4300.
Definition count_digits (s : str) : Z :=
  Z.of_nat (length (List.filter is_ascii_digit s)).
Definition int_limited (body : str) : option Z :=
  if (max_str_digits <? count_digits body)%Z then None
  else int_digits 0 false body.

Definition int (s : str) : option Z :=
  match int_strip s with
  | c :: ds =>
      if Ascii.eqb c "+" then int_limited ds
      else if Ascii.eqb c "-" then option_map Z.opp (int_limited ds)
      else int_limited (c :: ds)
  | [] => None
  end.

End Py.

Definition newline : ascii := "010"%char.
Definition dquote : ascii := "034"%char.
Definition squote : ascii := "'"%char.
Definition backslash : ascii := "\"%char.

(** ** The regular expressions of the source

    [re.compile(r'\$\{([^}]+)\}').finditer(cmd)] and
    [re.match(r'^[a-zA-Z_]\w*$', name)]. *)

Module Re.

(** One match object: [start()], [end()] and [group(1)]. *)
Record rmatch := { m_start : nat; m_end : nat; m_group1 : str }.

Definition not_rbrace (c : ascii) : bool := negb (Ascii.eqb c "}").

(** The pattern anchored at the head of [s]: a dollar, an opening brace,
    the longest non-empty run of characters other than the closing brace,
    and the closing brace.  Returns group 1. *)
Definition match_here (s : str) : option str :=
  match s with
  | "$"%char :: "{"%char :: rest =>
      let name := Py.takewhile not_rbrace rest in
      match name, skipn (length name) rest with
      | _ :: _, "}"%char :: _ => Some name
      | _, _ => None
      end
  | _ => None
  end.

(** The matches from left to right; a match is never empty, and the
    search resumes at its end.  [skip] counts the characters of the last
    match that remain to be passed over. *)
Fixpoint finditer_from (pos skip : nat) (s : str) : list rmatch :=
  match s with
  | [] => []
  | _ :: s' =>
      match skip with
      | S k => finditer_from (S pos) k s'
      | O =>
          match match_here s with
          | Some name =>
              {| m_start := pos; m_end := pos + length name + 3; m_group1 := name |}
                :: finditer_from (S pos) (length name + 2) s'
          | None => finditer_from (S pos) 0 s'
          end
      end
  end.

Definition finditer (s : str) : list rmatch := finditer_from 0 0 s.

(** [re.match(r'^[a-zA-Z_]\w*$', name) is not None]: the dollar also
    matches just before a newline that ends the string. *)
Definition match_identifier (name : str) : bool :=
  match name with
  | [] => false
  | c :: rest =>
      (Py.is_ascii_alpha c || Py.is_underscore c) &&
      match Py.dropwhile Py.is_word rest with
      | [] => true
      | [d] => Ascii.eqb d newline
      | _ => false
      end
  end.

End Re.

(** ** [shlex] in POSIX mode with [whitespace_split = True]

    [list(lexer)] for a lexer over [input]: the loop of [read_token] and
    the iteration that calls it until it returns [None], as one recursion
    over the input.  With [whitespace_split] set and no
    [punctuation_chars], the branch of [read_token] that pushes a character
    back is never taken. *)

Module Shlex.

(** [self.state]: [' '], ['a'], a quote character, or the escape
    character.  [None] (end of file) is the end of the recursion. *)
Inductive state := Space | Word | Quote (q : ascii) | Escape (e : ascii).

Definition whitespace : str := [" "; "009"; "013"; "010"]%char.
Definition quotes : str := [squote; dquote].
Definition escapedquotes : str := [dquote].
Definition escape : str := [backslash].

(** [self.wordchars] in POSIX mode. *)
Definition is_wordchar (c : ascii) : bool :=
  Py.is_ascii_alpha c || Py.is_ascii_digit c || Py.is_underscore c
  || Py.in_range 223 246 c || Py.in_range 248 255 c
  || Py.in_range 192 214 c || Py.in_range 216 222 c.

Definition is_empty (s : str) : bool := match s with [] => true | _ => false end.

Definition no_closing_quotation : str := "No closing quotation".
Definition no_escaped_character : str := "No escaped character".

(** What [read_token] hands to the iteration when it breaks out of its
    loop: an empty token that was not quoted is [None] and ends the
    iteration, any other token is yielded. *)
Definition yield (token : str) (quoted : bool) (more : str + list str) : str + list str :=
  if negb quoted && is_empty token then inr []
  else match more with
       | inr ts => inr (token :: ts)
       | inl e => inl e
       end.

(** [inl msg] stands for [ValueError(msg)].  [skipline] is set while
    [self.instream.readline()] is consuming the rest of a comment line. *)
Fixpoint tokens (commenters : str) (st escapedstate : state) (quoted : bool)
    (token : str) (skipline : bool) (input : str) : str + list str :=
  match input with
  | [] =>
      match st with
      | Space | Word => yield token quoted (inr [])
      | Quote _ => inl no_closing_quotation
      | Escape _ => inl no_escaped_character
      end
  | c :: rest =>
      if skipline then
        tokens commenters st escapedstate quoted token (negb (Ascii.eqb c newline)) rest
      else
      match st with
      | Space =>
          if Py.char_in c whitespace then
            if negb (is_empty token) || quoted
            then yield token quoted (tokens commenters Space Space false [] false rest)
            else tokens commenters Space escapedstate quoted token false rest
          else if Py.char_in c commenters then
            tokens commenters Space escapedstate quoted token true rest
          else if Py.char_in c escape then
            tokens commenters (Escape c) Word quoted token false rest
          else if is_wordchar c then
            tokens commenters Word escapedstate quoted [c] false rest
          else if Py.char_in c quotes then
            tokens commenters (Quote c) escapedstate quoted token false rest
          else
            tokens commenters Word escapedstate quoted [c] false rest
      | Quote q =>
          if Ascii.eqb c q then
            tokens commenters Word escapedstate true token false rest
          else if Py.char_in c escape && Py.char_in q escapedquotes then
            tokens commenters (Escape c) (Quote q) true token false rest
          else
            tokens commenters (Quote q) escapedstate true (token ++ [c]) false rest
      | Escape e =>
          let token1 :=
            match escapedstate with
            | Quote q =>
                if negb (Ascii.eqb c e) && negb (Ascii.eqb c q)
                then token ++ [e] else token
            | _ => token
            end in
          tokens commenters escapedstate escapedstate quoted (token1 ++ [c]) false rest
      | Word =>
          if Py.char_in c whitespace then
            if negb (is_empty token) || quoted
            then yield token quoted (tokens commenters Space Space false [] false rest)
            else tokens commenters Space escapedstate quoted token false rest
          else if Py.char_in c commenters then
            if negb (is_empty token) || quoted
            then yield token quoted (tokens commenters Space Space false [] true rest)
            else tokens commenters Space escapedstate quoted token true rest
          else if Py.char_in c quotes then
            tokens commenters (Quote c) escapedstate quoted token false rest
          else if Py.char_in c escape then
            tokens commenters (Escape c) Word quoted token false rest
          else
            tokens commenters Word escapedstate quoted (token ++ [c]) false rest
      end
  end.

(** [list(lexer)] for a fresh lexer with the given [commenters]. *)
Definition lex (commenters : str) (input : str) : str + list str :=
  tokens commenters Space Space false [] false input.

(** [shlex.split(s)]: comments are switched off. *)
Definition split (s : str) : str + list str := lex [] s.

End Shlex.

(** ** The process and the operating system *)

(** The exception classes the source raises or catches. *)
Inductive exn_kind :=
| ValueError | IndexError | KeyError | TypeError
| OSError | FileNotFoundError | NotADirectoryError | PermissionError.

Record exn := Exn { kind : exn_kind; message : str }.

(** [isinstance(e, OSError)] *)
Definition is_OSError (k : exn_kind) : bool :=
  match k with
  | OSError | FileNotFoundError | NotADirectoryError | PermissionError => true
  | _ => false
  end.

Definition kind_eqb (a b : exn_kind) : bool :=
  match a, b with
  | ValueError, ValueError | IndexError, IndexError | KeyError, KeyError
  | TypeError, TypeError | OSError, OSError
  | FileNotFoundError, FileNotFoundError
  | NotADirectoryError, NotADirectoryError
  | PermissionError, PermissionError => true
  | _, _ => false
  end.

(** The system calls a process issues, in the order it issues them. *)
Inductive event :=
| EvPipe (read_fd write_fd : nat)
| EvFork (ret : Z)
| EvDup2 (fd fd2 : nat)
| EvClose (fd : nat)
| EvSetpgid
| EvExecvp (file : str) (args : list str)
| EvWaitpid (pid : Z)
| EvChdir (path : str)
| EvRead (fd : nat).

(** What the operating system answers to one process.  [fork_result n] is
    the answer to the process's [n]-th call of [os.fork] (counted from
    0): [None] when the call raises [OSError], [Some 0] in the child,
    [Some pid] in the parent; the child of a fork continues with the
    history of its parent, so the two sides of one fork are the same
    program run with two [OS] records that differ at that call. *)
Record OS := {
  fork_result : nat -> option Z;
  pipe_ok : nat -> bool;
  isfile : str -> bool;
  access_x : str -> bool;
  chdir_error : str -> option exn;
  realpath : str -> str;
  execvp_error : str -> option exn;
  setpgid_permission_error : bool;
  captured_output : nat -> str;
  read_error : nat -> option exn;
  pw_dir_of_uid : option str;
  pw_dir_of_name : str -> option str;
  defpath : str
}.

(** The state of the interpreter process. *)
Record world := {
  environ : gmap str str;
  logical_pwd : str;
  os_cwd : str;
  open_fds : gset nat;
  stdout : str;
  stderr : str;
  trace : list event;
  forks : nat;
  pipes : nat
}.

Definition set_environ (f : gmap str str -> gmap str str) (w : world) : world :=
  {| environ := f (environ w); logical_pwd := logical_pwd w; os_cwd := os_cwd w;
     open_fds := open_fds w; stdout := stdout w; stderr := stderr w;
     trace := trace w; forks := forks w; pipes := pipes w |}.
Definition set_logical_pwd (p : str) (w : world) : world :=
  {| environ := environ w; logical_pwd := p; os_cwd := os_cwd w;
     open_fds := open_fds w; stdout := stdout w; stderr := stderr w;
     trace := trace w; forks := forks w; pipes := pipes w |}.
Definition set_os_cwd (p : str) (w : world) : world :=
  {| environ := environ w; logical_pwd := logical_pwd w; os_cwd := p;
     open_fds := open_fds w; stdout := stdout w; stderr := stderr w;
     trace := trace w; forks := forks w; pipes := pipes w |}.
Definition set_open_fds (f : gset nat -> gset nat) (w : world) : world :=
  {| environ := environ w; logical_pwd := logical_pwd w; os_cwd := os_cwd w;
     open_fds := f (open_fds w); stdout := stdout w; stderr := stderr w;
     trace := trace w; forks := forks w; pipes := pipes w |}.
Definition write_stdout (s : str) (w : world) : world :=
  {| environ := environ w; logical_pwd := logical_pwd w; os_cwd := os_cwd w;
     open_fds := open_fds w; stdout := stdout w ++ s; stderr := stderr w;
     trace := trace w; forks := forks w; pipes := pipes w |}.
Definition write_stderr (s : str) (w : world) : world :=
  {| environ := environ w; logical_pwd := logical_pwd w; os_cwd := os_cwd w;
     open_fds := open_fds w; stdout := stdout w; stderr := stderr w ++ s;
     trace := trace w; forks := forks w; pipes := pipes w |}.
Definition log (e : event) (w : world) : world :=
  {| environ := environ w; logical_pwd := logical_pwd w; os_cwd := os_cwd w;
     open_fds := open_fds w; stdout := stdout w; stderr := stderr w;
     trace := trace w ++ [e]; forks := forks w; pipes := pipes w |}.
Definition count_fork (w : world) : world :=
  {| environ := environ w; logical_pwd := logical_pwd w; os_cwd := os_cwd w;
     open_fds := open_fds w; stdout := stdout w; stderr := stderr w;
     trace := trace w; forks := S (forks w); pipes := pipes w |}.
Definition count_pipe (w : world) : world :=
  {| environ := environ w; logical_pwd := logical_pwd w; os_cwd := os_cwd w;
     open_fds := open_fds w; stdout := stdout w; stderr := stderr w;
     trace := trace w; forks := forks w; pipes := S (pipes w) |}.

(** How a piece of the program ends: it returns, an exception propagates
    out of it, [sys.exit] raised [SystemExit], or [os.execvp] replaced the
    process image. *)
Inductive outcome (A : Type) :=
| Ret (a : A)
| Raise (e : exn)
| SysExit (code : Z)
| Replaced (file : str) (args : list str).
Arguments Ret {A} a.
Arguments Raise {A} e.
Arguments SysExit {A} code.
Arguments Replaced {A} file args.

Definition M (A : Type) : Type := world -> outcome A * world.

Definition ret {A} (a : A) : M A := fun w => (Ret a, w).

Definition bind {A B} (m : M A) (k : A -> M B) : M B :=
  fun w =>
    match m w with
    | (Ret a, w') => k a w'
    | (Raise e, w') => (Raise e, w')
    | (SysExit c, w') => (SysExit c, w')
    | (Replaced f a, w') => (Replaced f a, w')
    end.

Declare Scope py_scope.
Delimit Scope py_scope with py.
Notation "x <- m ;; k" := (bind m (fun x => k))
  (at level 100, m at next level, right associativity) : py_scope.
Notation "m ;; k" := (bind m (fun _ => k))
  (at level 100, right associativity) : py_scope.
Open Scope py_scope.

Definition raise {A} (k : exn_kind) (msg : str) : M A :=
  fun w => (Raise (Exn k msg), w).
Definition raise_exn {A} (e : exn) : M A := fun w => (Raise e, w).
(** The process image has been replaced: nothing of the program follows. *)
Definition replaced {A} (file : str) (args : list str) : M A :=
  fun w => (Replaced file args, w).
Definition get {A} (f : world -> A) : M A := fun w => (Ret (f w), w).
Definition modify (f : world -> world) : M unit := fun w => (Ret tt, f w).

(** [try: m except <classes>: h(e)]; [SystemExit] is never caught. *)
Definition try_except {A} (m : M A) (catches : exn_kind -> bool) (h : exn -> M A) : M A :=
  fun w =>
    match m w with
    | (Raise e, w') => if catches (kind e) then h e w' else (Raise e, w')
    | r => r
    end.

(** [except Exception] *)
Definition any_exception (_ : exn_kind) : bool := true.

(** [sys.exit(code)] *)
Definition sys_exit {A} (code : Z) : M A := fun w => (SysExit code, w).

(** [print(s)] and [print(s, file=sys.stderr)] *)
Definition print (s : str) : M unit := modify (write_stdout (s ++ [newline])).
Definition eprint (s : str) : M unit := modify (write_stderr (s ++ [newline])).

(** [l[i]] *)
Definition item {A} (l : list A) (i : nat) : M A :=
  match Py.index l i with
  | Some x => ret x
  | None => raise IndexError "list index out of range"
  end.
Definition char_item (s : str) (i : nat) : M ascii :=
  match Py.index s i with
  | Some x => ret x
  | None => raise IndexError "string index out of range"
  end.

(** [os.environ[name]], [os.environ.get(name, default)] and
    [os.environ[name] = value]. *)
Definition environ_item (name : str) : M str :=
  e <- get environ ;;
  match e !! name with
  | Some v => ret v
  | None => raise KeyError name
  end.
Definition getenv (name default : str) : M str :=
  e <- get environ ;;
  ret (match e !! name with Some v => v | None => default end).
Definition environ_set (name value : str) : M unit :=
  if Py.char_in "000"%char value then raise ValueError "embedded null byte"
  else modify (set_environ (fun e => <[name := value]> e)).

(** *** System calls *)

Section Syscalls.
Variable os : OS.

(** The lowest descriptor number that is not open. *)
Definition lowest_free (fds : gset nat) : nat :=
  match List.find (fun n => bool_decide (n ∉ fds)) (seq 0 (S (size fds))) with
  | Some n => n
  | None => S (size fds)
  end.

Definition os_pipe : M (nat * nat) :=
  n <- get pipes ;;
  modify count_pipe ;;
  if pipe_ok os n then
    fds <- get open_fds ;;
    let r := lowest_free fds in
    let w := lowest_free ({[r]} ∪ fds) in
    modify (set_open_fds (fun s => {[r; w]} ∪ s)) ;;
    modify (log (EvPipe r w)) ;;
    ret (r, w)
  else raise OSError "Too many open files".

Definition os_fork : M Z :=
  n <- get forks ;;
  modify count_fork ;;
  match fork_result os n with
  | Some pid => modify (log (EvFork pid)) ;; ret pid
  | None => raise OSError "Resource temporarily unavailable"
  end.

Definition os_close (fd : nat) : M unit :=
  fds <- get open_fds ;;
  if bool_decide (fd ∈ fds) then
    modify (set_open_fds (fun s => s ∖ {[fd]})) ;;
    modify (log (EvClose fd))
  else raise OSError "Bad file descriptor".

Definition os_dup2 (fd fd2 : nat) : M unit :=
  fds <- get open_fds ;;
  if bool_decide (fd ∈ fds) then
    modify (set_open_fds (fun s => {[fd2]} ∪ s)) ;;
    modify (log (EvDup2 fd fd2))
  else raise OSError "Bad file descriptor".

Definition os_setpgid : M unit :=
  if setpgid_permission_error os then raise PermissionError "Operation not permitted"
  else modify (log EvSetpgid).

(** [os.execvp(file, args)] does not return when it succeeds. *)
Definition os_execvp (file : str) (args : list str) : M unit :=
  match execvp_error os file with
  | Some e => raise_exn e
  | None => modify (log (EvExecvp file args)) ;; replaced file args
  end.

Definition os_waitpid (pid : Z) : M unit := modify (log (EvWaitpid pid)).

(** What [os.getcwd] returns after [os.chdir(path)] in the directory
    [cwd]: the canonical name of the directory, with its symbolic links
    resolved and its slashes collapsed, as [os.path.realpath] gives it. *)
Definition entered_directory (cwd path : str) : str :=
  realpath os (if Py.startswith "/" path then path else cwd ++ "/" ++ path).

Definition os_chdir (path : str) : M unit :=
  match chdir_error os path with
  | Some e => raise_exn e
  | None =>
      cwd <- get os_cwd ;;
      modify (set_os_cwd (entered_directory cwd path)) ;;
      modify (log (EvChdir path))
  end.

(** [os.fdopen(fd).read()].  The file object is not bound to a name: it is
    released when the expression has been evaluated, whether [read]
    returned or raised, and that closes the descriptor.  [read] decodes
    what it reads and raises when that fails ([UnicodeDecodeError]). *)
Definition read_all (fd : nat) : M str :=
  modify (log (EvRead fd)) ;;
  modify (set_open_fds (fun s => s ∖ {[fd]})) ;;
  match read_error os fd with
  | Some e => raise_exn e
  | None => ret (captured_output os fd)
  end.

End Syscalls.

(** ** [os.path] (posixpath) *)

Module PosixPath.

Definition sep : ascii := "/"%char.

Definition endswith_sep (s : str) : bool :=
  match rev s with
  | c :: _ => Ascii.eqb c sep
  | [] => false
  end.

(** [os.path.join(a, b)] *)
Definition join (a b : str) : str :=
  if Py.startswith [sep] b then b
  else if Shlex.is_empty a || endswith_sep a then a ++ b
  else a ++ [sep] ++ b.

(** The loop of [normpath] over the components of the path. *)
Fixpoint normalize (initial_slashes : nat) (comps new_comps : list str) : list str :=
  match comps with
  | [] => new_comps
  | comp :: rest =>
      if Py.str_eqb comp "" || Py.str_eqb comp "." then
        normalize initial_slashes rest new_comps
      else if negb (Py.str_eqb comp "..")
              || ((initial_slashes =? 0) && (length new_comps =? 0))
              || match rev new_comps with
                 | last :: _ => Py.str_eqb last ".."
                 | [] => false
                 end
      then normalize initial_slashes rest (new_comps ++ [comp])
      else normalize initial_slashes rest (removelast new_comps)
  end.

(** [os.path.normpath(path)] *)
Definition normpath (path : str) : str :=
  if Shlex.is_empty path then "." else
  let initial_slashes :=
    if Py.startswith [sep] path then
      if Py.startswith [sep; sep] path && negb (Py.startswith [sep; sep; sep] path)
      then 2 else 1
    else 0 in
  let comps := normalize initial_slashes (Py.split sep path) [] in
  let path' := repeat sep initial_slashes ++ Py.join [sep] comps in
  if Shlex.is_empty path' then "." else path'.

(** [os.path.abspath(path)], given [os.getcwd()]. *)
Definition abspath (cwd path : str) : str :=
  if Py.startswith [sep] path then normpath path
  else normpath (join cwd path).

(** [os.path.expanduser(path)], given [os.environ] and the password
    database. *)
Definition expanduser (os : OS) (env : gmap str str) (path : str) : str :=
  if negb (Py.startswith "~" path) then path else
  let i := match Py.find_char sep 1 path with
           | Some i => i
           | None => length path
           end in
  let userhome :=
    if i =? 1 then
      match env !! ("HOME" : str) with
      | Some h => Some h
      | None => pw_dir_of_uid os
      end
    else pw_dir_of_name os (Py.slice path 1 i) in
  match userhome with
  | None => path
  | Some h =>
      let r := Py.rstrip_char sep h ++ skipn i path in
      if Shlex.is_empty r then [sep] else r
  end.

End PosixPath.

(** ** The interpreter: [mysh.py] *)

Section Mysh.

Variable os : OS.

(** [parsing.split_by_pipe_op], imported by the source from a module of
    its own; the interpreter only consumes the list of stages. *)
Variable split_by_pipe_op : str -> list str.

Definition is_valid_variable_name (var_name : str) : bool :=
  Re.match_identifier var_name.

(** [match.start() > 0 and cmd[match.start() - 1] == '\\'], the test
    the source writes out in [replace] and again in the loop. *)
Definition preceded_by_backslash (cmd : str) (m : Re.rmatch) : bool :=
  (0 <? Re.m_start m)
  && bool_decide (Py.index cmd (Re.m_start m - 1) = Some backslash).

(** The inner function [replace] of [replace_variables]: the
    replacement ([None] in the source's failure case) and the validity
    flag. *)
Definition replace (cmd : str) (m : Re.rmatch) : M (option str * bool) :=
  let var_name := Re.m_group1 m in
  if preceded_by_backslash cmd m
  then ret (Some (Py.slice cmd (Re.m_start m) (Re.m_end m)), true)
  else if is_valid_variable_name var_name then
    v <- getenv var_name "" ;; ret (Some v, true)
  else
    eprint ("mysh: syntax error: invalid characters for variable " ++ var_name) ;;
    ret (None, false).

(** The [for match in matches] loop of [replace_variables]. *)
Fixpoint replace_matches (cmd : str) (matches : list Re.rmatch)
    (result : list str) (last_end : nat) : M (str * bool) :=
  match matches with
  | [] => ret (concat (result ++ [skipn last_end cmd]), true)
  | m :: rest =>
      rv <- replace cmd m ;;
      match rv with
      | (Some replacement, true) =>
          if preceded_by_backslash cmd m
          then replace_matches cmd rest
                 (result ++ [Py.slice cmd last_end (Re.m_start m - 1); replacement])
                 (Re.m_end m)
          else replace_matches cmd rest
                 (result ++ [Py.slice cmd last_end (Re.m_start m); replacement])
                 (Re.m_end m)
      | _ => ret ([], false)
      end
  end.

Definition replace_variables (cmd : str) : M (str * bool) :=
  replace_matches cmd (Re.finditer cmd) [] 0.

Definition expand_path_in_args (args : list str) : M (list str) :=
  env <- get environ ;;
  ret (map (fun arg => if Py.startswith "~" arg
                       then PosixPath.expanduser os env arg else arg) args).

(** The search of [execute_external_command] through the directories of
    [PATH]: the first candidate that is a regular file. *)
Fixpoint search_path (dirs : list str) (name : str) : option str :=
  match dirs with
  | [] => None
  | path_dir :: rest =>
      let potential_path := PosixPath.join path_dir name in
      if isfile os potential_path then Some potential_path
      else search_path rest name
  end.

(** [try: os.setpgid(0, 0) except PermissionError: pass] *)
Definition setpgid_tolerant : M unit :=
  try_except (os_setpgid os) (kind_eqb PermissionError) (fun _ => ret tt).

(** The result is the value the source returns: [None] or the captured
    output. *)
Definition execute_external_command (args0 : list str) (capture_output : bool)
    : M (option str) :=
  args <- expand_path_in_args args0 ;;
  arg0 <- item args 0 ;;
  command_path <-
    (if Py.char_in "/"%char arg0 then
       ret (if isfile os arg0 then Some arg0 else None)
     else
       path <- getenv "PATH" (defpath os) ;;
       ret (search_path (Py.split ":" path) arg0)) ;;
  match command_path with
  | None => eprint ("mysh: command not found: " ++ arg0) ;; ret None
  | Some command_path =>
      if negb (access_x os command_path) then
        eprint ("mysh: permission denied: " ++ arg0) ;; ret None
      else
        try_except
          (if capture_output then
             fds <- os_pipe os ;;
             let (read_fd, write_fd) := fds : nat * nat in
             child_pid <- os_fork os ;;
             if (child_pid =? 0)%Z then
               setpgid_tolerant ;;
               os_close read_fd ;;
               os_dup2 write_fd 1 ;;
               os_close write_fd ;;
               os_execvp os arg0 args ;;
               ret None
             else
               os_close write_fd ;;
               output <- read_all os read_fd ;;
               os_waitpid child_pid ;;
               ret (Some output)
           else
             child_pid <- os_fork os ;;
             if (child_pid =? 0)%Z then
               setpgid_tolerant ;;
               os_execvp os arg0 args ;;
               ret None
             else
               os_waitpid child_pid ;;
               ret None)
          any_exception
          (fun e => eprint ("Error executing command: " ++ message e) ;; ret None)
  end.

(** [shlex.split(s)] as a computation: [ValueError] when it fails. *)
Definition shlex_split (s : str) : M (list str) :=
  match Shlex.split s with
  | inr args => ret args
  | inl msg => raise ValueError msg
  end.

Definition identifier_ok (var_name : str) : bool := Re.match_identifier var_name.

Definition handle_var_command (args : list str) : M unit :=
  if length args <=? 1 then
    eprint "var: expected 2 arguments, got 0"
  else
    arg1 <- item args 1 ;;
    flag <-
      (if Py.startswith "-" arg1 then
         if negb (Py.str_eqb arg1 "-s") then
           c <- char_item arg1 1 ;;
           eprint ("var: invalid option: -" ++ [c]) ;; ret None
         else ret (Some 1)
       else ret (Some 0)) ;;
    match flag with
    | None => ret tt
    | Some include_sflag =>
        if 3 <? length args - include_sflag then
          eprint ("var: expected 2 arguments, got "
                  ++ Py.str_of_nat (length args - include_sflag - 1))
        else
          var_name <- (if negb (Py.str_eqb arg1 "-s") then ret arg1 else item args 2) ;;
          if negb (identifier_ok var_name) then
            eprint ("var: invalid characters for variable " ++ var_name)
          else if 0 <? include_sflag then
            try_except
              (arg3 <- item args 3 ;;
               words <- shlex_split arg3 ;;
               result <- execute_external_command words true ;;
               match result with
               | Some out => environ_set var_name out
               | None => raise TypeError "str expected, not NoneType"
               end)
              any_exception
              (fun e => eprint ("var: failed to execute command: " ++ message e))
          else environ_set var_name (Py.join " " (skipn 2 args))
    end.

(** In the source the whole body is inside the [try]; only [os.chdir]
    raises one of the three classes it catches, and [path] has its final
    value by then. *)
Definition handle_cd_command (args : list str) : M unit :=
  if 2 <? length args then
    eprint "cd: too many arguments"
  else
    env <- get environ ;;
    path0 <- (if 1 <? length args
              then arg1 <- item args 1 ;; ret (PosixPath.expanduser os env arg1)
              else environ_item "HOME") ;;
    path <- (if Py.str_eqb path0 "-" then
               lp <- get logical_pwd ;;
               p <- getenv "OLDPWD" lp ;;
               print p ;; ret p
             else ret path0) ;;
    try_except
      (lp <- get logical_pwd ;;
       cwd <- get os_cwd ;;
       let new_logical_pwd := PosixPath.abspath cwd (PosixPath.join lp path) in
       os_chdir os new_logical_pwd ;;
       modify (set_logical_pwd new_logical_pwd) ;;
       environ_set "PWD" new_logical_pwd)
      (fun k => kind_eqb k FileNotFoundError || kind_eqb k NotADirectoryError
                || kind_eqb k PermissionError)
      (fun e =>
         match kind e with
         | FileNotFoundError => eprint ("cd: no such file or directory: " ++ path)
         | NotADirectoryError => eprint ("cd: not a directory: " ++ path)
         | _ => eprint ("cd: permission denied: " ++ path)
         end).

(** The checks of [handle_pwd_command] on its arguments: the message
    of the first failing check. *)
Fixpoint pwd_bad_option (options : str) : option str :=
  match options with
  | [] => None
  | option :: rest =>
      if negb (Ascii.eqb option "P") then Some ("pwd: invalid option: -" ++ [option])
      else pwd_bad_option rest
  end.
Fixpoint pwd_bad_args (rest : list str) : option str :=
  match rest with
  | [] => None
  | arg :: rest' =>
      if negb (Py.startswith "-" arg) then Some ("pwd: not expecting any arguments" : str)
      else match pwd_bad_option (skipn 1 arg) with
           | Some msg => Some msg
           | None => pwd_bad_args rest'
           end
  end.

Definition handle_pwd_command (args : list str) : M unit :=
  match pwd_bad_args (skipn 1 args) with
  | Some msg => eprint msg
  | None =>
      if existsb (Py.str_eqb "-P") args then
        cwd <- get os_cwd ;; print (realpath os cwd)
      else
        lp <- get logical_pwd ;; print lp
  end.

Definition builtin_names : list str := strs ["var"; "pwd"; "cd"; "which"; "exit"].

Fixpoint which_search (path_dirs : list str) (command : str) : option str :=
  match path_dirs with
  | [] => None
  | path_dir :: rest =>
      let executable_path := PosixPath.join path_dir command in
      if isfile os executable_path && access_x os executable_path
      then Some executable_path
      else which_search rest command
  end.

Definition find_executable (path_dirs : list str) (command : str) : str :=
  if existsb (Py.str_eqb command) builtin_names then
    command ++ ": shell built-in command"
  else match which_search path_dirs command with
       | Some p => p
       | None => command ++ " not found"
       end.

Fixpoint print_all (lines : list str) : M unit :=
  match lines with
  | [] => ret tt
  | l :: rest => print l ;; print_all rest
  end.

Definition handle_which_command (args : list str) : M unit :=
  if length args =? 1 then
    eprint "usage: which command ..."
  else
    path <- getenv "PATH" (defpath os) ;;
    let path_dirs := Py.split ":" path in
    print_all (map (find_executable path_dirs) (skipn 1 args)).

Definition handle_exit_command (args : list str) : M unit :=
  if 2 <? length args then
    eprint "exit: too many arguments"
  else if length args =? 2 then
    arg1 <- item args 1 ;;
    match Py.int arg1 with
    | None => eprint ("exit: non-integer exit code provided: " ++ arg1)
    | Some exit_code => sys_exit exit_code
    end
  else sys_exit 0%Z.

(** *** The pipeline *)

(** [for _ in range(num_commands - 1): pipe_fds.append(os.pipe())] *)
Fixpoint create_pipes (n : nat) (pipe_fds : list (nat * nat)) : M (list (nat * nat)) :=
  match n with
  | O => ret pipe_fds
  | S k => p <- os_pipe os ;; create_pipes k (pipe_fds ++ [p])
  end.

Definition when (b : bool) (m : M unit) : M unit := if b then m else ret tt.

(** What the child of stage [i] does after [os.fork] returned 0. *)
Definition pipeline_child (num_commands : nat) (pipe_fds : list (nat * nat))
    (i : nat) (args : list str) : M (list Z) :=
  when (0 <? i) (p <- item pipe_fds (i - 1) ;; os_dup2 (fst p) 0) ;;
  when (i <? num_commands - 1) (p <- item pipe_fds i ;; os_dup2 (snd p) 1) ;;
  execute_external_command args false ;;
  sys_exit 0%Z.

(** What the parent does after [os.fork] returned the child's pid,
    before it goes on to the next stage. *)
Definition pipeline_parent (num_commands : nat) (pipe_fds : list (nat * nat))
    (i : nat) : M unit :=
  when (0 <? i) (p <- item pipe_fds (i - 1) ;; os_close (fst p)) ;;
  when (i <? num_commands - 1) (p <- item pipe_fds i ;; os_close (snd p)).

(** [for i, cmd in enumerate(commands)]: returns [pids]. *)
Fixpoint fork_stages (num_commands : nat) (pipe_fds : list (nat * nat))
    (i : nat) (commands : list str) (pids : list Z) : M (list Z) :=
  match commands with
  | [] => ret pids
  | cmd :: rest =>
      args <- shlex_split cmd ;;
      pid <- os_fork os ;;
      if (pid =? 0)%Z then pipeline_child num_commands pipe_fds i args
      else if (0 <? pid)%Z then
        pipeline_parent num_commands pipe_fds i ;;
        fork_stages num_commands pipe_fds (S i) rest (pids ++ [pid])
      else
        eprint "mysh: failed to fork process" ;; ret pids
  end.

(** [for read_fd, write_fd in pipe_fds: try: ... except OSError: pass] *)
Fixpoint close_pipes (pipe_fds : list (nat * nat)) : M unit :=
  match pipe_fds with
  | [] => ret tt
  | (read_fd, write_fd) :: rest =>
      try_except (os_close read_fd ;; os_close write_fd) is_OSError (fun _ => ret tt) ;;
      close_pipes rest
  end.

(** [for pid in pids: os.waitpid(pid, 0)] *)
Fixpoint wait_all (pids : list Z) : M unit :=
  match pids with
  | [] => ret tt
  | pid :: rest => os_waitpid pid ;; wait_all rest
  end.

Definition execute_pipeline (commands : list str) : M unit :=
  let num_commands := length commands in
  pipe_fds <- create_pipes (num_commands - 1) [] ;;
  pids <- fork_stages num_commands pipe_fds 0 commands [] ;;
  close_pipes pipe_fds ;;
  wait_all pids.

(** *** The tokenizer of a single command *)

Definition SINGLE_QUOTE : str := "__SINGLE_QUOTE__".
Definition DOUBLE_QUOTE : str := "__DOUBLE_QUOTE__".

Definition preprocess_command (cmd : str) : str :=
  Py.replace [backslash; dquote] DOUBLE_QUOTE
    (Py.replace [backslash; squote] SINGLE_QUOTE cmd).

Definition postprocess_arg (arg : str) : str :=
  Py.replace DOUBLE_QUOTE [dquote] (Py.replace SINGLE_QUOTE [squote] arg).

Definition postprocess_args (args : list str) : list str := map postprocess_arg args.

(** When the iteration over the lexer ends without an exception the
    lexer has reached the end of its input, so the source's test of
    [lexer.state] after the iteration never fires. *)
Definition custom_split_command (cmd : str) : M (list str * bool) :=
  let preprocessed_cmd := preprocess_command cmd in
  match Shlex.lex "#" preprocessed_cmd with
  | inr args => ret (postprocess_args args, true)
  | inl e =>
      (if Py.contains "No closing quotation" e
       then eprint "mysh: syntax error: unterminated quote"
       else eprint ("mysh: syntax error: " ++ e)) ;;
      ret ([], false)
  end.

(** *** One command line *)

Definition run_builtin (name : str) (args : list str) : option (M unit) :=
  if Py.str_eqb name "var" then Some (handle_var_command args)
  else if Py.str_eqb name "pwd" then Some (handle_pwd_command args)
  else if Py.str_eqb name "cd" then Some (handle_cd_command args)
  else if Py.str_eqb name "which" then Some (handle_which_command args)
  else if Py.str_eqb name "exit" then Some (handle_exit_command args)
  else None.

Definition run_command (cmd : str) : M unit :=
  if Py.char_in "|"%char cmd then
    let commands := split_by_pipe_op cmd in
    if existsb (fun command => Shlex.is_empty (Py.strip command)) commands then
      eprint "mysh: syntax error: expected command after pipe"
    else execute_pipeline commands
  else
    r <- replace_variables cmd ;;
    let (cmd1, success) := r : str * bool in
    if negb success then ret tt else
    r <- custom_split_command cmd1 ;;
    let (args, success) := r : list str * bool in
    if negb success then ret tt else
    match args with
    | [] => ret tt
    | arg0 :: _ =>
        match run_builtin arg0 args with
        | Some handler => handler
        | None => execute_external_command args false ;; ret tt
        end
    end.

(** The [while True] loop of [run_shell], over the lines that [input]
    will return; after the last one [input] raises [EOFError].  The
    prompt is written to standard output by [input]. *)
Fixpoint run_shell_loop (lines : list str) : M unit :=
  prompt <- getenv "PROMPT" ">> " ;;
  modify (write_stdout prompt) ;;
  match lines with
  | [] => print ""
  | cmd :: rest =>
      if Shlex.is_empty (Py.strip cmd) then run_shell_loop rest
      else if Shlex.is_empty cmd then print ""
      else run_command cmd ;; run_shell_loop rest
  end.

End Mysh.

(** Modelled from the spec: the Pipe Segmenter [parsing.split_by_pipe_op],
    whose module is not part of the sources at hand.  It splits a line at
    the pipe characters that are outside single and double quotes; [q] is
    the quote character the scan is inside of, if any. *)
Fixpoint segment (q : option ascii) (cur : str) (s : str) : list str :=
  match s with
  | [] => [rev cur]
  | c :: s' =>
      match q with
      | Some q0 =>
          segment (if Ascii.eqb c q0 then None else q) (c :: cur) s'
      | None =>
          if Ascii.eqb c "|" then rev cur :: segment None [] s'
          else if Ascii.eqb c squote || Ascii.eqb c dquote
          then segment (Some c) (c :: cur) s'
          else segment None (c :: cur) s'
      end
  end.
Definition split_by_pipe_op_spec (cmd : str) : list str := segment None [] cmd.

(** *** Concrete operating systems and worlds for the examples *)

(** A system where every [os.fork] returns [pid] to the calling process,
    no file exists, and every directory can be entered. *)
Definition plain_os (pid : Z) : OS :=
  {| fork_result := fun _ => Some pid;
     pipe_ok := fun _ => true;
     isfile := fun _ => false;
     access_x := fun _ => false;
     chdir_error := fun _ => None;
     realpath := fun p => p;
     execvp_error := fun _ => None;
     setpgid_permission_error := false;
     captured_output := fun _ => [];
     read_error := fun _ => None;
     pw_dir_of_uid := None;
     pw_dir_of_name := fun _ => None;
     defpath := "/bin:/usr/bin" |}.

Definition initial_world (env : gmap str str) (cwd : str) : world :=
  {| environ := env; logical_pwd := cwd; os_cwd := cwd;
     open_fds := {[0; 1; 2]}; stdout := []; stderr := [];
     trace := []; forks := 0; pipes := 0 |}.

(** ** Start-up: [setup_default_environment], [load_myshrc], [run_shell], [main] *)

(** A value of the JSON object in [.myshrc]: a string, or anything else. *)
Inductive json_value :=
| JString (s : str)
| JOther.

(** What [load_myshrc] finds at the path of the rc file: no file; a file
    that makes [open] or [json.load] raise an exception other than
    [JSONDecodeError]; a file that [json.load] rejects with
    [JSONDecodeError]; a file that holds a JSON object, with the pairs of
    [variables.items()] in their order.  A file that holds a JSON value
    other than an object is outside this type. *)
Inductive rc_file :=
| RcMissing
| RcError (e : exn)
| RcInvalidJSON
| RcObject (items : list (str * json_value)).

Definition setup_default_environment : M unit :=
  env <- get environ ;;
  when (bool_decide (env !! ("PROMPT" : str) = None)) (environ_set "PROMPT" ">> ") ;;
  env <- get environ ;;
  when (bool_decide (env !! ("MYSH_VERSION" : str) = None))
       (environ_set "MYSH_VERSION" "1.0").

(** [signal.signal(signal.SIGTTOU, signal.SIG_IGN)]: the dispositions of
    signals are not part of [world]. *)
Definition setup_signals : M unit := ret tt.

(** The [for var_name, value in variables.items()] loop of [load_myshrc]. *)
Fixpoint load_items (items : list (str * json_value)) : M unit :=
  match items with
  | [] => ret tt
  | (var_name, value) :: rest =>
      match value with
      | JOther =>
          eprint ("mysh: .myshrc: " ++ var_name ++ ": not a string") ;;
          load_items rest
      | JString v =>
          if negb (Re.match_identifier var_name) then
            eprint ("mysh: .myshrc: " ++ var_name
                    ++ ": invalid characters for variable name") ;;
            load_items rest
          else
            r <- replace_variables v ;;
            environ_set var_name (fst r) ;;
            load_items rest
      end
  end.

Section Startup.

Variable os : OS.
Variable split_by_pipe_op : str -> list str.

(** The file system as [load_myshrc] sees it: what is at a path. *)
Variable read_rc : str -> rc_file.

(** [os.path.join(os.getenv("MYSHDOTDIR", os.path.expanduser("~")), ".myshrc")] *)
Definition rc_file_path (env : gmap str str) : str :=
  PosixPath.join
    (match env !! ("MYSHDOTDIR" : str) with
     | Some base_dir => base_dir
     | None => PosixPath.expanduser os env "~"
     end)
    ".myshrc".

Definition load_myshrc : M unit :=
  env <- get environ ;;
  match read_rc (rc_file_path env) with
  | RcMissing => ret tt
  | RcError e => raise_exn e
  | RcInvalidJSON => eprint "mysh: invalid JSON format for .myshrc"
  | RcObject items => load_items items
  end.

(** [lines] are the lines that [input] will return. *)
Definition run_shell (lines : list str) : M unit :=
  load_myshrc ;;
  run_shell_loop os split_by_pipe_op lines.

Definition main (lines : list str) : M unit :=
  setup_default_environment ;;
  setup_signals ;;
  run_shell lines.

End Startup.

(** ** Definitions used by the statements *)

(** The messages of [run_command] and [handle_exit_command], with the
    newline that [print] adds. *)
Definition expected_command_after_pipe : str :=
  "mysh: syntax error: expected command after pipe" ++ [newline].





(** The message of [replace_variables] for an invalid name. *)
Definition invalid_variable (var_name : str) : str :=
  "mysh: syntax error: invalid characters for variable " ++ var_name ++ [newline].

(** A match that the loop of [replace_variables] passes over: it stands
    behind a backslash, or its name is a valid one. *)
Definition passes (cmd : str) (m : Re.rmatch) : bool :=
  preceded_by_backslash cmd m || is_valid_variable_name (Re.m_group1 m).

(** [m0] is the first of the matches [ms] that the loop does not pass
    over. *)
Definition first_rejected (cmd : str) (ms : list Re.rmatch) (m0 : Re.rmatch) : Prop :=
  exists before after,
    ms = before ++ m0 :: after
    /\ forallb (passes cmd) before = true
    /\ passes cmd m0 = false.

(** The pattern [^[A-Za-z_][A-Za-z0-9_]*$] read literally: an ASCII letter
    or underscore, then ASCII letters, digits and underscores up to the end
    of the string. *)
Definition is_ascii_word (c : ascii) : bool :=
  Py.is_ascii_alpha c || Py.is_ascii_digit c || Py.is_underscore c.
Definition spec_identifier (name : str) : bool :=
  match name with
  | [] => false
  | c :: rest => (Py.is_ascii_alpha c || Py.is_underscore c) && forallb is_ascii_word rest
  end.

(** The interpolated value of a valid name: its entry, or the empty string. *)
Definition value_of (w : world) (name : str) : str :=
  match environ w !! name with
  | Some v => v
  | None => []
  end.

(** A world whose environment holds the given entries. *)
Definition world_with (entries : list (string * string)) : world :=
  initial_world
    (list_to_map (map (fun e => (list_ascii_of_string (fst e),
                                 list_ascii_of_string (snd e))) entries))
    "/".

(** A system like [plain_os] in which the files of [files] exist and are
    executable, and in which the calls of [os.fork] are answered from
    [answers] in turn ([None] once the list is used up). *)
Definition scripted_os (files : list string) (answers : list (option Z)) : OS :=
  {| fork_result := fun n => match nth_error answers n with
                             | Some a => a
                             | None => None
                             end;
     pipe_ok := fun _ => true;
     isfile := fun p => existsb (Py.str_eqb p) (strs files);
     access_x := fun p => existsb (Py.str_eqb p) (strs files);
     chdir_error := fun _ => None;
     realpath := fun p => p;
     execvp_error := fun _ => None;
     setpgid_permission_error := false;
     captured_output := fun _ => [];
     read_error := fun _ => None;
     pw_dir_of_uid := None;
     pw_dir_of_name := fun _ => None;
     defpath := "/bin:/usr/bin" |}.

Definition is_close (e : event) : bool :=
  match e with EvClose _ => true | _ => false end.
Definition is_waitpid (e : event) : bool :=
  match e with EvWaitpid _ => true | _ => false end.

(** Several command lines in turn, as the loop of [run_shell] runs them. *)
Fixpoint run_commands (os : OS) (split_by_pipe_op : str -> list str)
    (lines : list str) : M unit :=
  match lines with
  | [] => ret tt
  | cmd :: rest =>
      run_command os split_by_pipe_op cmd ;;
      run_commands os split_by_pipe_op rest
  end.

(** A computation [preserves] a relation between the world before and the
    world after when the relation holds however the computation ends. *)
Definition preserves {A} (R : world -> world -> Prop) (m : M A) : Prop :=
  forall w, R w (snd (m w)).

(** The trace has only grown, and by no [os.close]; no descriptor that
    was open has been closed. *)
Definition closes_nothing (w w' : world) : Prop :=
  (exists evs, trace w' = trace w ++ evs /\ forallb (fun e => negb (is_close e)) evs = true)
  /\ open_fds w ⊆ open_fds w'.

(** What a built-in can change and a child process cannot change for its
    parent: the environment and the logical working directory. *)
Definition same_shell_state (w w' : world) : Prop :=
  environ w' = environ w /\ logical_pwd w' = logical_pwd w.

(** The entry [OLDPWD] of the environment is as it was. *)
Definition same_oldpwd (w w' : world) : Prop :=
  environ w' !! ("OLDPWD" : str) = environ w !! ("OLDPWD" : str).

(** The first stage of the pipeline [a | b | c] seen from its child: the
    first [os.fork] returns 0, and so does the one of the launcher in
    [exec_side]; in [wait_side] the launcher's fork returns the pid 9. *)
Definition first_stage_exec_side : outcome unit * world :=
  execute_pipeline (scripted_os ["/bin/a"] [Some 0%Z; Some 0%Z])
                   (strs ["a"; "b"; "c"]) (initial_world ∅ "/").
Definition first_stage_wait_side : outcome unit * world :=
  execute_pipeline (scripted_os ["/bin/a"] [Some 0%Z; Some 9%Z])
                   (strs ["a"; "b"; "c"]) (initial_world ∅ "/").

(** A pipeline whose first stage is the built-in named by the line, seen
    from the child of that stage (every [os.fork] returns 0). *)
Definition exit_stage_child : outcome unit * world :=
  run_command (plain_os 0) split_by_pipe_op_spec "exit 3 | cat" (initial_world ∅ "/").
Definition cd_stage_child : outcome unit * world :=
  run_command (plain_os 0) split_by_pipe_op_spec "cd /tmp | cat" (initial_world ∅ "/").
Definition pwd_stage_child : outcome unit * world :=
  run_command (scripted_os ["/bin/pwd"] [Some 0%Z; Some 0%Z]) split_by_pipe_op_spec
              "pwd | cat" (initial_world ∅ "/").

(** The three commands of the spec's example, started in [/home], without
    and with an inherited entry [OLDPWD]. *)
Definition cd_session : outcome unit * world :=
  run_commands (plain_os 7) split_by_pipe_op_spec
               (strs ["cd /tmp"; "cd /"; "cd -"]) (initial_world ∅ "/home").
Definition cd_session_inherited : outcome unit * world :=
  run_commands (plain_os 7) split_by_pipe_op_spec
               (strs ["cd /tmp"; "cd /"; "cd -"])
               (initial_world {[ ("OLDPWD" : str) := ("/var" : str) ]} "/home").

(** Two stages, seen from the parent, with a failure after the first
    child has been forked: the second stage has an unterminated quote, or
    the second [os.fork] fails. *)
Definition wc_unterminated : str := " wc " ++ [dquote] ++ "x".
Definition unterminated_second_stage : outcome unit * world :=
  execute_pipeline (plain_os 7) ["cat " : str; wc_unterminated] (initial_world ∅ "/").
Definition failed_second_fork : outcome unit * world :=
  execute_pipeline (scripted_os [] [Some 7%Z]) (strs ["cat"; "wc"]) (initial_world ∅ "/").

(** Sessions of two lines; the second line is [pwd]. *)
Definition session (first : str) : outcome unit * world :=
  run_shell_loop (plain_os 7) split_by_pipe_op_spec [first; "pwd" : str]
                 (initial_world ∅ "/").
Definition pipeline_unterminated : str := "cat |" ++ wc_unterminated.
Definition echo_unterminated : str := "echo " ++ [dquote] ++ "x".
Definition prompt : str := ">> ".

Definition no_closing_quotation : exn := Exn ValueError Shlex.no_closing_quotation.
Definition list_index_out_of_range : exn := Exn IndexError "list index out of range".

(** The class of the exception a computation ended with, if it did. *)
Definition kind_of_failure {A} (r : outcome A) : option exn_kind :=
  match r with
  | Raise e => Some (kind e)
  | _ => None
  end.

(** The children a process has forked, and the children it has waited
    for, in the order of its trace. *)
Definition forked_pid (e : event) : list Z :=
  match e with
  | EvFork pid => if (0 <? pid)%Z then [pid] else []
  | _ => []
  end.
Definition waited_pid (e : event) : list Z :=
  match e with
  | EvWaitpid pid => [pid]
  | _ => []
  end.
Definition children (t : list event) : list Z := flat_map forked_pid t.
Definition reaped (t : list event) : list Z := flat_map waited_pid t.

(** No child has been forked and none has been waited for. *)
Definition same_children (w w' : world) : Prop :=
  children (trace w') = children (trace w) /\ reaped (trace w') = reaped (trace w).

(** [s.endswith('\\')] *)
Definition ends_with_backslash (s : str) : bool :=
  match rev s with
  | c :: _ => Ascii.eqb c backslash
  | [] => false
  end.

(** The text of a reference to [name]. *)
Definition reference (name : str) : str := "${" ++ name ++ "}".

(** A character that the lexer takes as part of a word wherever it
    stands: no white space, no quote, no backslash, no hash. *)
Definition is_plain (c : ascii) : bool :=
  negb (Py.char_in c Shlex.whitespace) && negb (Py.char_in c Shlex.quotes)
  && negb (Py.char_in c Shlex.escape) && negb (Ascii.eqb c "#").

(** A non-empty word of such characters, and one that holds neither of
    the two placeholder texts. *)
Definition plain_word (w : str) : bool :=
  negb (Shlex.is_empty w) && forallb is_plain w.
Definition no_placeholder (w : str) : bool :=
  negb (Py.contains SINGLE_QUOTE w) && negb (Py.contains DOUBLE_QUOTE w).
Definition plain_argument (w : str) : bool := plain_word w && no_placeholder w.

(** White space as the lexer knows it. *)
Definition is_blank (c : ascii) : bool := Py.char_in c Shlex.whitespace.

(** What the iteration over the lexer yields when the words of [ws] have
    been read and [more] is what follows. *)
Definition yield_all (ws : list str) (more : str + list str) : str + list str :=
  fold_right (fun w acc => Shlex.yield w false acc) more ws.

(** The line of an unterminated quote, with the newline of [print]. *)
Definition unterminated_quote : str :=
  "mysh: syntax error: unterminated quote" ++ [newline].

(** The directory that [cd path] asks the system to enter. *)
Definition cd_target (w : world) (path : str) : str :=
  PosixPath.abspath (os_cwd w) (PosixPath.join (logical_pwd w) path).

(** The state after a [cd] that entered [target]. *)
Definition entered (os : OS) (target : str) (w : world) : world :=
  set_environ (fun e => <[("PWD" : str) := target]> e)
    (set_logical_pwd target
       (log (EvChdir target)
          (set_os_cwd (entered_directory os (os_cwd w) target) w))).

(** The line [cd] prints for an exception of one of the three classes
    it catches. *)
Definition cd_error (k : exn_kind) (path : str) : str :=
  match k with
  | FileNotFoundError => "cd: no such file or directory: " ++ path ++ [newline]
  | NotADirectoryError => "cd: not a directory: " ++ path ++ [newline]
  | _ => "cd: permission denied: " ++ path ++ [newline]
  end.
Definition cd_catches (k : exn_kind) : bool :=
  kind_eqb k FileNotFoundError || kind_eqb k NotADirectoryError
  || kind_eqb k PermissionError.

(** A path that [cd] takes as it is written: no tilde to expand, and not
    the dash. *)
Definition literal_path (path : str) : bool :=
  negb (Py.startswith "~" path) && negb (Py.str_eqb path "-").

(** A system like [plain_os 7] in which the directory [missing] does not
    exist. *)
Definition scripted_os_without (missing : string) : OS :=
  {| fork_result := fun _ => Some 7%Z;
     pipe_ok := fun _ => true;
     isfile := fun _ => false;
     access_x := fun _ => false;
     chdir_error := fun p =>
       if Py.str_eqb p missing
       then Some (Exn FileNotFoundError "No such file or directory")
       else None;
     realpath := fun p => p;
     execvp_error := fun _ => None;
     setpgid_permission_error := false;
     captured_output := fun _ => [];
     read_error := fun _ => None;
     pw_dir_of_uid := None;
     pw_dir_of_name := fun _ => None;
     defpath := "/bin:/usr/bin" |}.

(** [os.getenv("PATH", os.defpath).split(os.pathsep)] *)
Definition path_dirs (os : OS) (w : world) : list str :=
  Py.split ":" (match environ w !! ("PATH" : str) with
                | Some v => v
                | None => defpath os
                end).

(** The candidate for [command] in the directory [d] is a regular file,
    and it is one that may be executed. *)
Definition has_file (os : OS) (command d : str) : bool :=
  isfile os (PosixPath.join d command).
Definition has_executable (os : OS) (command d : str) : bool :=
  isfile os (PosixPath.join d command) && access_x os (PosixPath.join d command).

(** The lines that [print] writes for the elements of [ls]. *)
Definition printed (ls : list str) : str := concat (map (fun l => l ++ [newline]) ls).

Definition no_tilde (args : list str) : bool :=
  forallb (fun a => negb (Py.startswith "~" a)) args.

Definition command_not_found (arg0 : str) : str :=
  "mysh: command not found: " ++ arg0 ++ [newline].
Definition permission_denied (arg0 : str) : str :=
  "mysh: permission denied: " ++ arg0 ++ [newline].

(** A system like [plain_os 7] with the regular files [files], of which
    those in [executables] may be executed. *)
Definition os_with_files (files executables : list string) : OS :=
  {| fork_result := fun _ => Some 7%Z;
     pipe_ok := fun _ => true;
     isfile := fun p => existsb (Py.str_eqb p) (strs files);
     access_x := fun p => existsb (Py.str_eqb p) (strs executables);
     chdir_error := fun _ => None;
     realpath := fun p => p;
     execvp_error := fun _ => None;
     setpgid_permission_error := false;
     captured_output := fun _ => [];
     read_error := fun _ => None;
     pw_dir_of_uid := None;
     pw_dir_of_name := fun _ => None;
     defpath := "/bin:/usr/bin" |}.

(** The entries of the environment whose names are not valid variable
    names are as they were. *)
Definition valid_writes (w w' : world) : Prop :=
  forall k, Re.match_identifier k = false -> environ w' !! k = environ w !! k.

(** Every child forked between [w] and [w'] has been waited for once,
    in the order of the forks, and nothing else has been waited for. *)
Definition balanced (w w' : world) : Prop :=
  exists pids,
    children (trace w') = children (trace w) ++ pids
    /\ reaped (trace w') = reaped (trace w) ++ pids.

(** The process is never the child of one of its forks: every [os.fork]
    that returns gives it a positive pid. *)
Definition parent_role (os : OS) : Prop :=
  forall n pid, fork_result os n = Some pid -> (0 < pid)%Z.

(** Reading what a child wrote to the pipe never fails. *)
Definition reads_succeed (os : OS) : Prop :=
  forall fd, read_error os fd = None.

(** No name bound in the environment of [w] is unbound in that of [w']. *)
Definition keeps_entries (w w' : world) : Prop :=
  forall k : str, is_Some (environ w !! k) -> is_Some (environ w' !! k).



(** The read ends and the write ends of a list of pipes. *)
Definition read_ends (pipe_fds : list (nat * nat)) : gset nat :=
  list_to_set (map fst pipe_fds).
Definition write_ends (pipe_fds : list (nat * nat)) : gset nat :=
  list_to_set (map snd pipe_fds).

(** Pipes whose descriptors are all different from each other and from
    those of [fds]. *)
Fixpoint fresh_pipes (fds : gset nat) (pipe_fds : list (nat * nat)) : Prop :=
  match pipe_fds with
  | [] => True
  | p :: rest =>
      fst p <> snd p
      /\ (fst p ∉ fds) /\ (snd p ∉ fds)
      /\ (fst p ∉ read_ends rest ∪ write_ends rest)
      /\ (snd p ∉ read_ends rest ∪ write_ends rest)
      /\ fresh_pipes fds rest
  end.

(** The line that the launcher prints when its [try] block fails. *)
Definition error_executing (e : exn) : str :=
  "Error executing command: " ++ message e ++ [newline].

(** The child's view of a system with the executable files [files] in
    which [os.execvp] fails with [e]: every [os.fork] returns 0. *)
Definition child_os_exec_fails (files : list string) (e : exn) : OS :=
  {| fork_result := fun _ => Some 0%Z;
     pipe_ok := fun _ => true;
     isfile := fun p => existsb (Py.str_eqb p) (strs files);
     access_x := fun p => existsb (Py.str_eqb p) (strs files);
     chdir_error := fun _ => None;
     realpath := fun p => p;
     execvp_error := fun _ => Some e;
     setpgid_permission_error := false;
     captured_output := fun _ => [];
     read_error := fun _ => None;
     pw_dir_of_uid := None;
     pw_dir_of_name := fun _ => None;
     defpath := "/bin:/usr/bin" |}.

(** An argument that [handle_pwd_command] lets through: a dash followed
    by any number of [P]. *)
Definition pwd_option (arg : str) : bool :=
  match arg with
  | c :: options => Ascii.eqb c "-" && forallb (fun o => Ascii.eqb o "P") options
  | [] => false
  end.

(** The line of [handle_var_command] when the launcher returned [None]. *)
Definition var_failed_none : str :=
  "var: failed to execute command: str expected, not NoneType" ++ [newline].

(** A system like [plain_os 7] in which the paths of [links] have the
    canonical names given, and every other path is its own. *)
Definition os_with_links (links : list (string * string)) : OS :=
  {| fork_result := fun _ => Some 7%Z;
     pipe_ok := fun _ => true;
     isfile := fun _ => false;
     access_x := fun _ => false;
     chdir_error := fun _ => None;
     realpath := fun p =>
       match List.find (fun l => Py.str_eqb p (list_ascii_of_string (fst l))) links with
       | Some l => list_ascii_of_string (snd l)
       | None => p
       end;
     execvp_error := fun _ => None;
     setpgid_permission_error := false;
     captured_output := fun _ => [];
     read_error := fun _ => None;
     pw_dir_of_uid := None;
     pw_dir_of_name := fun _ => None;
     defpath := "/bin:/usr/bin" |}.

(** A system with the executable files [files] in which every [os.fork]
    returns [pid], and reading the pipe of a child gives [output], or
    raises [failure]. *)
Definition os_with_output (files : list string) (pid : Z) (output : str)
    (failure : option exn) : OS :=
  {| fork_result := fun _ => Some pid;
     pipe_ok := fun _ => true;
     isfile := fun p => existsb (Py.str_eqb p) (strs files);
     access_x := fun p => existsb (Py.str_eqb p) (strs files);
     chdir_error := fun _ => None;
     realpath := fun p => p;
     execvp_error := fun _ => None;
     setpgid_permission_error := false;
     captured_output := fun _ => output;
     read_error := fun _ => failure;
     pw_dir_of_uid := None;
     pw_dir_of_name := fun _ => None;
     defpath := "/bin:/usr/bin" |}.

(** * Properties *)

(** ** Strings *)

Section StringFacts.

Lemma dropwhile_all (p : ascii -> bool) (s : str) :
  forallb p s = true -> Py.dropwhile p s = [].
Proof.
  induction s as [|c s IH]; simpl; [reflexivity|].
  intros H. apply andb_prop in H as [Hc Hs]. rewrite Hc. auto.
Qed.

Lemma dropwhile_nil_all (p : ascii -> bool) (s : str) :
  Py.dropwhile p s = [] -> forallb p s = true.
Proof.
  induction s as [|c s IH]; simpl; [reflexivity|].
  destruct (p c); simpl; [exact IH | discriminate].
Qed.

Lemma dropwhile_head (p : ascii -> bool) (s : str) c r :
  Py.dropwhile p s = c :: r -> p c = false.
Proof.
  induction s as [|d s IH]; simpl; [discriminate|].
  destruct (p d) eqn:E; [exact IH|].
  intros H. injection H as -> _. exact E.
Qed.

Lemma forallb_rev (p : ascii -> bool) (s : str) :
  forallb p (rev s) = forallb p s.
Proof.
  induction s as [|c s IH]; simpl; [reflexivity|].
  rewrite forallb_app, IH. simpl. rewrite andb_true_r. apply andb_comm.
Qed.

(** A stage is rejected by the test [command.strip() == ""] exactly when
    it is empty or made of white space only. *)
Lemma strip_empty_iff (s : str) :
  Py.strip s = [] <-> forallb Py.isspace s = true.
Proof.
  unfold Py.strip, Py.rstrip, Py.lstrip. split.
  - intros H.
    assert (H1 : Py.dropwhile Py.isspace (rev (Py.dropwhile Py.isspace s)) = []).
    { rewrite <- (rev_involutive (Py.dropwhile _ (rev _))), H. reflexivity. }
    apply dropwhile_nil_all in H1. rewrite forallb_rev in H1.
    destruct (Py.dropwhile Py.isspace s) as [|c r] eqn:E.
    + now apply dropwhile_nil_all.
    + apply dropwhile_head in E. simpl in H1. rewrite E in H1. discriminate.
  - intros H. rewrite (dropwhile_all _ _ H). reflexivity.
Qed.

Lemma dropwhile_id (p : ascii -> bool) (s : str) :
  match s with [] => True | c :: _ => p c = false end -> Py.dropwhile p s = s.
Proof. destruct s as [|c s]; simpl; [reflexivity|]. now intros ->. Qed.

End StringFacts.

(** ** The empty-stage check of [run_command] *)

Section EmptyStage.

Variable os : OS.
Variable split_by_pipe_op : str -> list str.

(** C6.  When the line contains a pipe character and one of the stages
    returned by the segmenter is empty or white space only, [run_command]
    prints the syntax error and returns: nothing else of the process
    state changes, no [os.fork] is called and no system call is issued. *)
Theorem empty_stage_rejected (cmd : str) (w : world) :
  Py.char_in "|"%char cmd = true ->
  (exists stage, In stage (split_by_pipe_op cmd)
                 /\ forallb Py.isspace stage = true) ->
  run_command os split_by_pipe_op cmd w
    = (Ret tt, write_stderr expected_command_after_pipe w)
  /\ forks (snd (run_command os split_by_pipe_op cmd w)) = forks w
  /\ trace (snd (run_command os split_by_pipe_op cmd w)) = trace w.
Proof.
  intros Hpipe (stage & Hin & Hsp).
  assert (E : run_command os split_by_pipe_op cmd w
              = (Ret tt, write_stderr expected_command_after_pipe w)).
  { unfold run_command. rewrite Hpipe.
    replace (existsb _ (split_by_pipe_op cmd)) with true; [reflexivity|].
    symmetry. apply existsb_exists. exists stage. split; [exact Hin|].
    apply strip_empty_iff in Hsp. now rewrite Hsp. }
  rewrite E. auto.
Qed.

End EmptyStage.

(** The line of the spec's example, cut by the segmenter into the stages
    [echo hi ], a single space and [ wc -l]. *)
Lemma empty_stage_rejected_witness :
  run_command (plain_os 7) split_by_pipe_op_spec "echo hi | | wc -l"
              (initial_world ∅ "/")
    = (Ret tt, write_stderr expected_command_after_pipe (initial_world ∅ "/"))
  /\ forks (snd (run_command (plain_os 7) split_by_pipe_op_spec "echo hi | | wc -l"
                             (initial_world ∅ "/"))) = 0
  /\ trace (snd (run_command (plain_os 7) split_by_pipe_op_spec "echo hi | | wc -l"
                             (initial_world ∅ "/"))) = [].
Proof.
  apply (empty_stage_rejected (plain_os 7) split_by_pipe_op_spec
           "echo hi | | wc -l" (initial_world ∅ "/")).
  - reflexivity.
  - exists " ". split; [vm_compute; auto | reflexivity].
Defined.

(** ** The [exit] built-in *)

Section ExitBuiltin.









Lemma strip_no_space (s : str) :
  forallb (fun c => negb (Py.isspace c)) s = true -> Py.strip s = s.
Proof.
  intros H. unfold Py.strip, Py.rstrip, Py.lstrip.
  rewrite (dropwhile_id Py.isspace s).
  - rewrite dropwhile_id; [apply rev_involutive|].
    rewrite <- forallb_rev in H. destruct (rev s) as [|c r]; [exact I|].
    simpl in H. apply andb_prop in H as [Hc _]. now apply negb_true_iff.
  - destruct s as [|c r]; [exact I|].
    simpl in H. apply andb_prop in H as [Hc _]. now apply negb_true_iff.
Qed.

Lemma digit_not_space (c : ascii) :
  Py.is_ascii_digit c = true -> Py.isspace c = false.
Proof. destruct c as [[] [] [] [] [] [] [] []]; vm_compute; congruence. Qed.

Lemma digits_no_space (ds : str) :
  forallb Py.is_ascii_digit ds = true ->
  forallb (fun c => negb (Py.isspace c)) ds = true.
Proof.
  induction ds as [|c ds IH]; simpl; [reflexivity|].
  intros H. apply andb_prop in H as [Hc Hs].
  rewrite (digit_not_space _ Hc). simpl. auto.
Qed.



























Example exit_42 :
  handle_exit_command (strs ["exit"; "42"]) (initial_world ∅ "/")
  = (SysExit 42%Z, initial_world ∅ "/").
Proof. reflexivity. Qed.

Example exit_abc :
  fst (handle_exit_command (strs ["exit"; "abc"]) (initial_world ∅ "/")) = Ret tt.
Proof. reflexivity. Qed.

Example exit_control_character :
  fst (handle_exit_command [("exit" : str); ["028"%char; "5"%char]] (initial_world ∅ "/"))
  = Ret tt.
Proof. reflexivity. Qed.

End ExitBuiltin.

(** ** Variable interpolation *)

Section Interpolation.

Lemma takewhile_dropwhile (p : ascii -> bool) (s : str) :
  s = Py.takewhile p s ++ Py.dropwhile p s.
Proof.
  induction s as [|c s IH]; simpl; [reflexivity|].
  destruct (p c); simpl; congruence.
Qed.

Lemma takewhile_all (p : ascii -> bool) (s : str) :
  forallb p (Py.takewhile p s) = true.
Proof.
  induction s as [|c s IH]; simpl; [reflexivity|].
  destruct (p c) eqn:E; simpl; [now rewrite E|reflexivity].
Qed.

Lemma takewhile_app_stop (p : ascii -> bool) (s : str) (c : ascii) (r : str) :
  forallb p s = true -> p c = false -> Py.takewhile p (s ++ c :: r) = s.
Proof.
  induction s as [|d s IH]; simpl; intros Hs Hc.
  - now rewrite Hc.
  - apply andb_prop in Hs as [Hd Hs]. rewrite Hd. f_equal. auto.
Qed.

Lemma forallb_impl (p q : ascii -> bool) (s : str) :
  (forall c, p c = true -> q c = true) -> forallb p s = true -> forallb q s = true.
Proof.
  intros Hpq. induction s as [|c s IH]; simpl; [reflexivity|].
  intros H. apply andb_prop in H as [Hc Hs]. rewrite (Hpq _ Hc). auto.
Qed.

Lemma word_not_rbrace (c : ascii) : Py.is_word c = true -> Re.not_rbrace c = true.
Proof. destruct c as [[] [] [] [] [] [] [] []]; vm_compute; congruence. Qed.

Lemma head_not_rbrace (c : ascii) :
  Py.is_ascii_alpha c || Py.is_underscore c = true -> Re.not_rbrace c = true.
Proof. destruct c as [[] [] [] [] [] [] [] []]; vm_compute; congruence. Qed.

(** A name the source accepts is not empty and holds no closing brace,
    so the pattern matches the whole of the reference to it. *)
Lemma valid_name_no_rbrace (name : str) :
  is_valid_variable_name name = true ->
  Shlex.is_empty name = false /\ forallb Re.not_rbrace name = true.
Proof.
  unfold is_valid_variable_name, Re.match_identifier.
  destruct name as [|c rest]; [discriminate|].
  intros H. apply andb_prop in H as [Hc Hrest]. split; [reflexivity|].
  simpl. rewrite (head_not_rbrace _ Hc). simpl.
  rewrite (takewhile_dropwhile Py.is_word rest), forallb_app.
  rewrite (forallb_impl _ _ _ word_not_rbrace (takewhile_all _ _)). simpl.
  destruct (Py.dropwhile Py.is_word rest) as [|d [|]]; try discriminate; [reflexivity|].
  apply Ascii.eqb_eq in Hrest as ->. reflexivity.
Qed.

Lemma finditer_from_skip_all (s : str) : forall pos skip,
  length s <= skip -> Re.finditer_from pos skip s = [].
Proof.
  induction s as [|c s IH]; simpl; intros pos skip H; [reflexivity|].
  destruct skip as [|k]; [lia|]. apply IH. lia.
Qed.

Lemma skipn_length_app {A} (a b : list A) : skipn (length a) (a ++ b) = b.
Proof. induction a; simpl; auto. Qed.

Lemma match_here_reference (name r : str) :
  Shlex.is_empty name = false -> forallb Re.not_rbrace name = true ->
  Re.match_here ("$"%char :: "{"%char :: name ++ "}"%char :: r) = Some name.
Proof.
  intros Hne Hnb. unfold Re.match_here. cbv zeta.
  rewrite (takewhile_app_stop Re.not_rbrace name "}"%char r Hnb eq_refl).
  destruct name as [|a l]; [discriminate|].
  now rewrite (skipn_length_app (a :: l)).
Qed.

Lemma finditer_from_here (pos : nat) (c : ascii) (s : str) :
  Re.finditer_from pos 0 (c :: s)
  = match Re.match_here (c :: s) with
    | Some name =>
        {| Re.m_start := pos; Re.m_end := pos + length name + 3; Re.m_group1 := name |}
          :: Re.finditer_from (S pos) (length name + 2) s
    | None => Re.finditer_from (S pos) 0 s
    end.
Proof. reflexivity. Qed.

Lemma finditer_single_reference (name : str) :
  is_valid_variable_name name = true ->
  Re.finditer ("${" ++ name ++ "}")
  = [{| Re.m_start := 0; Re.m_end := length name + 3; Re.m_group1 := name |}].
Proof.
  intros Hv. destruct (valid_name_no_rbrace _ Hv) as [Hne Hnb].
  unfold Re.finditer.
  change ("${" ++ name ++ "}") with ("$"%char :: "{"%char :: name ++ "}"%char :: []).
  rewrite finditer_from_here, (match_here_reference _ _ Hne Hnb).
  cbn [Nat.add]. f_equal.
  apply finditer_from_skip_all. simpl. rewrite length_app. simpl. lia.
Qed.

(** C8 (as amended).  For every valid variable name, interpolating the
    reference to it alone yields exactly the value of its entry in the
    environment, whatever that value contains, and the empty string when
    it has no entry; the value is inserted as it is, in one pass. *)
Theorem interpolate_single_reference (name : str) (w : world) :
  is_valid_variable_name name = true ->
  replace_variables ("${" ++ name ++ "}") w = (Ret (value_of w name, true), w).
Proof.
  intros Hv. unfold replace_variables.
  rewrite (finditer_single_reference _ Hv).
  cbn [replace_matches]. unfold bind, replace, preceded_by_backslash.
  cbn [Re.m_start Re.m_group1 Re.m_end Nat.ltb Nat.leb andb].
  rewrite Hv. unfold getenv, bind, get, ret. cbn [app].
  unfold Py.slice. cbn [Nat.sub firstn concat].
  unfold value_of.
  replace (skipn (length name + 3) ("${" ++ name ++ "}")) with (@nil ascii).
  - destruct (environ w !! name); cbn [app]; now rewrite ?app_nil_r.
  - symmetry. apply skipn_all2. cbn [list_ascii_of_string app length].
    rewrite length_app. simpl. lia.
Qed.

(** The loop ends in one of two ways.  Either every match is passed
    over, and it returns with the success flag and leaves the state as it
    was; or it stops at the first match that is neither escaped nor
    valid, returns the empty string with the failure flag, and has written
    the line that names this match. *)
Lemma replace_matches_first_rejected (cmd : str) (ms : list Re.rmatch) :
  forall (result : list str) (last_end : nat) (w : world),
  exists s ok w',
    replace_matches cmd ms result last_end w = (Ret (s, ok), w')
    /\ (ok = true -> w' = w /\ forallb (passes cmd) ms = true)
    /\ (ok = false ->
        s = []
        /\ exists m0, first_rejected cmd ms m0
             /\ w' = write_stderr (invalid_variable (Re.m_group1 m0)) w).
Proof.
  induction ms as [|m ms IH]; intros result last_end w.
  - cbn [replace_matches]. eexists _, true, w. split; [reflexivity|].
    split; [now split | discriminate].
  - cbn [replace_matches]. unfold bind at 1. unfold replace.
    assert (Hstep : forall result' last_end',
      passes cmd m = true ->
      exists s ok w',
        replace_matches cmd ms result' last_end' w = (Ret (s, ok), w')
        /\ (ok = true -> w' = w /\ forallb (passes cmd) (m :: ms) = true)
        /\ (ok = false ->
            s = []
            /\ exists m0, first_rejected cmd (m :: ms) m0
                 /\ w' = write_stderr (invalid_variable (Re.m_group1 m0)) w)).
    { intros result' last_end' Hm.
      destruct (IH result' last_end' w) as (s & ok & w' & E & Hok & Hfail).
      exists s, ok, w'. split; [exact E|]. split.
      - intros H. destruct (Hok H) as [-> Hall]. split; [reflexivity|].
        cbn [forallb]. now rewrite Hm.
      - intros H. destruct (Hfail H) as (-> & m0 & (before & after & -> & Hb & H0) & ->).
        split; [reflexivity|]. exists m0. split; [|reflexivity].
        exists (m :: before), after. cbn [app forallb]. now rewrite Hm, Hb. }
    destruct (preceded_by_backslash cmd m) eqn:E1.
    + unfold ret at 1. apply Hstep. unfold passes. now rewrite E1.
    + destruct (is_valid_variable_name (Re.m_group1 m)) eqn:E2.
      * unfold getenv, bind, get, ret. apply Hstep. unfold passes.
        now rewrite E2, orb_true_r.
      * unfold eprint, modify, bind, ret. eexists [], false, _.
        split; [reflexivity|]. split; [discriminate|]. intros _.
        split; [reflexivity|]. exists m. split.
        -- exists [], ms. unfold passes. now rewrite E1, E2.
        -- unfold invalid_variable. now rewrite <- !app_assoc.
Qed.

Lemma first_rejected_in (cmd : str) (ms : list Re.rmatch) (m0 : Re.rmatch) :
  first_rejected cmd ms m0 ->
  In m0 ms /\ preceded_by_backslash cmd m0 = false
  /\ is_valid_variable_name (Re.m_group1 m0) = false.
Proof.
  intros (before & after & -> & _ & H). unfold passes in H.
  apply orb_false_iff in H as [H1 H2].
  split; [apply in_or_app; right; now left|]. now split.
Qed.

(** When some match is neither escaped nor valid, the loop fails at the
    first such match. *)
Lemma replace_matches_invalid (cmd : str) (ms : list Re.rmatch) :
  forall (result : list str) (last_end : nat) (w : world) (m : Re.rmatch),
  In m ms ->
  preceded_by_backslash cmd m = false ->
  is_valid_variable_name (Re.m_group1 m) = false ->
  exists m0, first_rejected cmd ms m0
    /\ replace_matches cmd ms result last_end w
       = (Ret ([], false), write_stderr (invalid_variable (Re.m_group1 m0)) w).
Proof.
  intros result last_end w m Hin Hesc Hinv.
  destruct (replace_matches_first_rejected cmd ms result last_end w)
    as (s & ok & w' & E & Hok & Hfail).
  destruct ok.
  - destruct (Hok eq_refl) as [_ Hall]. rewrite forallb_forall in Hall.
    specialize (Hall m Hin). unfold passes in Hall. rewrite Hesc, Hinv in Hall.
    discriminate.
  - destruct (Hfail eq_refl) as (-> & m0 & H0 & ->). now exists m0.
Qed.

(** C7 (as amended).  When the scan of the line finds a match that is not
    preceded by a backslash and whose name the source's check rejects,
    interpolation fails at the first such match [m0]: every match before
    it is escaped or valid, the result is the empty string with the
    failure flag, and only the line that names [m0] has been written to
    standard error; and for a line without a pipe character [run_command]
    then returns at once: no word is split, no handler runs, no system
    call is issued. *)
Theorem invalid_match_fails (cmd : str) (m : Re.rmatch) (w : world) :
  In m (Re.finditer cmd) ->
  preceded_by_backslash cmd m = false ->
  is_valid_variable_name (Re.m_group1 m) = false ->
  exists m0, first_rejected cmd (Re.finditer cmd) m0
    /\ In m0 (Re.finditer cmd)
    /\ preceded_by_backslash cmd m0 = false
    /\ is_valid_variable_name (Re.m_group1 m0) = false
    /\ replace_variables cmd w
       = (Ret ([], false), write_stderr (invalid_variable (Re.m_group1 m0)) w)
    /\ forall (os : OS) (split_by_pipe_op : str -> list str),
         Py.char_in "|"%char cmd = false ->
         run_command os split_by_pipe_op cmd w
         = (Ret tt, write_stderr (invalid_variable (Re.m_group1 m0)) w).
Proof.
  intros Hin Hesc Hinv.
  destruct (replace_matches_invalid cmd (Re.finditer cmd) [] 0 w m Hin Hesc Hinv)
    as (m0 & H0 & H3).
  destruct (first_rejected_in _ _ _ H0) as (Hin0 & Hesc0 & Hinv0).
  exists m0. split; [exact H0|]. split; [exact Hin0|]. split; [exact Hesc0|].
  split; [exact Hinv0|]. split; [exact H3|].
  intros os split_by_pipe_op Hpipe. unfold run_command. rewrite Hpipe.
  unfold bind at 1. unfold replace_variables. rewrite H3. reflexivity.
Qed.

(** The literal pattern of the spec accepts no more than the source's
    check does. *)
Lemma ascii_word_is_word (c : ascii) : is_ascii_word c = true -> Py.is_word c = true.
Proof.
  unfold is_ascii_word, Py.is_word. intros ->. reflexivity.
Qed.

Lemma spec_identifier_valid (name : str) :
  spec_identifier name = true -> is_valid_variable_name name = true.
Proof.
  unfold spec_identifier, is_valid_variable_name, Re.match_identifier.
  destruct name as [|c rest]; [discriminate|].
  intros H. apply andb_prop in H as [Hc Hrest]. rewrite Hc. simpl.
  now rewrite (dropwhile_all _ _ (forallb_impl _ _ _ ascii_word_is_word Hrest)).
Qed.

Lemma ascii_is_word (c : ascii) :
  (Py.code c <? 128) = true -> Py.is_word c = is_ascii_word c.
Proof. destruct c as [[] [] [] [] [] [] [] []]; vm_compute; congruence. Qed.

Lemma word_tail_ascii (rest : str) :
  forallb (fun c => Py.code c <? 128) rest = true ->
  Py.char_in newline rest = false ->
  match Py.dropwhile Py.is_word rest with
  | [] => true
  | [d] => Ascii.eqb d newline
  | _ => false
  end = forallb is_ascii_word rest.
Proof.
  induction rest as [|c r IH]; [reflexivity|].
  cbn [forallb Py.char_in existsb Py.dropwhile]. intros Ha Hn.
  apply andb_prop in Ha as [Hc Hr]. apply orb_false_iff in Hn as [Hnc Hnr].
  rewrite (ascii_is_word _ Hc). destruct (is_ascii_word c) eqn:E; simpl.
  - now apply IH.
  - destruct r; [|reflexivity]. rewrite Ascii.eqb_sym. exact Hnc.
Qed.

(** On names of ASCII characters that hold no newline the check of the
    source is the literal pattern. *)
Lemma valid_ascii_name (name : str) :
  forallb (fun c => Py.code c <? 128) name = true ->
  Py.char_in newline name = false ->
  is_valid_variable_name name = spec_identifier name.
Proof.
  unfold is_valid_variable_name, Re.match_identifier, spec_identifier.
  destruct name as [|c rest]; [reflexivity|].
  cbn [forallb Py.char_in existsb]. intros Ha Hn.
  apply andb_prop in Ha as [_ Hr]. apply orb_false_iff in Hn as [_ Hnr].
  now rewrite (word_tail_ascii _ Hr Hnr).
Qed.

(** The two differ on names with a letter or digit beyond ASCII and on
    names that end in a newline. *)
Example valid_latin1_name :
  spec_identifier ("a" ++ ["233"%char]) = false
  /\ is_valid_variable_name ("a" ++ ["233"%char]) = true.
Proof. split; reflexivity. Qed.

Example valid_name_with_newline :
  spec_identifier ("A" ++ [newline]) = false
  /\ is_valid_variable_name ("A" ++ [newline]) = true.
Proof. split; reflexivity. Qed.

End Interpolation.

(** The line [echo ${1a} ${HOME} ${2b}], entered with its last match:
    the match that is reported is the first one. *)
Lemma invalid_match_fails_witness :
  exists m0, first_rejected "echo ${1a} ${HOME} ${2b}"
               (Re.finditer "echo ${1a} ${HOME} ${2b}") m0
    /\ In m0 (Re.finditer "echo ${1a} ${HOME} ${2b}")
    /\ preceded_by_backslash "echo ${1a} ${HOME} ${2b}" m0 = false
    /\ is_valid_variable_name (Re.m_group1 m0) = false
    /\ replace_variables "echo ${1a} ${HOME} ${2b}" (initial_world ∅ "/")
       = (Ret ([], false),
          write_stderr (invalid_variable (Re.m_group1 m0)) (initial_world ∅ "/"))
    /\ forall (os : OS) (split_by_pipe_op : str -> list str),
         Py.char_in "|"%char "echo ${1a} ${HOME} ${2b}" = false ->
         run_command os split_by_pipe_op "echo ${1a} ${HOME} ${2b}" (initial_world ∅ "/")
         = (Ret tt, write_stderr (invalid_variable (Re.m_group1 m0))
                                 (initial_world ∅ "/")).
Proof.
  apply (invalid_match_fails "echo ${1a} ${HOME} ${2b}"
           {| Re.m_start := 19; Re.m_end := 24; Re.m_group1 := "2b" |}
           (initial_world ∅ "/")).
  - vm_compute. auto.
  - reflexivity.
  - reflexivity.
Defined.

Example first_invalid_reference_reported :
  replace_variables "echo ${1a} ${HOME} ${2b}" (initial_world ∅ "/")
  = (Ret ([], false), write_stderr (invalid_variable "1a") (initial_world ∅ "/")).
Proof. reflexivity. Qed.

(** C7, as it is stated, fails on two lines.  The first holds the reference
    [${1BAD}] after an [x], inside a longer match that a backslash
    escapes: the scan never looks at it and interpolation succeeds.  The
    second refers to a name with a Latin-1 letter, which the literal
    pattern rejects and the source accepts. *)
Lemma invalid_reference_accepted :
  (("\${x${1BAD}" : str) = "\${x" ++ ("${" ++ "1BAD" ++ "}")
   /\ spec_identifier "1BAD" = false
   /\ replace_variables "\${x${1BAD}" (initial_world ∅ "/")
      = (Ret ("${x${1BAD}" : str, true), initial_world ∅ "/"))
  /\ (spec_identifier ("a" ++ ["233"%char]) = false
      /\ replace_variables ("${" ++ ("a" ++ ["233"%char]) ++ "}")
                           (world_with [("HOME", "/root")])
         = (Ret ([], true), world_with [("HOME", "/root")])).
Proof. repeat split; reflexivity. Qed.

(** Two entries: the value of [NAME] holds a reference to [B]. *)
Lemma interpolate_single_reference_witness :
  is_valid_variable_name "NAME" = true
  /\ replace_variables "${NAME}" (world_with [("NAME", "a ${B} c"); ("B", "x")])
     = (Ret ("a ${B} c" : str, true), world_with [("NAME", "a ${B} c"); ("B", "x")]).
Proof.
  split; [reflexivity|].
  apply (interpolate_single_reference "NAME"
           (world_with [("NAME", "a ${B} c"); ("B", "x")])).
  reflexivity.
Defined.

(** C8, as it is stated, fails for an entry whose name is not a valid
    variable name: the environment inherited by the interpreter may hold
    one, and the reference to it is a syntax error. *)
Lemma invalid_entry_not_interpolated :
  environ (world_with [("1BAD", "x")]) !! ("1BAD" : str) = Some ("x" : str)
  /\ Py.contains "${" "x" = false
  /\ fst (replace_variables "${1BAD}" (world_with [("1BAD", "x")]))
     = Ret ([], false).
Proof. repeat split; reflexivity. Qed.

Example interpolate_unset :
  replace_variables "${UNSET}" (world_with [("B", "x")])
  = (Ret ([], true), world_with [("B", "x")]).
Proof. reflexivity. Qed.

Example interpolate_escaped :
  replace_variables "a \${B} c" (world_with [("B", "x")])
  = (Ret ("a ${B} c" : str, true), world_with [("B", "x")]).
Proof. reflexivity. Qed.

(** ** The tokenizer and its placeholders *)

Section Placeholders.

Lemma startswith_length (p s : str) :
  Py.startswith p s = true -> length p <= length s.
Proof.
  revert s. induction p as [|a p IH]; intros [|b s]; simpl; try lia; try discriminate.
  intros H. apply andb_prop in H as [_ H]. apply IH in H. lia.
Qed.

Lemma contains_cons (sub : str) (c : ascii) (s : str) :
  Py.contains sub (c :: s) = Py.startswith sub (c :: s) || Py.contains sub s.
Proof. reflexivity. Qed.

(** A string without an occurrence of [old] is left as it is. *)
Lemma replace_absent (old new s : str) :
  Py.contains old s = false -> Py.replace old new s = s.
Proof.
  unfold Py.replace. induction s as [|c s IH]; [reflexivity|].
  rewrite contains_cons. intros H. apply orb_false_iff in H as [H1 H2].
  cbn [Py.replace_from]. rewrite H1. f_equal. auto.
Qed.

(** Passing over [k] characters is dropping them. *)
Lemma replace_from_skip (old new : str) (s : str) : forall k,
  Py.replace_from old new k s = Py.replace old new (skipn k s).
Proof.
  unfold Py.replace. induction s as [|c s IH]; intros [|k]; try reflexivity.
  cbn [Py.replace_from skipn]. apply IH.
Qed.

(** The leftmost occurrence is replaced and the rest of the string is
    treated in the same way after it. *)
Lemma replace_first_occurrence (old new : str) (s : str) : forall i,
  Shlex.is_empty old = false ->
  Py.find_sub old s = Some i ->
  Py.replace old new s
  = firstn i s ++ new ++ Py.replace old new (skipn (i + length old) s).
Proof.
  induction s as [|c s IH]; intros i Hne Hf.
  - destruct old; [discriminate|]. simpl in Hf. discriminate.
  - cbn [Py.find_sub] in Hf. unfold Py.replace at 1. cbn [Py.replace_from].
    destruct (Py.startswith old (c :: s)) eqn:E.
    + injection Hf as <-. cbn [firstn app Nat.add].
      rewrite replace_from_skip. destruct old as [|o old']; [discriminate|].
      cbn [length Nat.sub skipn]. now rewrite Nat.sub_0_r.
    + destruct (Py.find_sub old s) as [j|] eqn:Ej; [|discriminate].
      injection Hf as <-. cbn [firstn app Nat.add skipn].
      f_equal. apply (IH j Hne eq_refl).
Qed.

(** With a replacement no longer than the text it replaces the result
    is no longer than the string, and it is shorter when the
    replacement is shorter and the text occurs. *)
Lemma replace_from_length (old new : str) (s : str) : forall k,
  length new <= length old ->
  length (Py.replace_from old new k s) + Nat.min k (length s) <= length s.
Proof.
  induction s as [|c s IH]; intros k Hlen; [simpl; lia|].
  destruct k as [|k]; cbn [Py.replace_from].
  - destruct (Py.startswith old (c :: s)) eqn:E.
    + apply startswith_length in E. simpl in E.
      specialize (IH (length old - 1) Hlen). rewrite length_app. simpl. lia.
    + specialize (IH 0 Hlen). simpl. simpl in IH. lia.
  - specialize (IH k Hlen). simpl. lia.
Qed.

Lemma replace_length (old new s : str) :
  length new <= length old -> length (Py.replace old new s) <= length s.
Proof.
  intros H. pose proof (replace_from_length old new s 0 H). unfold Py.replace. lia.
Qed.

Lemma replace_shorter (old new s : str) :
  length new < length old -> Py.contains old s = true ->
  length (Py.replace old new s) < length s.
Proof.
  intros Hlen. unfold Py.replace. induction s as [|c s IH].
  - simpl. destruct old; simpl in *; [lia | discriminate].
  - rewrite contains_cons. cbn [Py.replace_from].
    destruct (Py.startswith old (c :: s)) eqn:E; simpl orb.
    + intros _. apply startswith_length in E. simpl in E.
      pose proof (replace_from_length old new s (length old - 1) ltac:(lia)).
      rewrite length_app. simpl. lia.
    + intros H. specialize (IH H). simpl. lia.
Qed.

(** A word that holds one of the two placeholder texts does not come out
    of [postprocess_args] as it went in. *)
Lemma postprocess_arg_changes (t : str) :
  Py.contains SINGLE_QUOTE t || Py.contains DOUBLE_QUOTE t = true ->
  postprocess_arg t <> t.
Proof.
  intros H Heq. apply (f_equal (@length ascii)) in Heq. unfold postprocess_arg in Heq.
  pose proof (replace_length DOUBLE_QUOTE [dquote]
                (Py.replace SINGLE_QUOTE [squote] t) ltac:(simpl; lia)) as H1.
  destruct (Py.contains SINGLE_QUOTE t) eqn:E.
  - pose proof (replace_shorter SINGLE_QUOTE [squote] t ltac:(simpl; lia) E). lia.
  - simpl in H. rewrite (replace_absent _ _ _ E) in Heq.
    pose proof (replace_shorter DOUBLE_QUOTE [dquote] t ltac:(simpl; lia) H). lia.
Qed.

(** Without a backslash before a quote the first pass changes nothing. *)
Lemma preprocess_command_id (cmd : str) :
  Py.contains [backslash; squote] cmd = false ->
  Py.contains [backslash; dquote] cmd = false ->
  preprocess_command cmd = cmd.
Proof.
  intros H1 H2. unfold preprocess_command.
  rewrite (replace_absent _ _ _ H1). now apply replace_absent.
Qed.

(** C10 (as amended).  On a line without a backslash before a quote, the
    words that [custom_split_command] returns are the words of the lexer
    after two passes: first every occurrence of [__SINGLE_QUOTE__], found
    from the left, becomes one single quote, then in the text so obtained
    every occurrence of [__DOUBLE_QUOTE__] becomes one double quote.  So a
    word of the line that held either text is not returned as it was
    written; its leftmost [__SINGLE_QUOTE__] is rewritten, and so is the
    leftmost [__DOUBLE_QUOTE__] that the first pass has left, which is the
    one of the word itself when the word holds no [__SINGLE_QUOTE__]. *)
Theorem placeholder_text_rewritten (cmd : str) (ts : list str) (w : world) :
  Py.contains [backslash; squote] cmd = false ->
  Py.contains [backslash; dquote] cmd = false ->
  Shlex.lex "#" cmd = inr ts ->
  custom_split_command cmd w = (Ret (map postprocess_arg ts, true), w)
  /\ forall k t, nth_error ts k = Some t ->
       nth_error (map postprocess_arg ts) k = Some (postprocess_arg t)
       /\ postprocess_arg t
          = Py.replace DOUBLE_QUOTE [dquote] (Py.replace SINGLE_QUOTE [squote] t)
       /\ (Py.contains SINGLE_QUOTE t || Py.contains DOUBLE_QUOTE t = true ->
           postprocess_arg t <> t)
       /\ (forall i, Py.find_sub SINGLE_QUOTE t = Some i ->
             Py.replace SINGLE_QUOTE [squote] t
             = firstn i t ++ [squote]
               ++ Py.replace SINGLE_QUOTE [squote] (skipn (i + length SINGLE_QUOTE) t))
       /\ (forall i,
             Py.find_sub DOUBLE_QUOTE (Py.replace SINGLE_QUOTE [squote] t) = Some i ->
             postprocess_arg t
             = firstn i (Py.replace SINGLE_QUOTE [squote] t) ++ [dquote]
               ++ Py.replace DOUBLE_QUOTE [dquote]
                    (skipn (i + length DOUBLE_QUOTE)
                       (Py.replace SINGLE_QUOTE [squote] t)))
       /\ (Py.contains SINGLE_QUOTE t = false ->
           forall i, Py.find_sub DOUBLE_QUOTE t = Some i ->
             postprocess_arg t
             = firstn i t ++ [dquote]
               ++ Py.replace DOUBLE_QUOTE [dquote] (skipn (i + length DOUBLE_QUOTE) t)).
Proof.
  intros H1 H2 Hlex. split.
  - unfold custom_split_command. rewrite (preprocess_command_id _ H1 H2), Hlex.
    reflexivity.
  - intros k t Hk. repeat match goal with |- _ /\ _ => split end.
    + rewrite nth_error_map, Hk. reflexivity.
    + reflexivity.
    + apply postprocess_arg_changes.
    + intros i. now apply replace_first_occurrence.
    + intros i. unfold postprocess_arg. now apply replace_first_occurrence.
    + intros Hs i Hi. unfold postprocess_arg. rewrite (replace_absent _ _ _ Hs).
      now apply replace_first_occurrence.
Qed.

End Placeholders.

(** The line [echo it__SINGLE_QUOTE__s __DOUBLE_QUOTE__]: its second word
    comes out as [it's] and its third as one double quote. *)
Lemma placeholder_text_rewritten_witness :
  custom_split_command "echo it__SINGLE_QUOTE__s __DOUBLE_QUOTE__" (initial_world ∅ "/")
  = (Ret (map postprocess_arg (strs ["echo"; "it__SINGLE_QUOTE__s"; "__DOUBLE_QUOTE__"]),
          true), initial_world ∅ "/").
Proof.
  apply (placeholder_text_rewritten "echo it__SINGLE_QUOTE__s __DOUBLE_QUOTE__"
           (strs ["echo"; "it__SINGLE_QUOTE__s"; "__DOUBLE_QUOTE__"])
           (initial_world ∅ "/")); reflexivity.
Defined.

Example placeholder_words :
  map postprocess_arg (strs ["echo"; "it__SINGLE_QUOTE__s"; "__DOUBLE_QUOTE__"])
  = ["echo" : str; "it's" : str; [dquote]].
Proof. reflexivity. Qed.

(** C10, as it is stated, fails on the line
    [echo __DOUBLE_QUOTE__SINGLE_QUOTE__]: it holds [__DOUBLE_QUOTE__] and no
    escaped quote, but the first pass takes [__SINGLE_QUOTE__] out of it,
    after which [__DOUBLE_QUOTE__] is no longer there: the word comes out
    without a double quote. *)
Lemma overlapping_placeholder_not_rewritten :
  Py.contains DOUBLE_QUOTE "echo __DOUBLE_QUOTE__SINGLE_QUOTE__" = true
  /\ Py.contains [backslash; squote] "echo __DOUBLE_QUOTE__SINGLE_QUOTE__" = false
  /\ Py.contains [backslash; dquote] "echo __DOUBLE_QUOTE__SINGLE_QUOTE__" = false
  /\ custom_split_command "echo __DOUBLE_QUOTE__SINGLE_QUOTE__" (initial_world ∅ "/")
     = (Ret (["echo" : str; "__DOUBLE_QUOTE'" : str], true), initial_world ∅ "/")
  /\ Py.char_in dquote "__DOUBLE_QUOTE'" = false.
Proof. repeat match goal with |- _ /\ _ => split end; reflexivity. Qed.

(** ** Relations that a computation preserves *)

Section Frame.

Variable R : world -> world -> Prop.
Hypothesis R_refl : forall w, R w w.
Hypothesis R_trans : forall w1 w2 w3, R w1 w2 -> R w2 w3 -> R w1 w3.

Lemma preserves_ret {A} (a : A) : preserves R (ret a).
Proof using R_refl R_trans. intros w. apply R_refl. Qed.

Lemma preserves_raise {A} k msg : preserves R (@raise A k msg).
Proof using R_refl R_trans. intros w. apply R_refl. Qed.

Lemma preserves_sys_exit {A} c : preserves R (@sys_exit A c).
Proof using R_refl R_trans. intros w. apply R_refl. Qed.

Lemma preserves_get {A} (f : world -> A) : preserves R (get f).
Proof using R_refl R_trans. intros w. apply R_refl. Qed.

Lemma preserves_modify (f : world -> world) :
  (forall w, R w (f w)) -> preserves R (modify f).
Proof using R_refl R_trans. intros H w. apply H. Qed.

Lemma preserves_bind {A B} (m : M A) (k : A -> M B) :
  preserves R m -> (forall a, preserves R (k a)) -> preserves R (bind m k).
Proof using R_refl R_trans.
  intros Hm Hk w. unfold bind. specialize (Hm w).
  destruct (m w) as [[a | e | c | f args] w1]; simpl in *; auto.
  eapply R_trans; [exact Hm | apply Hk].
Qed.

Lemma preserves_try_except {A} (m : M A) catches (h : exn -> M A) :
  preserves R m -> (forall e, preserves R (h e)) -> preserves R (try_except m catches h).
Proof using R_refl R_trans.
  intros Hm Hh w. unfold try_except. specialize (Hm w).
  destruct (m w) as [[a | e | c | f args] w1]; simpl in *; auto.
  destruct (catches (kind e)); simpl; auto.
  eapply R_trans; [exact Hm | apply Hh].
Qed.

Lemma preserves_raise_exn {A} e : preserves R (@raise_exn A e).
Proof using R_refl R_trans. intros w. apply R_refl. Qed.

Lemma preserves_replaced {A} f a : preserves R (@replaced A f a).
Proof using R_refl R_trans. intros w. apply R_refl. Qed.

End Frame.

(** Splits a goal [preserves R m] along the structure of [m]; what is left
    are the updates of the world, one goal each. *)
Ltac frame_step refl trans :=
  lazymatch goal with
  | |- preserves _ (ret _) => apply (preserves_ret _ refl trans)
  | |- preserves _ (raise _ _) => apply (preserves_raise _ refl trans)
  | |- preserves _ (raise_exn _) => apply (preserves_raise_exn _ refl trans)
  | |- preserves _ (replaced _ _) => apply (preserves_replaced _ refl trans)
  | |- preserves _ (sys_exit _) => apply (preserves_sys_exit _ refl trans)
  | |- preserves _ (get _) => apply (preserves_get _ refl trans)
  | |- preserves _ (bind _ _) => apply (preserves_bind _ refl trans); [| intros ?]
  | |- preserves _ (try_except _ _ _) =>
      apply (preserves_try_except _ refl trans); [| intros ?]
  | |- preserves _ (modify _) => apply (preserves_modify _ refl trans); intros ?
  | |- preserves _ (if ?b then _ else _) => destruct b
  | |- preserves _ (match ?x with _ => _ end) => destruct x
  end.
Ltac frame refl trans := repeat frame_step refl trans.

Section FrameInstances.

Lemma closes_nothing_refl w : closes_nothing w w.
Proof.
  split; [|set_solver]. exists []. now rewrite app_nil_r.
Qed.

Lemma closes_nothing_trans w1 w2 w3 :
  closes_nothing w1 w2 -> closes_nothing w2 w3 -> closes_nothing w1 w3.
Proof.
  intros [(e1 & T1 & F1) S1] [(e2 & T2 & F2) S2]. split; [|set_solver].
  exists (e1 ++ e2). rewrite T2, T1, <- app_assoc, forallb_app, F1, F2. auto.
Qed.

Lemma same_shell_state_refl w : same_shell_state w w.
Proof. now split. Qed.

Lemma same_shell_state_trans w1 w2 w3 :
  same_shell_state w1 w2 -> same_shell_state w2 w3 -> same_shell_state w1 w3.
Proof. intros [A1 B1] [A2 B2]. split; congruence. Qed.

Lemma same_oldpwd_refl w : same_oldpwd w w.
Proof. reflexivity. Qed.

Lemma same_oldpwd_trans w1 w2 w3 :
  same_oldpwd w1 w2 -> same_oldpwd w2 w3 -> same_oldpwd w1 w3.
Proof. unfold same_oldpwd. congruence. Qed.

End FrameInstances.

(** ** The child of a pipeline stage *)

Section PipelineChild.

Variable os : OS.

Lemma closes_nothing_log (e : event) (w : world) :
  is_close e = false -> closes_nothing w (log e w).
Proof.
  intros H. split; [|set_solver]. exists [e]. simpl. now rewrite H.
Qed.

Lemma closes_nothing_quiet (f : world -> world) (w : world) :
  trace (f w) = trace w -> open_fds w ⊆ open_fds (f w) -> closes_nothing w (f w).
Proof.
  intros Ht Hs. split; [|exact Hs]. exists []. now rewrite Ht, app_nil_r.
Qed.

Ltac closes_nothing_update :=
  first [ apply closes_nothing_log; reflexivity
        | apply closes_nothing_quiet; [reflexivity | simpl; set_solver] ].

(** The launcher without capture closes no descriptor. *)
Lemma execute_external_command_closes_nothing (args : list str) :
  preserves closes_nothing (execute_external_command os args false).
Proof.
  unfold execute_external_command, expand_path_in_args, item, getenv, eprint,
    setpgid_tolerant, os_setpgid, os_execvp, os_fork, os_waitpid.
  frame closes_nothing_refl closes_nothing_trans; closes_nothing_update.
Qed.

(** After [os.fork] has returned 0 the child of a stage issues no
    [os.close] at all, and every descriptor it inherited is still open
    when it ends, whether it exits or its image is replaced. *)
Lemma pipeline_child_closes_nothing (num_commands : nat)
    (pipe_fds : list (nat * nat)) (i : nat) (args : list str) :
  preserves closes_nothing (pipeline_child os num_commands pipe_fds i args).
Proof.
  unfold pipeline_child, when.
  apply (preserves_bind _ closes_nothing_refl closes_nothing_trans);
    [|intros _; apply (preserves_bind _ closes_nothing_refl closes_nothing_trans);
      [|intros _; apply (preserves_bind _ closes_nothing_refl closes_nothing_trans);
        [apply execute_external_command_closes_nothing|intros _]]];
    unfold item, os_dup2;
    frame closes_nothing_refl closes_nothing_trans; closes_nothing_update.
Qed.

Lemma same_shell_state_update (f : world -> world) (w : world) :
  environ (f w) = environ w -> logical_pwd (f w) = logical_pwd w ->
  same_shell_state w (f w).
Proof. now split. Qed.

Lemma execute_external_command_same_shell_state (args : list str) :
  preserves same_shell_state (execute_external_command os args false).
Proof.
  unfold execute_external_command, expand_path_in_args, item, getenv, eprint,
    setpgid_tolerant, os_setpgid, os_execvp, os_fork, os_waitpid.
  frame same_shell_state_refl same_shell_state_trans;
    apply same_shell_state_update; reflexivity.
Qed.

(** Whatever the stage names, its child leaves the environment and the
    logical working directory as they were: no [var], no [cd]. *)
Lemma pipeline_child_same_shell_state (num_commands : nat)
    (pipe_fds : list (nat * nat)) (i : nat) (args : list str) :
  preserves same_shell_state (pipeline_child os num_commands pipe_fds i args).
Proof.
  unfold pipeline_child, when.
  apply (preserves_bind _ same_shell_state_refl same_shell_state_trans);
    [|intros _; apply (preserves_bind _ same_shell_state_refl same_shell_state_trans);
      [|intros _; apply (preserves_bind _ same_shell_state_refl same_shell_state_trans);
        [apply execute_external_command_same_shell_state|intros _]]];
    unfold item, os_dup2;
    frame same_shell_state_refl same_shell_state_trans;
    apply same_shell_state_update; reflexivity.
Qed.

End PipelineChild.

(** C1.  The code does not do what the claim says: the child of a stage
    closes nothing.  For every stage its trace grows by no [os.close] and
    its descriptors stay open; in the pipeline [a | b | c] the child of the
    first stage rebinds standard output to descriptor 4 and reaches
    [os.execvp], or waits for the launcher's child and exits, with the read
    end 3 of its own pipe and both ends 5 and 6 of the other pipe open. *)
Theorem pipeline_child_closes_no_descriptor :
  (forall os num_commands pipe_fds i args,
      preserves closes_nothing (pipeline_child os num_commands pipe_fds i args))
  /\ fst first_stage_exec_side = Replaced "a" [("a" : str)]
  /\ trace (snd first_stage_exec_side)
     = [EvPipe 3 4; EvPipe 5 6; EvFork 0; EvDup2 4 1; EvFork 0; EvSetpgid;
        EvExecvp "a" [("a" : str)]]
  /\ open_fds (snd first_stage_exec_side) = list_to_set [0; 1; 2; 3; 4; 5; 6]
  /\ fst first_stage_wait_side = SysExit 0
  /\ trace (snd first_stage_wait_side)
     = [EvPipe 3 4; EvPipe 5 6; EvFork 0; EvDup2 4 1; EvFork 9; EvWaitpid 9]
  /\ open_fds (snd first_stage_wait_side) = list_to_set [0; 1; 2; 3; 4; 5; 6].
Proof.
  split; [exact pipeline_child_closes_nothing|].
  repeat match goal with |- _ /\ _ => split end; vm_compute; reflexivity.
Qed.

(** C4.  The code does not do what the claim says: the child of a stage
    hands its words to the launcher whatever the first word is.  No stage
    changes the environment or the logical working directory of its
    process; [exit 3] as a stage is searched on [PATH], not found, and the
    child exits with 0, where the same line without a pipe ends the
    interpreter with 3; [cd /tmp] as a stage leaves the directory alone;
    [pwd] as a stage runs the program [/bin/pwd]. *)
Theorem pipeline_stage_builtin_not_dispatched :
  (forall os num_commands pipe_fds i args,
      preserves same_shell_state (pipeline_child os num_commands pipe_fds i args))
  /\ fst exit_stage_child = SysExit 0
  /\ stderr (snd exit_stage_child) = "mysh: command not found: exit" ++ [newline]
  /\ fst (run_command (plain_os 0) split_by_pipe_op_spec "exit 3" (initial_world ∅ "/"))
     = SysExit 3
  /\ fst cd_stage_child = SysExit 0
  /\ stderr (snd cd_stage_child) = "mysh: command not found: cd" ++ [newline]
  /\ logical_pwd (snd cd_stage_child) = "/"
  /\ logical_pwd (snd (run_command (plain_os 0) split_by_pipe_op_spec "cd /tmp"
                                   (initial_world ∅ "/"))) = "/tmp"
  /\ fst pwd_stage_child = Replaced "pwd" [("pwd" : str)]
  /\ stdout (snd pwd_stage_child) = [].
Proof.
  split; [exact pipeline_child_same_shell_state|].
  repeat match goal with |- _ /\ _ => split end; vm_compute; reflexivity.
Qed.

(** ** The [cd] built-in *)

Section CdBuiltin.

Variable os : OS.

Lemma same_oldpwd_quiet (f : world -> world) (w : world) :
  environ (f w) = environ w -> same_oldpwd w (f w).
Proof. unfold same_oldpwd. now intros ->. Qed.

Lemma same_oldpwd_set_pwd (v : str) (w : world) :
  same_oldpwd w (set_environ (fun e => <[("PWD" : str) := v]> e) w).
Proof.
  unfold same_oldpwd. simpl. apply lookup_insert_ne. discriminate.
Qed.

(** No path through [handle_cd_command] writes the entry [OLDPWD]. *)
Lemma handle_cd_command_same_oldpwd (args : list str) :
  preserves same_oldpwd (handle_cd_command os args).
Proof.
  unfold handle_cd_command, item, environ_item, getenv, print, eprint,
    os_chdir, environ_set.
  frame same_oldpwd_refl same_oldpwd_trans;
    first [ apply same_oldpwd_set_pwd | apply same_oldpwd_quiet; reflexivity ].
Qed.

End CdBuiltin.

(** C3.  The code does not do what the claim says: [cd] writes [PWD]
    and never [OLDPWD].  After [cd /tmp], [cd /] and [cd -] the logical
    working directory is [/], the directory the last [cd] started from,
    when no [OLDPWD] was inherited, and it is the inherited value when one
    was; the entry [OLDPWD] is in both cases what it was at the start. *)
Theorem cd_dash_ignores_previous_directory :
  (forall os args, preserves same_oldpwd (handle_cd_command os args))
  /\ fst cd_session = Ret tt
  /\ logical_pwd (snd cd_session) = "/"
  /\ environ (snd cd_session) !! ("OLDPWD" : str) = None
  /\ environ (snd cd_session) !! ("PWD" : str) = Some ("/" : str)
  /\ stdout (snd cd_session) = "/" ++ [newline]
  /\ fst cd_session_inherited = Ret tt
  /\ logical_pwd (snd cd_session_inherited) = "/var"
  /\ environ (snd cd_session_inherited) !! ("OLDPWD" : str) = Some ("/var" : str).
Proof.
  split; [exact handle_cd_command_same_oldpwd|].
  repeat match goal with |- _ /\ _ => split end; vm_compute; reflexivity.
Qed.

(** C5.  The code does not do what the claim says when the parent fails
    between two forks.  With an unterminated quote in the second stage
    [shlex.split] raises after the first child has been forked, and with
    a failing second [os.fork] the call raises: in both cases the
    exception leaves [execute_pipeline] and the trace of the parent ends
    without any [os.waitpid] for the child with pid 7. *)
Theorem forked_child_not_reaped_after_failure :
  fst unterminated_second_stage = Raise no_closing_quotation
  /\ trace (snd unterminated_second_stage) = [EvPipe 3 4; EvFork 7; EvClose 4]
  /\ filter is_waitpid (trace (snd unterminated_second_stage)) = []
  /\ kind_of_failure (fst failed_second_fork) = Some OSError
  /\ trace (snd failed_second_fork) = [EvPipe 3 4; EvFork 7; EvClose 4]
  /\ filter is_waitpid (trace (snd failed_second_fork)) = [].
Proof.
  repeat match goal with |- _ /\ _ => split end; vm_compute; reflexivity.
Qed.

(** C2.  The code does not do what the claim says: a line that does not
    invoke [exit] can end the loop with an exception.  A pipeline whose
    second stage has an unterminated quote raises [ValueError] out of
    [run_command], for every segmenter that cuts the line at its pipe;
    [var -s] raises [IndexError] in every state of the interpreter, and
    [cd] without [HOME] raises [KeyError]; in these sessions only the
    first prompt has been written and the line [pwd] is never read.  The
    same quote on a line without a pipe is reported and the loop goes
    on. *)
Theorem line_without_exit_ends_interpreter :
  (forall split_by_pipe_op rest,
      split_by_pipe_op pipeline_unterminated = ["cat " : str; wc_unterminated] ->
      fst (run_shell_loop (plain_os 7) split_by_pipe_op (pipeline_unterminated :: rest)
                          (initial_world ∅ "/"))
      = Raise no_closing_quotation)
  /\ split_by_pipe_op_spec pipeline_unterminated = ["cat " : str; wc_unterminated]
  /\ fst (session pipeline_unterminated) = Raise no_closing_quotation
  /\ stdout (snd (session pipeline_unterminated)) = prompt
  /\ (forall os split_by_pipe_op rest w,
         fst (run_shell_loop os split_by_pipe_op (("var -s" : str) :: rest) w)
         = Raise list_index_out_of_range)
  /\ stdout (snd (session "var -s")) = prompt
  /\ kind_of_failure (fst (session "cd")) = Some KeyError
  /\ fst (session echo_unterminated) = Ret tt
  /\ stderr (snd (session echo_unterminated))
     = "mysh: syntax error: unterminated quote" ++ [newline]
  /\ stdout (snd (session echo_unterminated))
     = prompt ++ prompt ++ "/" ++ [newline] ++ prompt ++ [newline].
Proof.
  split.
  - intros split_by_pipe_op rest Hsplit.
    cbn [run_shell_loop]. unfold run_command at 1.
    change (Py.char_in "|"%char pipeline_unterminated) with true. cbv iota.
    rewrite Hsplit. vm_compute. reflexivity.
  - repeat match goal with |- _ /\ _ => split end; intros; vm_compute; reflexivity.
Qed.

(** ** The parent of a pipeline *)

Section PipelineParent.

Variable os : OS.

Lemma bind_ret_inv {A B} (m : M A) (k : A -> M B) (w w' : world) (b : B) :
  bind m k w = (Ret b, w') ->
  exists a w1, m w = (Ret a, w1) /\ k a w1 = (Ret b, w').
Proof.
  unfold bind. destruct (m w) as [[a | e | c | f args] w1]; try discriminate.
  intros H. now exists a, w1.
Qed.

Lemma bind_never_returns {A B} (m : M A) (k : A -> M B) (w : world) :
  (forall a w1 b, fst (k a w1) <> Ret b) -> forall b, fst (bind m k w) <> Ret b.
Proof.
  intros Hk b. unfold bind.
  destruct (m w) as [[a | e | c | f args] w1]; simpl; try discriminate. apply Hk.
Qed.

(** The child of a stage does not come back into the loop: it ends with
    [sys.exit], an exception, or a replaced image. *)
Lemma pipeline_child_never_returns num_commands pipe_fds i args w pids :
  fst (pipeline_child os num_commands pipe_fds i args w) <> Ret pids.
Proof.
  unfold pipeline_child.
  apply bind_never_returns. intros _ w1 b1.
  apply bind_never_returns. intros _ w2 b2.
  apply bind_never_returns. intros _ w3 b3. discriminate.
Qed.

Lemma same_children_refl w : same_children w w.
Proof. now split. Qed.

Lemma same_children_trans w1 w2 w3 :
  same_children w1 w2 -> same_children w2 w3 -> same_children w1 w3.
Proof. intros [A1 B1] [A2 B2]. split; congruence. Qed.

Lemma same_children_quiet (f : world -> world) (w : world) :
  trace (f w) = trace w -> same_children w (f w).
Proof. intros H. unfold same_children. now rewrite H. Qed.

Lemma same_children_log (e : event) (w : world) :
  forked_pid e = [] -> waited_pid e = [] -> same_children w (log e w).
Proof.
  intros Hf Hw. unfold same_children, children, reaped. simpl.
  rewrite !flat_map_app. simpl. now rewrite Hf, Hw, !app_nil_r.
Qed.

Ltac same_children_update :=
  first [ apply same_children_log; reflexivity
        | apply same_children_quiet; reflexivity ].

Lemma create_pipes_same_children (n : nat) : forall pipe_fds,
  preserves same_children (create_pipes os n pipe_fds).
Proof.
  induction n as [|n IH]; intros pipe_fds; cbn [create_pipes].
  - apply (preserves_ret _ same_children_refl same_children_trans).
  - apply (preserves_bind _ same_children_refl same_children_trans); [|intros p; apply IH].
    unfold os_pipe. frame same_children_refl same_children_trans; same_children_update.
Qed.

Lemma pipeline_parent_same_children num_commands pipe_fds i :
  preserves same_children (pipeline_parent num_commands pipe_fds i).
Proof.
  unfold pipeline_parent, when, item, os_close.
  frame same_children_refl same_children_trans; same_children_update.
Qed.

Lemma close_pipes_same_children (pipe_fds : list (nat * nat)) :
  preserves same_children (close_pipes pipe_fds).
Proof.
  induction pipe_fds as [|[r w] rest IH]; cbn [close_pipes].
  - apply (preserves_ret _ same_children_refl same_children_trans).
  - apply (preserves_bind _ same_children_refl same_children_trans); [|intros _; exact IH].
    unfold os_close. frame same_children_refl same_children_trans; same_children_update.
Qed.

(** [os.fork], when it returns, has added the pid to the children if it
    is positive. *)
Lemma os_fork_returns (w w1 : world) (pid : Z) :
  os_fork os w = (Ret pid, w1) ->
  fork_result os (forks w) = Some pid
  /\ children (trace w1) = children (trace w) ++ forked_pid (EvFork pid)
  /\ reaped (trace w1) = reaped (trace w)
  /\ forks w1 = S (forks w).
Proof.
  unfold os_fork, bind, get, modify, ret, raise.
  destruct (fork_result os (forks w)) as [p|]; [|discriminate].
  intros [= <- <-]. unfold children, reaped. simpl.
  rewrite !flat_map_app. simpl. now rewrite !app_nil_r.
Qed.

(** When the loop over the stages returns, [pids] holds the children
    forked so far, no child has been waited for, and a loop whose forks
    all returned a positive pid has added one pid for each stage. *)
Lemma fork_stages_returns (commands : list str) :
  forall num_commands pipe_fds i pids w pids' w',
  fork_stages os num_commands pipe_fds i commands pids w = (Ret pids', w') ->
  exists new,
    pids' = pids ++ new
    /\ children (trace w') = children (trace w) ++ new
    /\ reaped (trace w') = reaped (trace w)
    /\ ((forall n p, fork_result os n = Some p -> (0 < p)%Z) ->
        length new = length commands).
Proof.
  induction commands as [|cmd rest IH]; intros num_commands pipe_fds i pids w pids' w' H.
  - cbn [fork_stages] in H. unfold ret in H. injection H as <- <-.
    exists []. now rewrite !app_nil_r.
  - cbn [fork_stages] in H.
    apply bind_ret_inv in H as (args & w1 & Hsplit & H).
    assert (w1 = w) as ->.
    { unfold shlex_split in Hsplit. destruct (Shlex.split cmd); [discriminate|].
      unfold ret in Hsplit. congruence. }
    apply bind_ret_inv in H as (pid & w2 & Hfork & H).
    apply os_fork_returns in Hfork as (Hres & Hch & Hre & _).
    destruct (pid =? 0)%Z eqn:E0.
    { exfalso. eapply pipeline_child_never_returns. rewrite H. reflexivity. }
    destruct (0 <? pid)%Z eqn:Epos.
    + apply bind_ret_inv in H as ([] & w3 & Hparent & H).
      pose proof (pipeline_parent_same_children num_commands pipe_fds i w2) as [Hc3 Hr3].
      rewrite Hparent in Hc3, Hr3. simpl in Hc3, Hr3.
      apply IH in H as (new & -> & Hch' & Hre' & Hlen).
      exists (pid :: new). rewrite <- app_assoc. split; [reflexivity|].
      rewrite Hch', Hre', Hc3, Hr3, Hch, Hre. simpl. rewrite Epos, <- app_assoc.
      split; [reflexivity|]. split; [reflexivity|].
      intros Hall. simpl. now rewrite Hlen.
    + unfold eprint, modify, bind, ret in H. injection H as <- <-.
      exists []. rewrite !app_nil_r. simpl. rewrite Hch, Hre. simpl.
      rewrite Epos, app_nil_r. repeat split; auto.
      intros Hall. apply Hall in Hres. apply Z.ltb_ge in Epos. lia.
Qed.

(** The last loop waits once for each pid of [pids], in order. *)
Lemma wait_all_returns (pids : list Z) : forall w,
  exists w', wait_all pids w = (Ret tt, w')
    /\ reaped (trace w') = reaped (trace w) ++ pids
    /\ children (trace w') = children (trace w).
Proof.
  induction pids as [|pid rest IH]; intros w; cbn [wait_all].
  - exists w. now rewrite app_nil_r.
  - unfold os_waitpid, modify, bind.
    destruct (IH (log (EvWaitpid pid) w)) as (w' & -> & Hr & Hc).
    exists w'. split; [reflexivity|]. rewrite Hr, Hc. unfold reaped, children. simpl.
    rewrite !flat_map_app. simpl. now rewrite <- app_assoc, app_nil_r.
Qed.

(** The part of C5 that the code keeps.  Whenever [execute_pipeline]
    returns to its caller, the parent has waited exactly once, in the
    order of the forks, for each child it has forked; and when every
    [os.fork] gave a positive pid these are as many children as there
    are stages. *)
Lemma children_reaped_on_return (commands : list str) (w w' : world) :
  execute_pipeline os commands w = (Ret tt, w') ->
  exists pids,
    children (trace w') = children (trace w) ++ pids
    /\ reaped (trace w') = reaped (trace w) ++ pids
    /\ ((forall n p, fork_result os n = Some p -> (0 < p)%Z) ->
        length pids = length commands).
Proof.
  unfold execute_pipeline. intros H.
  apply bind_ret_inv in H as (pipe_fds & w1 & Hpipes & H).
  apply bind_ret_inv in H as (pids & w2 & Hforks & H).
  apply bind_ret_inv in H as ([] & w3 & Hclose & H).
  pose proof (create_pipes_same_children (length commands - 1) [] w) as [Hc1 Hr1].
  rewrite Hpipes in Hc1, Hr1. simpl in Hc1, Hr1.
  apply fork_stages_returns in Hforks as (new & Hnew & Hc2 & Hr2 & Hlen).
  simpl in Hnew. subst new.
  pose proof (close_pipes_same_children pipe_fds w2) as [Hc3 Hr3].
  rewrite Hclose in Hc3, Hr3. simpl in Hc3, Hr3.
  destruct (wait_all_returns pids w3) as (w4 & Hwait & Hr4 & Hc4).
  rewrite Hwait in H. injection H as <-.
  exists pids. rewrite Hc4, Hr4, Hc3, Hr3, Hc2, Hr2, Hc1, Hr1. auto.
Qed.

End PipelineParent.

(** The pipeline [cat | wc] seen from the parent: two children, each
    waited for once. *)
Example two_stages_reaped :
  fst (execute_pipeline (scripted_os [] [Some 7%Z; Some 8%Z]) (strs ["cat"; "wc"])
                        (initial_world ∅ "/")) = Ret tt
  /\ trace (snd (execute_pipeline (scripted_os [] [Some 7%Z; Some 8%Z])
                                  (strs ["cat"; "wc"]) (initial_world ∅ "/")))
     = [EvPipe 3 4; EvFork 7; EvClose 4; EvFork 8; EvClose 3; EvWaitpid 7; EvWaitpid 8].
Proof. split; vm_compute; reflexivity. Qed.

(** ** The examples of the spec for the tokenizer *)

Example tokenizer_quoting :
  custom_split_command ("echo " ++ [dquote] ++ "a b" ++ [dquote] ++ " 'c d' e")
                       (initial_world ∅ "/")
  = (Ret (strs ["echo"; "a b"; "c d"; "e"], true), initial_world ∅ "/").
Proof. reflexivity. Qed.

Example tokenizer_unterminated_quote :
  custom_split_command echo_unterminated (initial_world ∅ "/")
  = (Ret ([], false),
     write_stderr ("mysh: syntax error: unterminated quote" ++ [newline])
                  (initial_world ∅ "/")).
Proof. reflexivity. Qed.

Example tokenizer_escaped_quote :
  custom_split_command ("echo it\'s \" ++ [dquote]) (initial_world ∅ "/")
  = (Ret (["echo" : str; "it's" : str; [dquote]], true), initial_world ∅ "/").
Proof. reflexivity. Qed.

(** * Further properties of the code *)

(** ** [replace_variables] *)

Section InterpolationInContext.

Lemma not_dollar_no_match (c : ascii) (s : str) :
  Ascii.eqb c "$" = false -> Re.match_here (c :: s) = None.
Proof.
  destruct c as [[] [] [] [] [] [] [] []]; try reflexivity. discriminate.
Qed.

Lemma not_brace_no_match (d : ascii) (s : str) :
  Ascii.eqb d "{" = false -> Re.match_here ("$"%char :: d :: s) = None.
Proof.
  destruct d as [[] [] [] [] [] [] [] []]; try reflexivity. discriminate.
Qed.

Lemma match_here_needs_reference (s : str) :
  Py.startswith "${" s = false -> Re.match_here s = None.
Proof.
  destruct s as [|c s]; [reflexivity|].
  destruct (Ascii.eqb c "$") eqn:Ec; [|intros _; now apply not_dollar_no_match].
  apply Ascii.eqb_eq in Ec as ->. destruct s as [|d s]; [reflexivity|].
  destruct (Ascii.eqb d "{") eqn:Ed; [|intros _; now apply not_brace_no_match].
  apply Ascii.eqb_eq in Ed as ->. discriminate.
Qed.

Lemma finditer_from_absent (s : str) : forall pos,
  Py.contains "${" s = false -> Re.finditer_from pos 0 s = [].
Proof.
  induction s as [|c s IH]; intros pos; [reflexivity|].
  rewrite contains_cons. intros H. apply orb_false_iff in H as [H1 H2].
  rewrite finditer_from_here, (match_here_needs_reference _ H1). now apply IH.
Qed.

Lemma no_dollar_no_reference (s : str) :
  Py.char_in "$"%char s = false -> Py.contains "${" s = false.
Proof.
  induction s as [|c s IH]; [reflexivity|].
  cbn [Py.char_in existsb]. intros H. apply orb_false_iff in H as [Hc Hs].
  rewrite contains_cons. apply orb_false_iff. split; [|now apply IH].
  cbn [list_ascii_of_string Py.startswith]. now rewrite Hc.
Qed.

(** The scan passes over a text without a dollar. *)
Lemma finditer_from_no_dollar (pre s : str) : forall pos,
  Py.char_in "$"%char pre = false ->
  Re.finditer_from pos 0 (pre ++ s) = Re.finditer_from (pos + length pre) 0 s.
Proof.
  induction pre as [|c pre IH]; intros pos H.
  - simpl. now rewrite Nat.add_0_r.
  - cbn [Py.char_in existsb] in H. apply orb_false_iff in H as [Hc Hs].
    cbn [app]. rewrite finditer_from_here.
    rewrite not_dollar_no_match by (now rewrite Ascii.eqb_sym).
    rewrite (IH (S pos) Hs). f_equal. simpl. lia.
Qed.

(** The scan resumes after the characters of a match. *)
Lemma finditer_from_skip (a s : str) : forall pos,
  Re.finditer_from pos (length a) (a ++ s) = Re.finditer_from (pos + length a) 0 s.
Proof.
  induction a as [|c a IH]; intros pos.
  - simpl. now rewrite Nat.add_0_r.
  - cbn [app length Re.finditer_from]. rewrite IH. f_equal. lia.
Qed.

(** The only match in a text that holds one reference and no other dollar. *)
Lemma finditer_one_reference (pre name post : str) :
  Py.char_in "$"%char pre = false ->
  Shlex.is_empty name = false ->
  forallb Re.not_rbrace name = true ->
  Py.char_in "$"%char post = false ->
  Re.finditer (pre ++ reference name ++ post)
  = [{| Re.m_start := length pre;
        Re.m_end := length pre + length name + 3;
        Re.m_group1 := name |}].
Proof.
  intros Hpre Hne Hnb Hpost. unfold Re.finditer, reference.
  rewrite (finditer_from_no_dollar _ _ 0 Hpre). cbn [Nat.add].
  replace (("${" ++ name ++ "}") ++ post)
    with ("$"%char :: "{"%char :: name ++ "}"%char :: post)
    by (cbn [list_ascii_of_string app]; now rewrite <- app_assoc).
  rewrite finditer_from_here, (match_here_reference _ _ Hne Hnb). f_equal.
  replace ("{"%char :: name ++ "}"%char :: post)
    with (("{"%char :: name ++ ["}"%char]) ++ post)
    by (cbn [app]; now rewrite <- app_assoc).
  replace (length name + 2) with (length ("{"%char :: name ++ ["}"%char]))
    by (cbn [length]; rewrite length_app; simpl; lia).
  rewrite finditer_from_skip. apply finditer_from_absent.
  now apply no_dollar_no_reference.
Qed.

Lemma index_last (pre s : str) :
  Py.index (pre ++ s) (length pre - 1)
  = match rev pre with
    | c :: _ => Some c
    | [] => Py.index s 0
    end.
Proof.
  unfold Py.index. destruct (rev pre) as [|c r] eqn:E.
  - apply (f_equal (@rev ascii)) in E. rewrite rev_involutive in E. now subst.
  - apply (f_equal (@rev ascii)) in E. rewrite rev_involutive in E. subst pre.
    simpl rev. rewrite length_app. simpl length.
    replace (length (rev r) + 1 - 1) with (length (rev r)) by lia.
    rewrite <- app_assoc. rewrite nth_error_app2 by lia.
    now rewrite Nat.sub_diag.
Qed.

Lemma slice_prefix (pre s : str) : Py.slice (pre ++ s) 0 (length pre) = pre.
Proof.
  unfold Py.slice. rewrite Nat.sub_0_r. change (skipn 0 (pre ++ s)) with (pre ++ s).
  rewrite firstn_app, Nat.sub_diag, firstn_all. simpl. apply app_nil_r.
Qed.

Lemma slice_middle (pre mid post : str) :
  Py.slice (pre ++ mid ++ post) (length pre) (length pre + length mid) = mid.
Proof.
  unfold Py.slice. rewrite skipn_length_app.
  replace (length pre + length mid - length pre) with (length mid) by lia.
  rewrite firstn_app, Nat.sub_diag, firstn_all. simpl. apply app_nil_r.
Qed.

Lemma skipn_past (a b c : str) (n : nat) :
  n = length a + length b -> skipn n (a ++ b ++ c) = c.
Proof.
  intros ->. rewrite app_assoc, <- length_app. apply skipn_length_app.
Qed.

(** A reference in a text without another dollar, not behind a backslash. *)
Lemma replace_variables_reference (pre name post : str) (w : world) :
  Py.char_in "$"%char pre = false ->
  ends_with_backslash pre = false ->
  is_valid_variable_name name = true ->
  Py.char_in "$"%char post = false ->
  replace_variables (pre ++ reference name ++ post) w
  = (Ret (pre ++ value_of w name ++ post, true), w).
Proof.
  intros Hpre Hbs Hv Hpost. destruct (valid_name_no_rbrace _ Hv) as [Hne Hnb].
  unfold replace_variables. rewrite (finditer_one_reference _ _ _ Hpre Hne Hnb Hpost).
  cbn [replace_matches]. unfold bind at 1. unfold replace.
  assert (Hesc : preceded_by_backslash (pre ++ reference name ++ post)
                   {| Re.m_start := length pre;
                      Re.m_end := length pre + length name + 3;
                      Re.m_group1 := name |} = false).
  { unfold preceded_by_backslash. cbn [Re.m_start]. rewrite index_last.
    unfold ends_with_backslash in Hbs. destruct (rev pre) as [|c r] eqn:E.
    - apply (f_equal (@rev ascii)) in E. rewrite rev_involutive in E. now subst.
    - apply andb_false_iff. right. apply bool_decide_eq_false. intros [= ->].
      discriminate. }
  rewrite Hesc. cbn [Re.m_group1]. rewrite Hv.
  unfold getenv, bind, get, ret. cbn [Re.m_start Re.m_end app].
  rewrite slice_prefix. cbn [concat].
  rewrite (skipn_past pre (reference name) post)
    by (unfold reference; rewrite !length_app; simpl; lia).
  unfold value_of. now rewrite !app_nil_r.
Qed.

(** X3.  A reference behind a backslash, in a text that holds no other
    dollar, comes out without the backslash and is otherwise kept as it
    is written; the name is neither checked nor looked up, and the
    process state is untouched. *)
Theorem escaped_reference_kept (pre name post : str) (w : world) :
  Py.char_in "$"%char pre = false ->
  Shlex.is_empty name = false ->
  forallb Re.not_rbrace name = true ->
  Py.char_in "$"%char post = false ->
  replace_variables (pre ++ [backslash] ++ reference name ++ post) w
  = (Ret (pre ++ reference name ++ post, true), w).
Proof.
  intros Hpre Hne Hnb Hpost. unfold replace_variables.
  rewrite (app_assoc pre [backslash]).
  rewrite (finditer_one_reference (pre ++ [backslash]) _ _) ; auto.
  2:{ unfold Py.char_in. rewrite existsb_app. fold (Py.char_in "$"%char pre).
      now rewrite Hpre. }
  cbn [replace_matches]. unfold bind at 1. unfold replace.
  assert (Hesc : preceded_by_backslash ((pre ++ [backslash]) ++ reference name ++ post)
                   {| Re.m_start := length (pre ++ [backslash]);
                      Re.m_end := length (pre ++ [backslash]) + length name + 3;
                      Re.m_group1 := name |} = true).
  { unfold preceded_by_backslash. cbn [Re.m_start]. rewrite index_last, rev_app_distr.
    simpl. rewrite length_app. simpl.
    replace (length pre + 1) with (S (length pre)) by lia. reflexivity. }
  rewrite Hesc. unfold ret at 1. cbn [Re.m_start Re.m_end replace_matches app].
  unfold ret.
  replace (length (pre ++ [backslash]) - 1) with (length pre)
    by (rewrite length_app; simpl; lia).
  rewrite <- (app_assoc pre [backslash]) at 1. rewrite slice_prefix.
  replace (length (pre ++ [backslash]) + length name + 3)
    with (length (pre ++ [backslash]) + length (reference name))
    by (unfold reference; rewrite !length_app; simpl; lia).
  rewrite slice_middle. cbn [concat].
  rewrite (skipn_past (pre ++ [backslash]) (reference name) post) by reflexivity.
  now rewrite !app_nil_r.
Qed.

(** X2.  A reference to a valid name, in a text that holds no other
    dollar and does not end in a backslash before it, is replaced by the
    value of the name (the empty string when it has none); the text
    around it is kept as it is and the process state is untouched. *)
Theorem reference_replaced_in_context (pre name post : str) (w : world) :
  Py.char_in "$"%char pre = false ->
  ends_with_backslash pre = false ->
  is_valid_variable_name name = true ->
  Py.char_in "$"%char post = false ->
  replace_variables (pre ++ reference name ++ post) w
  = (Ret (pre ++ value_of w name ++ post, true), w).
Proof. exact (replace_variables_reference pre name post w). Qed.

Lemma replace_variables_absent (cmd : str) (w : world) :
  Py.contains "${" cmd = false -> replace_variables cmd w = (Ret (cmd, true), w).
Proof.
  intros H. unfold replace_variables, Re.finditer.
  rewrite (finditer_from_absent _ 0 H). cbn [replace_matches]. unfold ret.
  change (skipn 0 cmd) with cmd. simpl. now rewrite app_nil_r.
Qed.

(** X1.  A string that nowhere holds a dollar followed by an opening
    brace is returned as it is, with the success flag, and the process
    state is untouched. *)
Theorem interpolation_without_reference (cmd : str) (w : world) :
  Py.contains "${" cmd = false -> replace_variables cmd w = (Ret (cmd, true), w).
Proof. exact (replace_variables_absent cmd w). Qed.

Lemma interpolation_outcome (cmd : str) (w : world) :
  exists s ok w',
    replace_variables cmd w = (Ret (s, ok), w')
    /\ (ok = true -> w' = w)
    /\ (ok = false ->
        s = [] /\ exists name, w' = write_stderr (invalid_variable name) w).
Proof.
  destruct (replace_matches_first_rejected cmd (Re.finditer cmd) [] 0 w)
    as (s & ok & w' & E & Hok & Hfail).
  exists s, ok, w'. split; [exact E|]. split.
  - intros H. now destruct (Hok H).
  - intros H. destruct (Hfail H) as (-> & m0 & _ & ->). split; [reflexivity|].
    now exists (Re.m_group1 m0).
Qed.

(** X4.  Interpolation never raises and never touches anything but
    standard error.  It either succeeds, and then every match of the scan
    was escaped or valid and the state is as it was; or it fails, and then
    its result is the empty string, never a part of the rewritten text,
    and it has written one line, which names the first match of the scan
    that is neither escaped nor valid. *)
Theorem interpolation_all_or_nothing (cmd : str) (w : world) :
  exists s ok w',
    replace_variables cmd w = (Ret (s, ok), w')
    /\ (ok = true -> w' = w /\ forallb (passes cmd) (Re.finditer cmd) = true)
    /\ (ok = false ->
        s = []
        /\ exists m0, first_rejected cmd (Re.finditer cmd) m0
             /\ w' = write_stderr (invalid_variable (Re.m_group1 m0)) w).
Proof. apply replace_matches_first_rejected. Qed.

End InterpolationInContext.

(** The text [echo ${HOME}/bin] with [HOME] set. *)
Lemma reference_replaced_in_context_witness :
  replace_variables ("echo " ++ reference "HOME" ++ "/bin")
                    (world_with [("HOME", "/root")])
  = (Ret ("echo /root/bin" : str, true), world_with [("HOME", "/root")]).
Proof.
  apply (reference_replaced_in_context "echo " "HOME" "/bin"
           (world_with [("HOME", "/root")])); reflexivity.
Defined.

(** The text [echo \${1BAD}!]: the name is not a valid one. *)
Lemma escaped_reference_kept_witness :
  replace_variables ("echo " ++ [backslash] ++ reference "1BAD" ++ "!")
                    (world_with [("HOME", "/root")])
  = (Ret ("echo ${1BAD}!" : str, true), world_with [("HOME", "/root")]).
Proof.
  apply (escaped_reference_kept "echo " "1BAD" "!"
           (world_with [("HOME", "/root")])); reflexivity.
Defined.

Lemma interpolation_without_reference_witness :
  replace_variables "echo $HOME {x}" (world_with [("HOME", "/root")])
  = (Ret ("echo $HOME {x}" : str, true), world_with [("HOME", "/root")]).
Proof.
  apply (interpolation_without_reference "echo $HOME {x}"
           (world_with [("HOME", "/root")])); reflexivity.
Defined.

(** ** [custom_split_command] *)

Section Tokenizer.

Lemma plain_step_space (c : ascii) es quoted token rest :
  is_plain c = true ->
  Shlex.tokens "#" Shlex.Space es quoted token false (c :: rest)
  = Shlex.tokens "#" Shlex.Word es quoted [c] false rest.
Proof.
  unfold is_plain. intros H.
  apply andb_prop in H as [H Hh]. apply andb_prop in H as [H He].
  apply andb_prop in H as [Hw Hq].
  apply negb_true_iff in Hw, Hq, He, Hh.
  cbn [Shlex.tokens]. rewrite Hw, He, Hq.
  cbn [list_ascii_of_string Py.char_in existsb]. rewrite Hh. cbn [orb].
  now destruct (Shlex.is_wordchar c).
Qed.

Lemma plain_step_word (c : ascii) es quoted token rest :
  is_plain c = true ->
  Shlex.tokens "#" Shlex.Word es quoted token false (c :: rest)
  = Shlex.tokens "#" Shlex.Word es quoted (token ++ [c]) false rest.
Proof.
  unfold is_plain. intros H.
  apply andb_prop in H as [H Hh]. apply andb_prop in H as [H He].
  apply andb_prop in H as [Hw Hq].
  apply negb_true_iff in Hw, Hq, He, Hh.
  cbn [Shlex.tokens]. rewrite Hw, He, Hq.
  cbn [list_ascii_of_string Py.char_in existsb]. now rewrite Hh.
Qed.

Lemma plain_run (u : str) : forall es quoted token rest,
  forallb is_plain u = true ->
  Shlex.tokens "#" Shlex.Word es quoted token false (u ++ rest)
  = Shlex.tokens "#" Shlex.Word es quoted (token ++ u) false rest.
Proof.
  induction u as [|c u IH]; intros es quoted token rest H.
  - simpl. now rewrite app_nil_r.
  - cbn [forallb] in H. apply andb_prop in H as [Hc Hu].
    cbn [app]. rewrite (plain_step_word _ _ _ _ _ Hc), (IH _ _ _ _ Hu).
    now rewrite <- app_assoc.
Qed.

(** From between two words, a plain word is read whole. *)
Lemma plain_word_read (w : str) es quoted token rest :
  plain_word w = true ->
  Shlex.tokens "#" Shlex.Space es quoted token false (w ++ rest)
  = Shlex.tokens "#" Shlex.Word es quoted w false rest.
Proof.
  unfold plain_word. intros H. apply andb_prop in H as [Hne Hp].
  destruct w as [|c u]; [discriminate|].
  cbn [forallb] in Hp. apply andb_prop in Hp as [Hc Hu].
  cbn [app]. rewrite (plain_step_space _ _ _ _ _ Hc). apply (plain_run u _ _ [c] _ Hu).
Qed.

Lemma space_ends_word (w rest : str) es :
  Shlex.is_empty w = false ->
  Shlex.tokens "#" Shlex.Word es false w false (" "%char :: rest)
  = Shlex.yield w false (Shlex.tokens "#" Shlex.Space Shlex.Space false [] false rest).
Proof.
  intros H. cbn [Shlex.tokens]. change (Py.char_in " " Shlex.whitespace) with true.
  cbv iota. now rewrite H.
Qed.

(** The words of [ws], joined by single spaces and followed by [rest]:
    all but the last have been yielded when the lexer reaches [rest], in
    a word that so far is the last of them. *)
Lemma plain_words_read (ws : list str) : forall (w0 : str) (rest : str),
  forallb plain_word (w0 :: ws) = true ->
  Shlex.tokens "#" Shlex.Space Shlex.Space false [] false
               (Py.join " " (w0 :: ws) ++ rest)
  = yield_all (removelast (w0 :: ws))
      (Shlex.tokens "#" Shlex.Word Shlex.Space false (List.last (w0 :: ws) []) false rest).
Proof.
  induction ws as [|w1 ws IH]; intros w0 rest H.
  - cbn [forallb] in H. apply andb_prop in H as [H0 _].
    cbn [Py.join removelast List.last yield_all fold_right]. now apply plain_word_read.
  - cbn [forallb] in H. apply andb_prop in H as [H0 H1].
    change (Py.join " " (w0 :: w1 :: ws))
      with (w0 ++ " "%char :: Py.join " " (w1 :: ws)).
    rewrite <- app_assoc. rewrite (plain_word_read _ _ _ _ _ H0).
    cbn [app]. rewrite space_ends_word
      by (unfold plain_word in H0; apply andb_prop in H0 as [Hne _];
          now apply negb_true_iff).
    rewrite (IH w1 rest H1). reflexivity.
Qed.

Lemma yield_all_words (ws : list str) (tail : list str) :
  forallb plain_word ws = true -> yield_all ws (inr tail) = inr (ws ++ tail).
Proof.
  induction ws as [|w ws IH]; [reflexivity|].
  cbn [forallb]. intros H. apply andb_prop in H as [Hw Hws].
  cbn [yield_all fold_right]. fold (yield_all ws (inr tail)). rewrite (IH Hws).
  unfold Shlex.yield. unfold plain_word in Hw. apply andb_prop in Hw as [Hne _].
  apply negb_true_iff in Hne. now rewrite Hne.
Qed.

Lemma yield_all_error (ws : list str) (e : str) :
  forallb plain_word ws = true -> yield_all ws (inl e) = inl e.
Proof.
  induction ws as [|w ws IH]; [reflexivity|].
  cbn [forallb]. intros H. apply andb_prop in H as [Hw Hws].
  cbn [yield_all fold_right]. fold (yield_all ws (inl e)). rewrite (IH Hws).
  unfold Shlex.yield. unfold plain_word in Hw. apply andb_prop in Hw as [Hne _].
  apply negb_true_iff in Hne. now rewrite Hne.
Qed.

Lemma forallb_removelast {A} (p : A -> bool) (l : list A) :
  forallb p l = true -> forallb p (removelast l) = true.
Proof.
  induction l as [|a [|b l] IH]; try reflexivity.
  cbn [forallb removelast]. intros H. apply andb_prop in H as [Ha Hl].
  rewrite Ha. now apply IH.
Qed.

(** Joining plain words with single spaces and reading them back. *)
Lemma lex_plain_words (ws : list str) :
  forallb plain_word ws = true -> Shlex.lex "#" (Py.join " " ws) = inr ws.
Proof.
  destruct ws as [|w0 ws]; [reflexivity|]. intros H. unfold Shlex.lex.
  rewrite <- (app_nil_r (Py.join " " (w0 :: ws))), (plain_words_read ws w0 [] H).
  assert (Hlast : Shlex.is_empty (List.last (w0 :: ws) []) = false).
  { assert (Hin : In (List.last (w0 :: ws) []) (w0 :: ws))
      by (destruct (exists_last (l := w0 :: ws) ltac:(discriminate)) as (l' & a & E);
          rewrite E, last_last; apply in_or_app; right; now left).
    rewrite forallb_forall in H. apply H in Hin. unfold plain_word in Hin.
    apply andb_prop in Hin as [Hne _]. now apply negb_true_iff. }
  cbn [Shlex.tokens]. unfold Shlex.yield at 1. rewrite Hlast. cbn [negb andb].
  rewrite yield_all_words by (now apply forallb_removelast).
  f_equal. symmetry. apply app_removelast_last. discriminate.
Qed.

Lemma no_char_no_contains (c : ascii) (x s : str) :
  Py.char_in c s = false -> Py.contains (c :: x) s = false.
Proof.
  induction s as [|d s IH]; [reflexivity|].
  cbn [Py.char_in existsb]. intros H. apply orb_false_iff in H as [Hd Hs].
  rewrite contains_cons. cbn [Py.startswith]. rewrite Hd. now apply IH.
Qed.

Lemma char_in_app (c : ascii) (a b : str) :
  Py.char_in c (a ++ b) = Py.char_in c a || Py.char_in c b.
Proof. apply existsb_app. Qed.

Lemma plain_not_backslash (c : ascii) :
  is_plain c = true -> Ascii.eqb backslash c = false.
Proof. destruct c as [[] [] [] [] [] [] [] []]; vm_compute; congruence. Qed.

Lemma blank_not_backslash (c : ascii) :
  is_blank c = true -> Ascii.eqb backslash c = false.
Proof. destruct c as [[] [] [] [] [] [] [] []]; vm_compute; congruence. Qed.

Lemma no_backslash_of (p : ascii -> bool) (s : str) :
  (forall c, p c = true -> Ascii.eqb backslash c = false) ->
  forallb p s = true -> Py.char_in backslash s = false.
Proof.
  intros Hp. induction s as [|c s IH]; [reflexivity|].
  cbn [forallb Py.char_in existsb]. intros H. apply andb_prop in H as [Hc Hs].
  rewrite (Hp _ Hc). now apply IH.
Qed.

Lemma joined_no_backslash (ws : list str) :
  forallb plain_word ws = true -> Py.char_in backslash (Py.join " " ws) = false.
Proof.
  induction ws as [|w [|w1 ws] IH]; [reflexivity| |].
  - cbn [forallb Py.join]. intros H. apply andb_prop in H as [Hw _].
    unfold plain_word in Hw. apply andb_prop in Hw as [_ Hp].
    apply (no_backslash_of _ _ plain_not_backslash Hp).
  - intros H. cbn [forallb] in H. apply andb_prop in H as [Hw Hrest].
    change (Py.join " " (w :: w1 :: ws)) with (w ++ " "%char :: Py.join " " (w1 :: ws)).
    rewrite char_in_app. unfold plain_word in Hw. apply andb_prop in Hw as [_ Hp].
    rewrite (no_backslash_of _ _ plain_not_backslash Hp).
    cbn [orb Py.char_in existsb]. apply IH. exact Hrest.
Qed.

Lemma postprocess_args_plain (ws : list str) :
  forallb no_placeholder ws = true -> postprocess_args ws = ws.
Proof.
  induction ws as [|w ws IH]; [reflexivity|].
  cbn [forallb]. intros H. apply andb_prop in H as [Hw Hws].
  unfold postprocess_args. cbn [map]. fold (postprocess_args ws). rewrite (IH Hws).
  f_equal. unfold no_placeholder in Hw. apply andb_prop in Hw as [H1 H2].
  apply negb_true_iff in H1, H2. unfold postprocess_arg.
  rewrite (replace_absent _ _ _ H1). now apply replace_absent.
Qed.

Lemma forallb_and {A} (p q : A -> bool) (l : list A) :
  forallb (fun x => p x && q x) l = true ->
  forallb p l = true /\ forallb q l = true.
Proof.
  induction l as [|a l IH]; [now split|].
  cbn [forallb]. intros H. apply andb_prop in H as [Ha Hl].
  apply andb_prop in Ha as [Hp Hq]. destruct (IH Hl) as [H1 H2].
  now rewrite Hp, Hq, H1, H2.
Qed.

Lemma custom_split_command_plain (ws : list str) (w : world) :
  forallb plain_argument ws = true ->
  custom_split_command (Py.join " " ws) w = (Ret (ws, true), w).
Proof.
  intros H. apply forallb_and in H as [Hp Hn].
  unfold custom_split_command.
  rewrite preprocess_command_id
    by (apply no_char_no_contains; now apply joined_no_backslash).
  rewrite (lex_plain_words _ Hp). now rewrite (postprocess_args_plain _ Hn).
Qed.

(** X5.  Words of plain characters (no white space, quote, backslash or
    hash) that hold neither placeholder text, joined by single spaces,
    are tokenized into exactly these words, with the success flag;
    nothing is printed. *)
Theorem plain_words_round_trip (ws : list str) (w : world) :
  forallb plain_argument ws = true ->
  custom_split_command (Py.join " " ws) w = (Ret (ws, true), w).
Proof. exact (custom_split_command_plain ws w). Qed.

Lemma blank_ends_word (c : ascii) (w rest : str) es :
  is_blank c = true -> Shlex.is_empty w = false ->
  Shlex.tokens "#" Shlex.Word es false w false (c :: rest)
  = Shlex.yield w false (Shlex.tokens "#" Shlex.Space Shlex.Space false [] false rest).
Proof.
  unfold is_blank. intros Hc Hw. cbn [Shlex.tokens]. now rewrite Hc, Hw.
Qed.

Lemma blanks_skipped (sp rest : str) es :
  forallb is_blank sp = true ->
  Shlex.tokens "#" Shlex.Space es false [] false (sp ++ rest)
  = Shlex.tokens "#" Shlex.Space es false [] false rest.
Proof.
  induction sp as [|c sp IH]; [reflexivity|].
  cbn [forallb]. intros H. apply andb_prop in H as [Hc Hsp].
  cbn [app Shlex.tokens]. unfold is_blank in Hc. rewrite Hc. cbn. now apply IH.
Qed.

(** Inside a quote, characters other than the quote and the backslash
    are collected until the input ends, which is an error. *)
Lemma quote_never_closed (q : ascii) (body : str) : forall es quoted token,
  forallb (fun c => negb (Ascii.eqb c q) && negb (Ascii.eqb c backslash)) body = true ->
  Shlex.tokens "#" (Shlex.Quote q) es quoted token false body
  = inl Shlex.no_closing_quotation.
Proof.
  induction body as [|c body IH]; intros es quoted token H; [reflexivity|].
  cbn [forallb] in H. apply andb_prop in H as [Hc Hb].
  apply andb_prop in Hc as [Hq Hbs]. apply negb_true_iff in Hq, Hbs.
  cbn [Shlex.tokens]. rewrite Hq.
  replace (Py.char_in c Shlex.escape) with false
    by (unfold Shlex.escape; cbn [Py.char_in existsb]; now rewrite Hbs).
  cbn [andb]. now apply IH.
Qed.

Lemma quote_opens (q : ascii) (body token : str) (st : Shlex.state) :
  Py.char_in q Shlex.quotes = true ->
  (st = Shlex.Space \/ st = Shlex.Word) ->
  Shlex.tokens "#" st Shlex.Space false token false (q :: body)
  = Shlex.tokens "#" (Shlex.Quote q) Shlex.Space false token false body.
Proof.
  intros Hq Hst. unfold Shlex.quotes in Hq. cbn [Py.char_in existsb] in Hq.
  apply orb_true_iff in Hq as [Hq | Hq].
  - apply Ascii.eqb_eq in Hq as ->. destruct Hst as [-> | ->]; reflexivity.
  - apply orb_true_iff in Hq as [Hq | Hq]; [|discriminate].
    apply Ascii.eqb_eq in Hq as ->. destruct Hst as [-> | ->]; reflexivity.
Qed.

Lemma lex_unterminated (ws : list str) (sp : str) (q : ascii) (body : str) :
  forallb plain_word ws = true ->
  forallb is_blank sp = true ->
  Py.char_in q Shlex.quotes = true ->
  forallb (fun c => negb (Ascii.eqb c q) && negb (Ascii.eqb c backslash)) body = true ->
  Shlex.lex "#" (Py.join " " ws ++ sp ++ q :: body) = inl Shlex.no_closing_quotation.
Proof.
  intros Hws Hsp Hq Hbody. unfold Shlex.lex.
  assert (Hspace : Shlex.tokens "#" Shlex.Space Shlex.Space false [] false
                     (sp ++ q :: body) = inl Shlex.no_closing_quotation).
  { rewrite (blanks_skipped _ _ _ Hsp), (quote_opens _ _ _ _ Hq) by now left.
    now apply quote_never_closed. }
  destruct ws as [|w0 ws]; [exact Hspace|].
  rewrite (plain_words_read ws w0 _ Hws).
  assert (Hlast : Shlex.is_empty (List.last (w0 :: ws) []) = false).
  { assert (Hin : In (List.last (w0 :: ws) []) (w0 :: ws))
      by (destruct (exists_last (l := w0 :: ws) ltac:(discriminate)) as (l' & a & E);
          rewrite E, last_last; apply in_or_app; right; now left).
    rewrite forallb_forall in Hws. apply Hws in Hin. unfold plain_word in Hin.
    apply andb_prop in Hin as [Hne _]. now apply negb_true_iff. }
  replace (Shlex.tokens "#" Shlex.Word Shlex.Space false (List.last (w0 :: ws) [])
             false (sp ++ q :: body)) with (@inl str (list str) Shlex.no_closing_quotation).
  - apply yield_all_error. now apply forallb_removelast.
  - symmetry. destruct sp as [|c sp].
    + cbn [app]. rewrite (quote_opens _ _ _ _ Hq) by now right.
      now apply quote_never_closed.
    + cbn [forallb] in Hsp. apply andb_prop in Hsp as [Hc Hsp'].
      cbn [app]. rewrite (blank_ends_word _ _ _ _ Hc Hlast).
      rewrite (blanks_skipped _ _ _ Hsp'), (quote_opens _ _ _ _ Hq) by now left.
      rewrite quote_never_closed by exact Hbody.
      unfold Shlex.yield. now rewrite Hlast.
Qed.

Lemma quote_not_backslash (q : ascii) :
  Py.char_in q Shlex.quotes = true -> Ascii.eqb backslash q = false.
Proof. destruct q as [[] [] [] [] [] [] [] []]; vm_compute; congruence. Qed.

(** X6.  A line of plain words, white space, an opening quote and then
    no closing quote and no backslash up to its end is rejected: the
    result is the empty list with the failure flag, and the only effect
    is the line [mysh: syntax error: unterminated quote] on standard
    error. *)
Theorem unterminated_quote_rejected (ws : list str) (sp : str) (q : ascii)
    (body : str) (w : world) :
  forallb plain_word ws = true ->
  forallb is_blank sp = true ->
  Py.char_in q Shlex.quotes = true ->
  forallb (fun c => negb (Ascii.eqb c q) && negb (Ascii.eqb c backslash)) body = true ->
  custom_split_command (Py.join " " ws ++ sp ++ q :: body) w
  = (Ret ([], false), write_stderr unterminated_quote w).
Proof.
  intros Hws Hsp Hq Hbody. unfold custom_split_command.
  rewrite preprocess_command_id.
  - rewrite (lex_unterminated _ _ _ _ Hws Hsp Hq Hbody). reflexivity.
  - apply no_char_no_contains. rewrite !char_in_app.
    rewrite (joined_no_backslash _ Hws), (no_backslash_of _ _ blank_not_backslash Hsp).
    cbn [orb Py.char_in existsb]. rewrite (quote_not_backslash _ Hq). cbn [orb].
    apply (no_backslash_of (fun c => negb (Ascii.eqb c q) && negb (Ascii.eqb c backslash))).
    + intros c Hc. apply andb_prop in Hc as [_ Hc]. apply negb_true_iff in Hc.
      now rewrite Ascii.eqb_sym.
    + exact Hbody.
  - apply no_char_no_contains. rewrite !char_in_app.
    rewrite (joined_no_backslash _ Hws), (no_backslash_of _ _ blank_not_backslash Hsp).
    cbn [orb Py.char_in existsb]. rewrite (quote_not_backslash _ Hq). cbn [orb].
    apply (no_backslash_of (fun c => negb (Ascii.eqb c q) && negb (Ascii.eqb c backslash))).
    + intros c Hc. apply andb_prop in Hc as [_ Hc]. apply negb_true_iff in Hc.
      now rewrite Ascii.eqb_sym.
    + exact Hbody.
Qed.

End Tokenizer.

Lemma plain_words_round_trip_witness :
  custom_split_command "grep -n main src/mysh.py" (initial_world ∅ "/")
  = (Ret (strs ["grep"; "-n"; "main"; "src/mysh.py"], true), initial_world ∅ "/").
Proof.
  apply (plain_words_round_trip (strs ["grep"; "-n"; "main"; "src/mysh.py"])
           (initial_world ∅ "/")).
  reflexivity.
Defined.

(** The line [echo hi], a space, a double quote and [a b#c]: the quote is
    never closed. *)
Lemma unterminated_quote_rejected_witness :
  custom_split_command ("echo hi " ++ dquote :: "a b#c") (initial_world ∅ "/")
  = (Ret ([], false), write_stderr unterminated_quote (initial_world ∅ "/")).
Proof.
  apply (unterminated_quote_rejected (strs ["echo"; "hi"]) " " dquote "a b#c"
           (initial_world ∅ "/")); reflexivity.
Defined.

(** ** The built-ins [var], [cd] and [pwd] *)

Section Builtins.

Variable os : OS.

Lemma valid_name_not_option (name : str) :
  Re.match_identifier name = true ->
  Py.startswith "-" name = false /\ Py.str_eqb name "-s" = false.
Proof.
  unfold Re.match_identifier. destruct name as [|c rest]; [discriminate|].
  intros H. apply andb_prop in H as [Hc _].
  assert (Hd : Ascii.eqb "-" c = false)
    by (destruct c as [[] [] [] [] [] [] [] []]; vm_compute in Hc |- *; congruence).
  split.
  - cbn [list_ascii_of_string Py.startswith]. now rewrite Hd.
  - unfold Py.str_eqb. apply bool_decide_eq_false. intros [= -> _]. discriminate.
Qed.

(** [var NAME VALUE] with a valid name binds the name to the value. *)
Lemma handle_var_command_binds (cmd0 name value : str) (w : world) :
  Re.match_identifier name = true ->
  Py.char_in "000"%char value = false ->
  handle_var_command os [cmd0; name; value] w
  = (Ret tt, set_environ (fun e => <[name := value]> e) w).
Proof.
  intros Hv Hnul. destruct (valid_name_not_option _ Hv) as [Hopt Hs].
  unfold handle_var_command. cbn [length Nat.leb].
  unfold bind at 1. unfold item at 1. cbn [Py.index nth_error]. unfold ret at 1.
  rewrite Hopt. unfold bind at 1. unfold ret at 1.
  cbn [length Nat.sub Nat.ltb Nat.leb]. rewrite Hs. cbn [negb].
  unfold bind at 1. unfold ret at 1. unfold identifier_ok. rewrite Hv. cbn [negb Nat.ltb Nat.leb].
  cbn [skipn Py.join]. unfold environ_set. now rewrite Hnul.
Qed.

(** X7.  After [var NAME VALUE] with a valid name, a reference to the
    name is interpolated to exactly the value: in a text that holds no
    other dollar and no backslash before the reference, the reference is
    replaced by [VALUE] and the rest is kept. *)
Theorem var_then_interpolate (cmd0 name value pre post : str) (w : world) :
  is_valid_variable_name name = true ->
  Py.char_in "000"%char value = false ->
  Py.char_in "$"%char pre = false ->
  ends_with_backslash pre = false ->
  Py.char_in "$"%char post = false ->
  (handle_var_command os [cmd0; name; value] ;;
   replace_variables (pre ++ reference name ++ post)) w
  = (Ret (pre ++ value ++ post, true), set_environ (fun e => <[name := value]> e) w).
Proof.
  intros Hv Hnul Hpre Hbs Hpost. unfold bind.
  rewrite (handle_var_command_binds _ _ _ _ Hv Hnul).
  rewrite (replace_variables_reference _ _ _ _ Hpre Hbs Hv Hpost).
  unfold value_of. cbn [environ set_environ]. now rewrite lookup_insert_eq.
Qed.

Lemma literal_path_expanduser (env : gmap str str) (path : str) :
  Py.startswith "~" path = false -> PosixPath.expanduser os env path = path.
Proof. intros H. unfold PosixPath.expanduser. now rewrite H. Qed.

(** The steps of [cd path] up to the call of [os.chdir]. *)
Lemma handle_cd_command_literal (cmd0 path : str) (w : world) :
  literal_path path = true ->
  handle_cd_command os [cmd0; path] w
  = try_except
      (os_chdir os (cd_target w path) ;;
       modify (set_logical_pwd (cd_target w path)) ;;
       environ_set "PWD" (cd_target w path))
      cd_catches
      (fun e =>
         match kind e with
         | FileNotFoundError => eprint ("cd: no such file or directory: " ++ path)
         | NotADirectoryError => eprint ("cd: not a directory: " ++ path)
         | _ => eprint ("cd: permission denied: " ++ path)
         end) w.
Proof.
  unfold literal_path. intros H. apply andb_prop in H as [Ht Hd].
  apply negb_true_iff in Ht, Hd.
  unfold handle_cd_command. cbn [length Nat.ltb Nat.leb].
  unfold bind at 1. unfold get at 1.
  unfold bind at 1. unfold bind at 1. unfold item at 1. cbn [Py.index nth_error].
  unfold ret at 1. unfold ret at 1. rewrite (literal_path_expanduser _ _ Ht).
  unfold bind at 1. rewrite Hd. unfold ret at 1.
  unfold try_except. unfold bind at 1. unfold get at 1.
  unfold bind at 1. unfold get at 1. reflexivity.
Qed.

(** X9.  When the system refuses the directory with one of the three
    exceptions that [cd] catches, [cd path] prints the matching line with
    the path as it was written and changes nothing else: the logical
    working directory, [PWD] and the directory of the process stay as
    they were.  Any other exception of [os.chdir] leaves [cd] and with it
    the interpreter. *)
Theorem cd_failure_changes_nothing (cmd0 path : str) (e : exn) (w : world) :
  literal_path path = true ->
  chdir_error os (cd_target w path) = Some e ->
  handle_cd_command os [cmd0; path] w
  = if cd_catches (kind e)
    then (Ret tt, write_stderr (cd_error (kind e) path) w)
    else (Raise e, w).
Proof.
  intros Hl He. rewrite (handle_cd_command_literal _ _ _ Hl).
  unfold try_except, bind at 1, os_chdir. rewrite He. unfold raise_exn.
  destruct e as [k msg]. cbn [kind].
  destruct k; cbn [cd_catches kind_eqb orb]; try reflexivity;
    unfold eprint, modify, cd_error; now rewrite <- !app_assoc.
Qed.

(** [cd path] when the system lets the process enter the directory. *)
Lemma handle_cd_command_enters (cmd0 path : str) (w : world) :
  literal_path path = true ->
  chdir_error os (cd_target w path) = None ->
  Py.char_in "000"%char (cd_target w path) = false ->
  handle_cd_command os [cmd0; path] w = (Ret tt, entered os (cd_target w path) w).
Proof.
  intros Hl He Hnul. rewrite (handle_cd_command_literal _ _ _ Hl).
  unfold try_except, os_chdir. rewrite He.
  unfold bind, get, modify, environ_set. rewrite Hnul. reflexivity.
Qed.

(** X10.  After a [cd path] that the system accepts, [pwd] prints the
    directory that [cd] asked for: the normalized join of the former
    logical working directory and the path.  The logical working
    directory and [PWD] are that text; the directory of the process, which
    [os.getcwd] returns and [pwd -P] prints, is its canonical name. *)
Theorem cd_then_pwd (cmd0 path : str) (w : world) :
  literal_path path = true ->
  chdir_error os (cd_target w path) = None ->
  Py.char_in "000"%char (cd_target w path) = false ->
  Py.startswith "/" (cd_target w path) = true ->
  (handle_cd_command os [cmd0; path] ;; handle_pwd_command os [("pwd" : str)]) w
  = (Ret tt, write_stdout (cd_target w path ++ [newline])
                          (entered os (cd_target w path) w))
  /\ logical_pwd (entered os (cd_target w path) w) = cd_target w path
  /\ os_cwd (entered os (cd_target w path) w) = realpath os (cd_target w path)
  /\ environ (entered os (cd_target w path) w) !! ("PWD" : str)
     = Some (cd_target w path)
  /\ (handle_cd_command os [cmd0; path] ;;
      handle_pwd_command os [("pwd" : str); ("-P" : str)]) w
     = (Ret tt, write_stdout (realpath os (realpath os (cd_target w path)) ++ [newline])
                             (entered os (cd_target w path) w)).
Proof.
  intros Hl He Hnul Habs.
  assert (Hcwd : os_cwd (entered os (cd_target w path) w)
                 = realpath os (cd_target w path)).
  { cbn [entered os_cwd set_environ set_logical_pwd log set_os_cwd].
    unfold entered_directory. now rewrite Habs. }
  split; [|split; [reflexivity|split; [exact Hcwd|split]]].
  - unfold bind at 1. rewrite (handle_cd_command_enters _ _ _ Hl He Hnul).
    reflexivity.
  - cbn [entered environ set_environ]. apply lookup_insert_eq.
  - unfold bind at 1. rewrite (handle_cd_command_enters _ _ _ Hl He Hnul).
    unfold handle_pwd_command.
    change (pwd_bad_args (skipn 1 [("pwd" : str); ("-P" : str)])) with (@None str).
    change (existsb (Py.str_eqb "-P") [("pwd" : str); ("-P" : str)]) with true.
    cbv iota. unfold bind, get, print, modify. now rewrite Hcwd.
Qed.

End Builtins.

(** [var GREETING hello] and then the text [echo ${GREETING}!]. *)
Lemma var_then_interpolate_witness :
  (handle_var_command (plain_os 7) (strs ["var"; "GREETING"; "hello"]) ;;
   replace_variables ("echo " ++ reference "GREETING" ++ "!")) (initial_world ∅ "/")
  = (Ret ("echo hello!" : str, true),
     set_environ (fun e => <[("GREETING" : str) := ("hello" : str)]> e)
                 (initial_world ∅ "/")).
Proof.
  apply (var_then_interpolate (plain_os 7) "var" "GREETING" "hello" "echo " "!"
           (initial_world ∅ "/")); reflexivity.
Defined.

(** A system without the directory [/nowhere]. *)
Lemma cd_failure_changes_nothing_witness :
  handle_cd_command
    (scripted_os_without "/nowhere") (strs ["cd"; "/nowhere"]) (initial_world ∅ "/home")
  = (Ret tt, write_stderr ("cd: no such file or directory: /nowhere" ++ [newline])
                          (initial_world ∅ "/home")).
Proof.
  apply (cd_failure_changes_nothing (scripted_os_without "/nowhere") "cd" "/nowhere"
           (Exn FileNotFoundError "No such file or directory")
           (initial_world ∅ "/home")); reflexivity.
Defined.

(** [cd //tmp/./x] from [/home/user], where [/tmp] is a symbolic link to
    [/var/tmp]: the logical directory keeps the two slashes and the link,
    the directory of the process has neither. *)
Lemma cd_then_pwd_witness :
  (handle_cd_command (os_with_links [("//tmp/x", "/var/tmp/x")])
     (strs ["cd"; "//tmp/./x"]) ;;
   handle_pwd_command (os_with_links [("//tmp/x", "/var/tmp/x")]) [("pwd" : str)])
    (initial_world ∅ "/home/user")
  = (Ret tt, write_stdout ("//tmp/x" ++ [newline])
               (entered (os_with_links [("//tmp/x", "/var/tmp/x")]) "//tmp/x"
                  (initial_world ∅ "/home/user")))
  /\ logical_pwd (entered (os_with_links [("//tmp/x", "/var/tmp/x")]) "//tmp/x"
                    (initial_world ∅ "/home/user")) = "//tmp/x"
  /\ os_cwd (entered (os_with_links [("//tmp/x", "/var/tmp/x")]) "//tmp/x"
               (initial_world ∅ "/home/user")) = "/var/tmp/x"
  /\ environ (entered (os_with_links [("//tmp/x", "/var/tmp/x")]) "//tmp/x"
                (initial_world ∅ "/home/user")) !! ("PWD" : str)
     = Some ("//tmp/x" : str)
  /\ (handle_cd_command (os_with_links [("//tmp/x", "/var/tmp/x")])
        (strs ["cd"; "//tmp/./x"]) ;;
      handle_pwd_command (os_with_links [("//tmp/x", "/var/tmp/x")])
        [("pwd" : str); ("-P" : str)])
       (initial_world ∅ "/home/user")
     = (Ret tt, write_stdout ("/var/tmp/x" ++ [newline])
                  (entered (os_with_links [("//tmp/x", "/var/tmp/x")]) "//tmp/x"
                     (initial_world ∅ "/home/user"))).
Proof.
  apply (cd_then_pwd (os_with_links [("//tmp/x", "/var/tmp/x")]) "cd" "//tmp/./x"
           (initial_world ∅ "/home/user"));
    reflexivity.
Defined.

(** ** [which] and the search of the launcher *)

Section Search.

Variable os : OS.

Lemma which_search_none (command : str) (dirs : list str) :
  which_search os dirs command = None
  <-> forallb (fun d => negb (has_executable os command d)) dirs = true.
Proof.
  unfold has_executable. induction dirs as [|d dirs IH]; [now split|].
  cbn [which_search forallb].
  destruct (isfile os (PosixPath.join d command)
            && access_x os (PosixPath.join d command)); cbn [negb andb].
  - split; discriminate.
  - exact IH.
Qed.

Lemma which_search_some (command : str) (dirs : list str) (p : str) :
  which_search os dirs command = Some p
  <-> exists pre d post,
        dirs = pre ++ d :: post
        /\ forallb (fun d' => negb (has_executable os command d')) pre = true
        /\ has_executable os command d = true
        /\ p = PosixPath.join d command.
Proof.
  unfold has_executable. induction dirs as [|d0 dirs IH].
  - split; [discriminate|]. intros (pre & d & post & E & _). now destruct pre.
  - cbn [which_search].
    destruct (isfile os (PosixPath.join d0 command)
              && access_x os (PosixPath.join d0 command)) eqn:E0.
    + split.
      * intros [= <-]. now exists [], d0, dirs.
      * intros (pre & d & post & E & Hpre & Hd & ->). destruct pre as [|a pre].
        -- now injection E as <- _.
        -- injection E as <- _. cbn [forallb] in Hpre. rewrite E0 in Hpre. discriminate.
    + rewrite IH. split.
      * intros (pre & d & post & -> & Hpre & Hd & ->).
        exists (d0 :: pre), d, post. cbn [forallb app]. now rewrite E0.
      * intros (pre & d & post & E & Hpre & Hd & ->). destruct pre as [|a pre].
        -- injection E as <- _. rewrite E0 in Hd. discriminate.
        -- injection E as <- ->. cbn [forallb] in Hpre.
           apply andb_prop in Hpre as [_ Hpre]. now exists pre, d, post.
Qed.

Lemma write_stdout_twice (a b : str) (w : world) :
  write_stdout b (write_stdout a w) = write_stdout (a ++ b) w.
Proof. unfold write_stdout. cbn. now rewrite app_assoc. Qed.

Lemma print_all_prints (l : str) (ls : list str) : forall w,
  print_all (l :: ls) w = (Ret tt, write_stdout (printed (l :: ls)) w).
Proof.
  revert l. induction ls as [|l1 ls IH]; intros l w.
  - cbn [print_all]. unfold bind, print, modify, ret, printed. cbn [map concat].
    now rewrite app_nil_r.
  - cbn [print_all]. unfold bind at 1. unfold print at 1, modify at 1.
    cbv beta iota. change (print l1 ;; print_all ls) with (print_all (l1 :: ls)).
    rewrite (IH l1). rewrite write_stdout_twice. reflexivity.
Qed.

(** X11.  [which] with at least one name prints one line for each name,
    in order, and changes nothing else.  The line of a name is the
    built-in notice when the name is one of the five built-ins, whatever
    [PATH] holds; for another name it is the candidate in the first
    directory of [PATH] in which the candidate is an executable regular
    file, and the not-found notice when no directory has one. *)
Theorem which_reports (cmd0 name : str) (names : list str) (w : world) :
  handle_which_command os (cmd0 :: name :: names) w
  = (Ret tt, write_stdout
               (printed (map (find_executable os (path_dirs os w)) (name :: names))) w)
  /\ (forall dirs command,
        In command builtin_names ->
        find_executable os dirs command = command ++ ": shell built-in command")
  /\ (forall pre d post command,
        existsb (Py.str_eqb command) builtin_names = false ->
        forallb (fun d' => negb (has_executable os command d')) pre = true ->
        has_executable os command d = true ->
        find_executable os (pre ++ d :: post) command = PosixPath.join d command)
  /\ (forall dirs command,
        existsb (Py.str_eqb command) builtin_names = false ->
        forallb (fun d => negb (has_executable os command d)) dirs = true ->
        find_executable os dirs command = command ++ " not found").
Proof.
  split; [|split; [|split]].
  - unfold handle_which_command. cbn [length Nat.eqb].
    unfold bind, getenv, get, ret. cbn [skipn map].
    apply (print_all_prints _ _ w).
  - intros dirs command Hin. unfold find_executable.
    replace (existsb (Py.str_eqb command) builtin_names) with true; [reflexivity|].
    symmetry. apply existsb_exists. exists command. split; [exact Hin|].
    unfold Py.str_eqb. now apply bool_decide_eq_true.
  - intros pre d post command Hb Hpre Hd. unfold find_executable. rewrite Hb.
    replace (which_search os (pre ++ d :: post) command)
      with (Some (PosixPath.join d command)); [reflexivity|].
    symmetry. apply which_search_some. now exists pre, d, post.
  - intros dirs command Hb Hnone. unfold find_executable. rewrite Hb.
    apply which_search_none in Hnone. now rewrite Hnone.
Qed.

Lemma search_path_none (command : str) (dirs : list str) :
  search_path os dirs command = None
  <-> forallb (fun d => negb (has_file os command d)) dirs = true.
Proof.
  unfold has_file. induction dirs as [|d dirs IH]; [now split|].
  cbn [search_path forallb].
  destruct (isfile os (PosixPath.join d command)); cbn [negb andb].
  - split; discriminate.
  - exact IH.
Qed.

Lemma search_path_first (command : str) (pre : list str) (d : str) (post : list str) :
  forallb (fun d' => negb (has_file os command d')) pre = true ->
  has_file os command d = true ->
  search_path os (pre ++ d :: post) command = Some (PosixPath.join d command).
Proof.
  unfold has_file. induction pre as [|a pre IH]; cbn [forallb app search_path].
  - now intros _ ->.
  - intros H Hd. apply andb_prop in H as [Ha Hpre]. apply negb_true_iff in Ha.
    rewrite Ha. now apply IH.
Qed.

Lemma expand_path_in_args_no_tilde (args : list str) (w : world) :
  no_tilde args = true -> expand_path_in_args os args w = (Ret args, w).
Proof.
  unfold expand_path_in_args, bind, get, ret. intros H. do 2 f_equal.
  induction args as [|a args IH]; [reflexivity|].
  cbn [no_tilde forallb] in H. apply andb_prop in H as [Ha Hargs].
  apply negb_true_iff in Ha. cbn [map]. rewrite Ha. f_equal. now apply IH.
Qed.

(** The launcher up to the resolution of the command, for a name without
    a slash. *)
Lemma execute_external_command_resolves (arg0 : str) (rest : list str)
    (capture : bool) (w : world) (r : option str) :
  no_tilde (arg0 :: rest) = true ->
  Py.char_in "/"%char arg0 = false ->
  search_path os (path_dirs os w) arg0 = r ->
  (r = None ->
   execute_external_command os (arg0 :: rest) capture w
   = (Ret None, write_stderr (command_not_found arg0) w))
  /\ (forall p, r = Some p -> access_x os p = false ->
      execute_external_command os (arg0 :: rest) capture w
      = (Ret None, write_stderr (permission_denied arg0) w)).
Proof.
  intros Ht Hs Hr.
  split.
  - intros ->. unfold execute_external_command.
    unfold bind at 1. rewrite (expand_path_in_args_no_tilde _ _ Ht).
    unfold bind at 1. unfold item at 1. cbn [Py.index nth_error]. unfold ret at 1.
    rewrite Hs. unfold bind at 1. unfold bind at 1. unfold getenv at 1.
    unfold bind at 1. unfold get at 1. unfold ret at 1. unfold ret at 1.
    fold (path_dirs os w). rewrite Hr.
    unfold bind, eprint, modify, ret, command_not_found. now rewrite <- app_assoc.
  - intros p -> Hx. unfold execute_external_command.
    unfold bind at 1. rewrite (expand_path_in_args_no_tilde _ _ Ht).
    unfold bind at 1. unfold item at 1. cbn [Py.index nth_error]. unfold ret at 1.
    rewrite Hs. unfold bind at 1. unfold bind at 1. unfold getenv at 1.
    unfold bind at 1. unfold get at 1. unfold ret at 1. unfold ret at 1.
    fold (path_dirs os w). rewrite Hr. rewrite Hx. cbn [negb].
    unfold bind, eprint, modify, ret, permission_denied. now rewrite <- app_assoc.
Qed.

(** X12.  A command name without a slash for which no directory of
    [PATH] holds a regular file is reported as not found, in both modes of
    the launcher, and nothing else happens: no pipe, no fork, no change
    of the process state. *)
Theorem unresolved_command_creates_no_process (arg0 : str) (rest : list str)
    (capture : bool) (w : world) :
  no_tilde (arg0 :: rest) = true ->
  Py.char_in "/"%char arg0 = false ->
  forallb (fun d => negb (has_file os arg0 d)) (path_dirs os w) = true ->
  execute_external_command os (arg0 :: rest) capture w
  = (Ret None, write_stderr (command_not_found arg0) w).
Proof.
  intros Ht Hs Hnone. apply search_path_none in Hnone.
  destruct (execute_external_command_resolves arg0 rest capture w _ Ht Hs Hnone)
    as [Hnot _].
  now apply Hnot.
Qed.

(** X13.  The launcher stops at the first directory of [PATH] that holds
    a regular file of the name: when that file may not be executed it
    reports a denied permission and creates no process, although a later
    directory may hold an executable file of the name; [which] passes
    over the same directory and answers from the directories after it. *)
Theorem launcher_stops_at_first_file (arg0 : str) (rest : list str) (capture : bool)
    (pre : list str) (d : str) (post : list str) (w : world) :
  no_tilde (arg0 :: rest) = true ->
  Py.char_in "/"%char arg0 = false ->
  path_dirs os w = pre ++ d :: post ->
  forallb (fun d' => negb (has_file os arg0 d')) pre = true ->
  has_file os arg0 d = true ->
  access_x os (PosixPath.join d arg0) = false ->
  execute_external_command os (arg0 :: rest) capture w
  = (Ret None, write_stderr (permission_denied arg0) w)
  /\ which_search os (path_dirs os w) arg0 = which_search os post arg0.
Proof.
  intros Ht Hs Hdirs Hpre Hd Hx. split.
  - assert (Hr : search_path os (path_dirs os w) arg0 = Some (PosixPath.join d arg0))
      by (rewrite Hdirs; now apply search_path_first).
    destruct (execute_external_command_resolves arg0 rest capture w _ Ht Hs Hr)
      as [_ Hdenied].
    now apply (Hdenied (PosixPath.join d arg0)).
  - rewrite Hdirs. clear Hdirs. induction pre as [|a pre IH].
    + cbn [app which_search]. now rewrite Hx, andb_false_r.
    + cbn [forallb] in Hpre. apply andb_prop in Hpre as [Ha Hpre].
      unfold has_file in Ha. apply negb_true_iff in Ha.
      cbn [app which_search]. rewrite Ha. cbn [andb]. now apply IH.
Qed.

End Search.

Lemma unresolved_command_creates_no_process_witness :
  execute_external_command (plain_os 7) (strs ["frobnicate"; "-x"]) false
                           (initial_world ∅ "/")
  = (Ret None, write_stderr (command_not_found "frobnicate") (initial_world ∅ "/")).
Proof.
  apply (unresolved_command_creates_no_process (plain_os 7) "frobnicate"
           [("-x" : str)] false (initial_world ∅ "/")); reflexivity.
Defined.

(** [PATH] is [/opt/bin:/usr/bin]; [/opt/bin/tool] is a file that may not
    be executed and [/usr/bin/tool] one that may. *)
Lemma launcher_stops_at_first_file_witness :
  execute_external_command
    (os_with_files ["/opt/bin/tool"; "/usr/bin/tool"] ["/usr/bin/tool"])
    [("tool" : str)] false (world_with [("PATH", "/opt/bin:/usr/bin")])
  = (Ret None, write_stderr (permission_denied "tool")
                            (world_with [("PATH", "/opt/bin:/usr/bin")]))
  /\ which_search
       (os_with_files ["/opt/bin/tool"; "/usr/bin/tool"] ["/usr/bin/tool"])
       (path_dirs (os_with_files ["/opt/bin/tool"; "/usr/bin/tool"] ["/usr/bin/tool"])
                  (world_with [("PATH", "/opt/bin:/usr/bin")])) "tool"
     = which_search
         (os_with_files ["/opt/bin/tool"; "/usr/bin/tool"] ["/usr/bin/tool"])
         [("/usr/bin" : str)] "tool".
Proof.
  apply (launcher_stops_at_first_file
           (os_with_files ["/opt/bin/tool"; "/usr/bin/tool"] ["/usr/bin/tool"])
           "tool" [] false [] "/opt/bin" [("/usr/bin" : str)]
           (world_with [("PATH", "/opt/bin:/usr/bin")])); reflexivity.
Defined.

Example which_finds_later_executable :
  handle_which_command
    (os_with_files ["/opt/bin/tool"; "/usr/bin/tool"] ["/usr/bin/tool"])
    (strs ["which"; "tool"; "cd"; "nothing"]) (world_with [("PATH", "/opt/bin:/usr/bin")])
  = (Ret tt,
     write_stdout
       (printed (strs ["/usr/bin/tool"; "cd: shell built-in command"; "nothing not found"]))
       (world_with [("PATH", "/opt/bin:/usr/bin")])).
Proof. reflexivity. Qed.

(** ** What leaves the environment and the working directory alone *)

(** A relation between the worlds before and after that holds whenever
    the environment and the logical working directory are the same is
    preserved by everything the interpreter does apart from the
    assignments of [var], [cd] and the start-up code. *)
Section Quiet.

Variable R : world -> world -> Prop.
Hypothesis R_refl : forall w, R w w.
Hypothesis R_trans : forall w1 w2 w3, R w1 w2 -> R w2 w3 -> R w1 w3.
Hypothesis R_quiet :
  forall w w', environ w' = environ w -> logical_pwd w' = logical_pwd w -> R w w'.

Variable os : OS.

Ltac quiet := frame R_refl R_trans; apply R_quiet; reflexivity.

Lemma quiet_replace_variables (cmd : str) : preserves R (replace_variables cmd).
Proof using R_refl R_trans R_quiet.
  intros w. destruct (interpolation_outcome cmd w) as (s & ok & w' & E & Hok & Hfail).
  rewrite E. cbn [snd]. destruct ok.
  - rewrite (Hok eq_refl). apply R_refl.
  - destruct (Hfail eq_refl) as (_ & name & ->). now apply R_quiet.
Qed.

Lemma quiet_custom_split_command (cmd : str) : preserves R (custom_split_command cmd).
Proof using R_refl R_trans R_quiet. unfold custom_split_command, eprint. quiet. Qed.

Lemma quiet_execute_external_command (args : list str) (capture : bool) :
  preserves R (execute_external_command os args capture).
Proof using R_refl R_trans R_quiet.
  unfold execute_external_command, expand_path_in_args, item, getenv, eprint,
    setpgid_tolerant, os_setpgid, os_execvp, os_fork, os_waitpid, os_pipe,
    os_close, os_dup2, read_all.
  quiet.
Qed.

Lemma quiet_create_pipes (n : nat) : forall pipe_fds,
  preserves R (create_pipes os n pipe_fds).
Proof using R_refl R_trans R_quiet.
  induction n as [|n IH]; intros pipe_fds; cbn [create_pipes].
  - apply (preserves_ret _ R_refl R_trans).
  - apply (preserves_bind _ R_refl R_trans); [|intros p; apply IH].
    unfold os_pipe. quiet.
Qed.

Lemma quiet_pipeline_child num_commands pipe_fds i args :
  preserves R (pipeline_child os num_commands pipe_fds i args).
Proof using R_refl R_trans R_quiet.
  unfold pipeline_child, when.
  apply (preserves_bind _ R_refl R_trans);
    [|intros _; apply (preserves_bind _ R_refl R_trans);
      [|intros _; apply (preserves_bind _ R_refl R_trans);
        [apply quiet_execute_external_command|intros _]]];
    unfold item, os_dup2; quiet.
Qed.

Lemma quiet_pipeline_parent num_commands pipe_fds i :
  preserves R (pipeline_parent num_commands pipe_fds i).
Proof using R_refl R_trans R_quiet.
  unfold pipeline_parent, when, item, os_close. quiet.
Qed.

Lemma quiet_fork_stages (commands : list str) : forall num_commands pipe_fds i pids,
  preserves R (fork_stages os num_commands pipe_fds i commands pids).
Proof using R_refl R_trans R_quiet.
  induction commands as [|cmd rest IH]; intros num_commands pipe_fds i pids;
    cbn [fork_stages].
  - apply (preserves_ret _ R_refl R_trans).
  - apply (preserves_bind _ R_refl R_trans); [unfold shlex_split; quiet|intros args].
    apply (preserves_bind _ R_refl R_trans); [unfold os_fork; quiet|intros pid].
    destruct (pid =? 0)%Z; [apply quiet_pipeline_child|].
    destruct (0 <? pid)%Z.
    + apply (preserves_bind _ R_refl R_trans);
        [apply quiet_pipeline_parent|intros _; apply IH].
    + unfold eprint. quiet.
Qed.

Lemma quiet_close_pipes (pipe_fds : list (nat * nat)) :
  preserves R (close_pipes pipe_fds).
Proof using R_refl R_trans R_quiet.
  induction pipe_fds as [|[r w] rest IH]; cbn [close_pipes].
  - apply (preserves_ret _ R_refl R_trans).
  - apply (preserves_bind _ R_refl R_trans); [|intros _; exact IH].
    unfold os_close. quiet.
Qed.

Lemma quiet_wait_all (pids : list Z) : preserves R (wait_all pids).
Proof using R_refl R_trans R_quiet.
  induction pids as [|pid rest IH]; cbn [wait_all].
  - apply (preserves_ret _ R_refl R_trans).
  - apply (preserves_bind _ R_refl R_trans); [|intros _; exact IH].
    unfold os_waitpid. quiet.
Qed.

Lemma quiet_execute_pipeline (commands : list str) :
  preserves R (execute_pipeline os commands).
Proof using R_refl R_trans R_quiet.
  unfold execute_pipeline.
  apply (preserves_bind _ R_refl R_trans); [apply quiet_create_pipes|intros pipe_fds].
  apply (preserves_bind _ R_refl R_trans); [apply quiet_fork_stages|intros pids].
  apply (preserves_bind _ R_refl R_trans); [apply quiet_close_pipes|intros _].
  apply quiet_wait_all.
Qed.

Lemma quiet_print_all (lines : list str) : preserves R (print_all lines).
Proof using R_refl R_trans R_quiet.
  induction lines as [|l rest IH]; cbn [print_all].
  - apply (preserves_ret _ R_refl R_trans).
  - apply (preserves_bind _ R_refl R_trans); [|intros _; exact IH].
    unfold print. quiet.
Qed.

Lemma quiet_handle_pwd_command (args : list str) :
  preserves R (handle_pwd_command os args).
Proof using R_refl R_trans R_quiet.
  unfold handle_pwd_command, print, eprint. quiet.
Qed.

Lemma quiet_handle_which_command (args : list str) :
  preserves R (handle_which_command os args).
Proof using R_refl R_trans R_quiet.
  unfold handle_which_command.
  destruct (length args =? 1); [unfold eprint; quiet|].
  apply (preserves_bind _ R_refl R_trans); [unfold getenv; quiet|intros path].
  apply quiet_print_all.
Qed.

Lemma quiet_handle_exit_command (args : list str) :
  preserves R (handle_exit_command args).
Proof using R_refl R_trans R_quiet.
  unfold handle_exit_command, item, eprint. quiet.
Qed.

End Quiet.

(** Like [frame_step], keeping the equation of each case. *)
Ltac frame_case_step refl trans :=
  lazymatch goal with
  | |- preserves _ (ret _) => apply (preserves_ret _ refl trans)
  | |- preserves _ (raise _ _) => apply (preserves_raise _ refl trans)
  | |- preserves _ (raise_exn _) => apply (preserves_raise_exn _ refl trans)
  | |- preserves _ (replaced _ _) => apply (preserves_replaced _ refl trans)
  | |- preserves _ (sys_exit _) => apply (preserves_sys_exit _ refl trans)
  | |- preserves _ (get _) => apply (preserves_get _ refl trans)
  | |- preserves _ (bind _ _) => apply (preserves_bind _ refl trans); [| intros ?]
  | |- preserves _ (try_except _ _ _) =>
      apply (preserves_try_except _ refl trans); [| intros ?]
  | |- preserves _ (modify _) => apply (preserves_modify _ refl trans); intros ?
  | |- preserves _ (if ?b then _ else _) => destruct b eqn:?
  | |- preserves _ (match ?x with _ => _ end) => destruct x eqn:?
  end.
Ltac frame_cases refl trans := repeat frame_case_step refl trans.

(** ** The names that the interpreter binds *)

Section ValidWrites.

Variable os : OS.
Variable split_by_pipe_op : str -> list str.
Variable read_rc : str -> rc_file.

Lemma valid_writes_refl w : valid_writes w w.
Proof. now intros k _. Qed.

Lemma valid_writes_trans w1 w2 w3 :
  valid_writes w1 w2 -> valid_writes w2 w3 -> valid_writes w1 w3.
Proof. intros H1 H2 k Hk. now rewrite (H2 k Hk), (H1 k Hk). Qed.

Lemma valid_writes_quiet w w' :
  environ w' = environ w -> logical_pwd w' = logical_pwd w -> valid_writes w w'.
Proof. intros He _ k _. now rewrite He. Qed.

Lemma valid_writes_same_environ w w' :
  environ w' = environ w -> valid_writes w w'.
Proof. intros He k _. now rewrite He. Qed.

Lemma valid_writes_insert (name value : str) (w : world) :
  Re.match_identifier name = true ->
  valid_writes w (set_environ (fun e => <[name := value]> e) w).
Proof.
  intros Hv k Hk. cbn [environ set_environ]. apply lookup_insert_ne.
  intros ->. congruence.
Qed.

Ltac valid_writes_update :=
  first
    [ apply valid_writes_insert;
      first [ reflexivity
            | match goal with
              | H : negb (identifier_ok ?a) = false |- Re.match_identifier ?a = true =>
                  apply negb_false_iff in H; exact H
              | H : negb (Re.match_identifier ?a) = false |- Re.match_identifier ?a = true =>
                  apply negb_false_iff in H; exact H
              end ]
    | apply valid_writes_same_environ; reflexivity ].

Lemma handle_cd_command_valid_writes (args : list str) :
  preserves valid_writes (handle_cd_command os args).
Proof.
  unfold handle_cd_command, item, environ_item, getenv, print, eprint,
    os_chdir, environ_set.
  frame valid_writes_refl valid_writes_trans; valid_writes_update.
Qed.

Lemma handle_var_command_valid_writes (args : list str) :
  preserves valid_writes (handle_var_command os args).
Proof.
  unfold handle_var_command, item, char_item, eprint, shlex_split, environ_set.
  frame_cases valid_writes_refl valid_writes_trans;
    first [ apply (quiet_execute_external_command _ valid_writes_refl valid_writes_trans
                     valid_writes_quiet)
          | valid_writes_update ].
Qed.

Lemma run_command_valid_writes (cmd : str) :
  preserves valid_writes (run_command os split_by_pipe_op cmd).
Proof.
  unfold run_command. destruct (Py.char_in "|"%char cmd).
  - destruct (existsb _ _).
    + unfold eprint. frame valid_writes_refl valid_writes_trans; valid_writes_update.
    + apply (quiet_execute_pipeline _ valid_writes_refl valid_writes_trans
               valid_writes_quiet).
  - apply (preserves_bind _ valid_writes_refl valid_writes_trans);
      [apply (quiet_replace_variables _ valid_writes_refl valid_writes_trans
                valid_writes_quiet)|intros [cmd1 success]].
    destruct (negb success); [apply (preserves_ret _ valid_writes_refl valid_writes_trans)|].
    apply (preserves_bind _ valid_writes_refl valid_writes_trans);
      [apply (quiet_custom_split_command _ valid_writes_refl valid_writes_trans
                valid_writes_quiet)|intros [args ok]].
    destruct (negb ok); [apply (preserves_ret _ valid_writes_refl valid_writes_trans)|].
    destruct args as [|arg0 rest];
      [apply (preserves_ret _ valid_writes_refl valid_writes_trans)|].
    unfold run_builtin.
    destruct (Py.str_eqb arg0 "var"); [apply handle_var_command_valid_writes|].
    destruct (Py.str_eqb arg0 "pwd");
      [apply (quiet_handle_pwd_command _ valid_writes_refl valid_writes_trans
                valid_writes_quiet)|].
    destruct (Py.str_eqb arg0 "cd"); [apply handle_cd_command_valid_writes|].
    destruct (Py.str_eqb arg0 "which");
      [apply (quiet_handle_which_command _ valid_writes_refl valid_writes_trans
                valid_writes_quiet)|].
    destruct (Py.str_eqb arg0 "exit");
      [apply (quiet_handle_exit_command _ valid_writes_refl valid_writes_trans
                valid_writes_quiet)|].
    apply (preserves_bind _ valid_writes_refl valid_writes_trans);
      [apply (quiet_execute_external_command _ valid_writes_refl valid_writes_trans
                valid_writes_quiet)
      |intros _; apply (preserves_ret _ valid_writes_refl valid_writes_trans)].
Qed.

Lemma run_shell_loop_valid_writes (lines : list str) :
  preserves valid_writes (run_shell_loop os split_by_pipe_op lines).
Proof.
  induction lines as [|cmd rest IH]; cbn [run_shell_loop].
  - unfold getenv, print. frame valid_writes_refl valid_writes_trans; valid_writes_update.
  - apply (preserves_bind _ valid_writes_refl valid_writes_trans);
      [unfold getenv; frame valid_writes_refl valid_writes_trans|intros p].
    apply (preserves_bind _ valid_writes_refl valid_writes_trans);
      [frame valid_writes_refl valid_writes_trans; valid_writes_update|intros _].
    destruct (Shlex.is_empty (Py.strip cmd)); [exact IH|].
    destruct (Shlex.is_empty cmd);
      [unfold print; frame valid_writes_refl valid_writes_trans; valid_writes_update|].
    apply (preserves_bind _ valid_writes_refl valid_writes_trans);
      [apply run_command_valid_writes|intros _; exact IH].
Qed.

Lemma load_items_valid_writes (items : list (str * json_value)) :
  preserves valid_writes (load_items items).
Proof.
  induction items as [|[var_name value] rest IH]; cbn [load_items].
  - apply (preserves_ret _ valid_writes_refl valid_writes_trans).
  - destruct value as [v|].
    + destruct (negb (Re.match_identifier var_name)) eqn:E.
      * apply (preserves_bind _ valid_writes_refl valid_writes_trans);
          [|intros _; exact IH].
        unfold eprint. frame valid_writes_refl valid_writes_trans; valid_writes_update.
      * apply (preserves_bind _ valid_writes_refl valid_writes_trans);
          [apply (quiet_replace_variables _ valid_writes_refl valid_writes_trans
                    valid_writes_quiet)|intros r].
        apply (preserves_bind _ valid_writes_refl valid_writes_trans);
          [|intros _; exact IH].
        unfold environ_set.
        frame valid_writes_refl valid_writes_trans; valid_writes_update.
    + apply (preserves_bind _ valid_writes_refl valid_writes_trans);
        [|intros _; exact IH].
      unfold eprint. frame valid_writes_refl valid_writes_trans; valid_writes_update.
Qed.

Lemma setup_default_environment_valid_writes :
  preserves valid_writes setup_default_environment.
Proof.
  unfold setup_default_environment, when, environ_set.
  frame valid_writes_refl valid_writes_trans; valid_writes_update.
Qed.

(** X8.  From its start to its end, however it ends, the interpreter
    assigns only to names that are valid variable names: the entries of
    the environment under any other name are after [main] what they were
    before it, whatever the rc file and the command lines hold. *)
Theorem only_valid_names_are_bound (lines : list str) :
  preserves valid_writes (main os split_by_pipe_op read_rc lines).
Proof.
  unfold main, run_shell, setup_signals.
  apply (preserves_bind _ valid_writes_refl valid_writes_trans);
    [apply setup_default_environment_valid_writes|intros _].
  apply (preserves_bind _ valid_writes_refl valid_writes_trans);
    [apply (preserves_ret _ valid_writes_refl valid_writes_trans)|intros _].
  apply (preserves_bind _ valid_writes_refl valid_writes_trans);
    [|intros _; apply run_shell_loop_valid_writes].
  unfold load_myshrc.
  apply (preserves_bind _ valid_writes_refl valid_writes_trans);
    [apply (preserves_get _ valid_writes_refl valid_writes_trans)|intros env].
  destruct (read_rc (rc_file_path os env)) as [|e| |items].
  - apply (preserves_ret _ valid_writes_refl valid_writes_trans).
  - apply (preserves_raise_exn _ valid_writes_refl valid_writes_trans).
  - unfold eprint. frame valid_writes_refl valid_writes_trans; valid_writes_update.
  - apply load_items_valid_writes.
Qed.

End ValidWrites.

(** ** What changes the environment and the working directory *)

Section ShellState.

Variable os : OS.
Variable split_by_pipe_op : str -> list str.

Lemma same_shell_state_quiet w w' :
  environ w' = environ w -> logical_pwd w' = logical_pwd w -> same_shell_state w w'.
Proof. now split. Qed.

(** X19.  A line with a pipe character never changes the environment or
    the logical working directory of the process that runs it, in the
    parent and in every child, however the pipeline ends: [var] and [cd]
    have no effect as stages. *)
Theorem pipeline_keeps_shell_state (cmd : str) :
  Py.char_in "|"%char cmd = true ->
  preserves same_shell_state (run_command os split_by_pipe_op cmd).
Proof.
  intros Hpipe. unfold run_command. rewrite Hpipe. destruct (existsb _ _).
  - unfold eprint. frame same_shell_state_refl same_shell_state_trans.
    now apply same_shell_state_quiet.
  - apply (quiet_execute_pipeline _ same_shell_state_refl same_shell_state_trans
             same_shell_state_quiet).
Qed.

(** X20.  On a line without a pipe, only [var] and [cd] change the
    environment or the logical working directory: when the first word of
    the tokenized line is neither of the two, both are after the command
    what they were before, whether the word names another built-in or a
    program, and however the command ends. *)
Theorem only_var_and_cd_change_shell_state (cmd cmd1 arg0 : str) (args : list str)
    (w : world) :
  Py.char_in "|"%char cmd = false ->
  replace_variables cmd w = (Ret (cmd1, true), w) ->
  custom_split_command cmd1 w = (Ret (arg0 :: args, true), w) ->
  Py.str_eqb arg0 "var" = false ->
  Py.str_eqb arg0 "cd" = false ->
  same_shell_state w (snd (run_command os split_by_pipe_op cmd w)).
Proof.
  intros Hpipe Hrep Hsplit Hvar Hcd. unfold run_command. rewrite Hpipe.
  unfold bind at 1. rewrite Hrep. cbn [negb]. unfold bind at 1. rewrite Hsplit.
  cbn [negb]. unfold run_builtin. rewrite Hvar, Hcd.
  destruct (Py.str_eqb arg0 "pwd");
    [apply (quiet_handle_pwd_command _ same_shell_state_refl same_shell_state_trans
              same_shell_state_quiet)|].
  destruct (Py.str_eqb arg0 "which");
    [apply (quiet_handle_which_command _ same_shell_state_refl same_shell_state_trans
              same_shell_state_quiet)|].
  destruct (Py.str_eqb arg0 "exit");
    [apply (quiet_handle_exit_command _ same_shell_state_refl same_shell_state_trans
              same_shell_state_quiet)|].
  apply (preserves_bind _ same_shell_state_refl same_shell_state_trans);
    [apply (quiet_execute_external_command _ same_shell_state_refl
              same_shell_state_trans same_shell_state_quiet)
    |intros _; apply (preserves_ret _ same_shell_state_refl same_shell_state_trans)].
Qed.

End ShellState.

(** The line [var X 1 | cd /tmp], in the parent and in the child of its
    first stage. *)
Lemma pipeline_keeps_shell_state_witness :
  preserves same_shell_state
    (run_command (plain_os 7) split_by_pipe_op_spec "var X 1 | cd /tmp")
  /\ preserves same_shell_state
       (run_command (plain_os 0) split_by_pipe_op_spec "var X 1 | cd /tmp").
Proof.
  split.
  - apply (pipeline_keeps_shell_state (plain_os 7) split_by_pipe_op_spec
             "var X 1 | cd /tmp"). reflexivity.
  - apply (pipeline_keeps_shell_state (plain_os 0) split_by_pipe_op_spec
             "var X 1 | cd /tmp"). reflexivity.
Defined.

(** The line [ls -l ${HOME}] with [HOME] set. *)
Lemma only_var_and_cd_change_shell_state_witness :
  same_shell_state (world_with [("HOME", "/root")])
    (snd (run_command (plain_os 7) split_by_pipe_op_spec "ls -l ${HOME}"
                      (world_with [("HOME", "/root")]))).
Proof.
  apply (only_var_and_cd_change_shell_state (plain_os 7) split_by_pipe_op_spec
           "ls -l ${HOME}" "ls -l /root" "ls" (strs ["-l"; "/root"])
           (world_with [("HOME", "/root")])); reflexivity.
Defined.

(** ** Children forked and children reaped *)

Section Reaping.

Variable os : OS.
Variable split_by_pipe_op : str -> list str.
Hypothesis Hparent : parent_role os.
Hypothesis Hread : reads_succeed os.

Lemma balanced_refl w : balanced w w.
Proof. exists []. now rewrite !app_nil_r. Qed.

Lemma balanced_trans w1 w2 w3 : balanced w1 w2 -> balanced w2 w3 -> balanced w1 w3.
Proof.
  intros (p1 & C1 & R1) (p2 & C2 & R2). exists (p1 ++ p2).
  now rewrite C2, R2, C1, R1, <- !app_assoc.
Qed.

Lemma balanced_same_trace w w' : trace w' = trace w -> balanced w w'.
Proof. intros H. exists []. now rewrite H, !app_nil_r. Qed.

Lemma balanced_log (e : event) (w : world) :
  forked_pid e = [] -> waited_pid e = [] -> balanced w (log e w).
Proof.
  intros Hf Hw. exists []. unfold children, reaped. cbn [trace log].
  rewrite !flat_map_app. cbn [flat_map]. now rewrite Hf, Hw, !app_nil_r.
Qed.

Ltac balanced_update :=
  first [ apply balanced_log; reflexivity
        | apply balanced_same_trace; reflexivity ].

(** The parent's side of a fork followed by the wait for the child. *)
Lemma fork_then_wait_balanced {A} (child : M A) (after : M A) :
  preserves balanced after ->
  preserves balanced
    (child_pid <- os_fork os ;;
     if (child_pid =? 0)%Z then child else os_waitpid child_pid ;; after).
Proof using Hparent.
  intros Hafter w. unfold bind at 1, os_fork. unfold bind at 1, get at 1.
  unfold bind at 1, modify at 1.
  destruct (fork_result os (forks w)) as [pid|] eqn:E.
  - unfold bind at 1, modify at 1, ret at 1.
    pose proof (Hparent _ _ E) as Hpos.
    replace (pid =? 0)%Z with false by (symmetry; apply Z.eqb_neq; lia).
    unfold bind at 1, os_waitpid, modify at 1.
    eapply balanced_trans; [|apply Hafter].
    exists [pid]. unfold children, reaped. cbn [trace log count_fork].
    rewrite !flat_map_app. cbn [flat_map forked_pid waited_pid app].
    replace (0 <? pid)%Z with true by (symmetry; apply Z.ltb_lt; lia).
    rewrite ?app_nil_r, <- ?app_assoc. cbn [app]. now rewrite ?app_nil_r.
  - unfold raise. cbn [snd fst]. now apply balanced_same_trace.
Qed.

Lemma pipe_fd_open (r w0 : nat) (fds : gset nat) :
  bool_decide (w0 ∈ ({[r; w0]} ∪ fds : gset nat)) = true.
Proof. apply bool_decide_eq_true. set_solver. Qed.

(** In the parent's role the launcher waits for the child it forks, in
    both modes and however it ends. *)
Lemma execute_external_command_balanced (args : list str) (capture : bool) :
  preserves balanced (execute_external_command os args capture).
Proof using Hparent Hread.
  unfold execute_external_command.
  apply (preserves_bind _ balanced_refl balanced_trans);
    [unfold expand_path_in_args; frame balanced_refl balanced_trans|intros args1].
  apply (preserves_bind _ balanced_refl balanced_trans);
    [unfold item; frame balanced_refl balanced_trans|intros arg0].
  apply (preserves_bind _ balanced_refl balanced_trans);
    [unfold getenv; frame balanced_refl balanced_trans|intros command_path].
  destruct command_path as [p|];
    [|unfold eprint; frame balanced_refl balanced_trans; balanced_update].
  destruct (negb (access_x os p));
    [unfold eprint; frame balanced_refl balanced_trans; balanced_update|].
  apply (preserves_try_except _ balanced_refl balanced_trans);
    [|intros e; unfold eprint; frame balanced_refl balanced_trans; balanced_update].
  destruct capture.
  - intros w. unfold bind at 1, os_pipe. unfold bind at 1, get at 1.
    unfold bind at 1, modify at 1.
    destruct (pipe_ok os (pipes w));
      [|unfold raise; cbn [snd]; now apply balanced_same_trace].
    unfold bind at 1, get at 1. unfold bind at 1, modify at 1.
    unfold bind at 1, modify at 1. unfold ret at 1.
    set (r := lowest_free (open_fds (count_pipe w))).
    set (w0 := lowest_free ({[r]} ∪ open_fds (count_pipe w))).
    set (w1 := log (EvPipe r w0) (set_open_fds (fun s => {[r; w0]} ∪ s) (count_pipe w))).
    eapply balanced_trans; [apply (balanced_trans w (count_pipe w) w1)|].
    + now apply balanced_same_trace.
    + exists []. unfold children, reaped, w1. cbn [trace log set_open_fds].
      rewrite !flat_map_app. cbn [flat_map forked_pid waited_pid app].
      now rewrite !app_nil_r.
    + unfold bind at 1, os_fork. unfold bind at 1, get at 1.
      unfold bind at 1, modify at 1.
      destruct (fork_result os (forks w1)) as [pid|] eqn:E;
        [|unfold raise; cbn [snd]; now apply balanced_same_trace].
      unfold bind at 1, modify at 1, ret at 1.
      pose proof (Hparent _ _ E) as Hpos.
      replace (pid =? 0)%Z with false by (symmetry; apply Z.eqb_neq; lia).
      unfold bind at 1, os_close. unfold bind at 1, get at 1.
      replace (bool_decide (w0 ∈ open_fds (log (EvFork pid) (count_fork w1))))
        with true by (symmetry; apply pipe_fd_open).
      unfold read_all. rewrite (Hread r).
      cbv beta iota zeta delta [bind modify os_waitpid ret get snd fst].
      exists [pid]. unfold children, reaped. cbn [trace log count_fork set_open_fds].
      rewrite !flat_map_app. cbn [flat_map forked_pid waited_pid app].
      replace (0 <? pid)%Z with true by (symmetry; apply Z.ltb_lt; lia).
      rewrite ?app_nil_r, <- ?app_assoc. cbn [app]. now rewrite ?app_nil_r.
  - apply fork_then_wait_balanced. apply (preserves_ret _ balanced_refl balanced_trans).
Qed.

Lemma replace_variables_balanced (cmd : str) : preserves balanced (replace_variables cmd).
Proof.
  intros w. destruct (interpolation_outcome cmd w) as (s & ok & w' & E & Hok & Hfail).
  rewrite E. cbn [snd]. destruct ok.
  - rewrite (Hok eq_refl). apply balanced_refl.
  - destruct (Hfail eq_refl) as (_ & name & ->). now apply balanced_same_trace.
Qed.

Lemma custom_split_command_balanced (cmd : str) :
  preserves balanced (custom_split_command cmd).
Proof.
  unfold custom_split_command, eprint.
  frame balanced_refl balanced_trans; balanced_update.
Qed.

Lemma print_all_balanced (lines : list str) : preserves balanced (print_all lines).
Proof.
  induction lines as [|l rest IH]; cbn [print_all].
  - apply (preserves_ret _ balanced_refl balanced_trans).
  - apply (preserves_bind _ balanced_refl balanced_trans); [|intros _; exact IH].
    unfold print. frame balanced_refl balanced_trans; balanced_update.
Qed.

Lemma handle_pwd_command_balanced (args : list str) :
  preserves balanced (handle_pwd_command os args).
Proof.
  unfold handle_pwd_command, print, eprint.
  frame balanced_refl balanced_trans; balanced_update.
Qed.

Lemma handle_which_command_balanced (args : list str) :
  preserves balanced (handle_which_command os args).
Proof.
  unfold handle_which_command.
  destruct (length args =? 1);
    [unfold eprint; frame balanced_refl balanced_trans; balanced_update|].
  apply (preserves_bind _ balanced_refl balanced_trans);
    [unfold getenv; frame balanced_refl balanced_trans|intros path].
  apply print_all_balanced.
Qed.

Lemma handle_exit_command_balanced (args : list str) :
  preserves balanced (handle_exit_command args).
Proof.
  unfold handle_exit_command, item, eprint.
  frame balanced_refl balanced_trans; balanced_update.
Qed.

Lemma handle_cd_command_balanced (args : list str) :
  preserves balanced (handle_cd_command os args).
Proof.
  unfold handle_cd_command, item, environ_item, getenv, print, eprint,
    os_chdir, environ_set.
  frame balanced_refl balanced_trans; balanced_update.
Qed.

Lemma handle_var_command_balanced (args : list str) :
  preserves balanced (handle_var_command os args).
Proof using Hparent Hread.
  unfold handle_var_command, item, char_item, eprint, shlex_split, environ_set.
  frame_cases balanced_refl balanced_trans;
    first [ apply execute_external_command_balanced | balanced_update ].
Qed.

(** A line without a pipe character, however the command ends. *)
Lemma run_command_single_balanced (cmd : str) :
  Py.char_in "|"%char cmd = false ->
  preserves balanced (run_command os split_by_pipe_op cmd).
Proof using Hparent Hread.
  intros Hpipe. unfold run_command. rewrite Hpipe.
  apply (preserves_bind _ balanced_refl balanced_trans);
    [apply replace_variables_balanced|intros [cmd1 success]].
  destruct (negb success); [apply (preserves_ret _ balanced_refl balanced_trans)|].
  apply (preserves_bind _ balanced_refl balanced_trans);
    [apply custom_split_command_balanced|intros [args ok]].
  destruct (negb ok); [apply (preserves_ret _ balanced_refl balanced_trans)|].
  destruct args as [|arg0 rest];
    [apply (preserves_ret _ balanced_refl balanced_trans)|].
  unfold run_builtin.
  destruct (Py.str_eqb arg0 "var"); [apply handle_var_command_balanced|].
  destruct (Py.str_eqb arg0 "pwd"); [apply handle_pwd_command_balanced|].
  destruct (Py.str_eqb arg0 "cd"); [apply handle_cd_command_balanced|].
  destruct (Py.str_eqb arg0 "which"); [apply handle_which_command_balanced|].
  destruct (Py.str_eqb arg0 "exit"); [apply handle_exit_command_balanced|].
  apply (preserves_bind _ balanced_refl balanced_trans);
    [apply execute_external_command_balanced
    |intros _; apply (preserves_ret _ balanced_refl balanced_trans)].
Qed.

(** A command that returns, with or without a pipeline. *)
Lemma run_command_balanced (cmd : str) (w w' : world) :
  run_command os split_by_pipe_op cmd w = (Ret tt, w') -> balanced w w'.
Proof using Hparent Hread.
  intros H. destruct (Py.char_in "|"%char cmd) eqn:Hpipe.
  - unfold run_command in H. rewrite Hpipe in H.
    destruct (existsb _ _).
    + unfold eprint, modify in H. injection H as <-. now apply balanced_same_trace.
    + destruct (children_reaped_on_return os _ _ _ H) as (pids & Hc & Hr & _).
      now exists pids.
  - pose proof (run_command_single_balanced cmd Hpipe w) as Hb.
    now rewrite H in Hb.
Qed.

(** X14.  When [run_command] returns in a process that is never the
    child of one of its forks, and the reading of a pipe does not fail,
    the process has waited for every child that the command forked, once
    each and in the order of the forks, and for nothing else: this holds
    for the built-ins, for the launcher in both modes and for the
    pipelines. *)
Theorem returning_command_reaps_its_children (cmd : str) (w w' : world) :
  run_command os split_by_pipe_op cmd w = (Ret tt, w') ->
  balanced w w'.
Proof using Hparent Hread. exact (run_command_balanced cmd w w'). Qed.

End Reaping.

(** The command [var -s FILES ls] in a system where [/bin/ls] exists and
    the fork gives the pid 11. *)
Lemma returning_command_reaps_its_children_witness :
  balanced (world_with [])
    (snd (run_command (scripted_os ["/bin/ls"] [Some 11%Z]) split_by_pipe_op_spec
            "var -s FILES ls" (world_with []))).
Proof.
  refine (returning_command_reaps_its_children
            (scripted_os ["/bin/ls"] [Some 11%Z]) split_by_pipe_op_spec _ _
            "var -s FILES ls" (world_with []) _ _).
  - intros n pid H.
    destruct n as [|n]; [cbn in H; injection H as <-; lia|].
    destruct n; discriminate H.
  - intros fd. reflexivity.
  - vm_compute. reflexivity.
Defined.

(** ** The environment only grows *)

Section EnvironGrows.

Variable os : OS.
Variable split_by_pipe_op : str -> list str.
Variable read_rc : str -> rc_file.

Lemma keeps_entries_refl w : keeps_entries w w.
Proof. now intros k. Qed.

Lemma keeps_entries_trans w1 w2 w3 :
  keeps_entries w1 w2 -> keeps_entries w2 w3 -> keeps_entries w1 w3.
Proof. intros H1 H2 k Hk. apply H2, H1, Hk. Qed.

Lemma keeps_entries_same_environ w w' :
  environ w' = environ w -> keeps_entries w w'.
Proof. intros He k Hk. now rewrite He. Qed.

Lemma keeps_entries_quiet w w' :
  environ w' = environ w -> logical_pwd w' = logical_pwd w -> keeps_entries w w'.
Proof. intros He _. now apply keeps_entries_same_environ. Qed.

Lemma keeps_entries_insert (name value : str) (w : world) :
  keeps_entries w (set_environ (fun e => <[name := value]> e) w).
Proof.
  intros k Hk. cbn [environ set_environ].
  destruct (decide (name = k)) as [->|Hne].
  - rewrite lookup_insert_eq. eauto.
  - now rewrite lookup_insert_ne.
Qed.

Ltac keeps_entries_update :=
  first [ apply keeps_entries_insert
        | apply keeps_entries_same_environ; reflexivity ].

Lemma handle_cd_command_keeps_entries (args : list str) :
  preserves keeps_entries (handle_cd_command os args).
Proof.
  unfold handle_cd_command, item, environ_item, getenv, print, eprint,
    os_chdir, environ_set.
  frame keeps_entries_refl keeps_entries_trans; keeps_entries_update.
Qed.

Lemma handle_var_command_keeps_entries (args : list str) :
  preserves keeps_entries (handle_var_command os args).
Proof.
  unfold handle_var_command, item, char_item, eprint, shlex_split, environ_set.
  frame_cases keeps_entries_refl keeps_entries_trans;
    first [ apply (quiet_execute_external_command _ keeps_entries_refl
                     keeps_entries_trans keeps_entries_quiet)
          | keeps_entries_update ].
Qed.

Lemma run_command_keeps_entries (cmd : str) :
  preserves keeps_entries (run_command os split_by_pipe_op cmd).
Proof.
  unfold run_command. destruct (Py.char_in "|"%char cmd).
  - destruct (existsb _ _).
    + unfold eprint. frame keeps_entries_refl keeps_entries_trans; keeps_entries_update.
    + apply (quiet_execute_pipeline _ keeps_entries_refl keeps_entries_trans
               keeps_entries_quiet).
  - apply (preserves_bind _ keeps_entries_refl keeps_entries_trans);
      [apply (quiet_replace_variables _ keeps_entries_refl keeps_entries_trans
                keeps_entries_quiet)|intros [cmd1 success]].
    destruct (negb success);
      [apply (preserves_ret _ keeps_entries_refl keeps_entries_trans)|].
    apply (preserves_bind _ keeps_entries_refl keeps_entries_trans);
      [apply (quiet_custom_split_command _ keeps_entries_refl keeps_entries_trans
                keeps_entries_quiet)|intros [args ok]].
    destruct (negb ok); [apply (preserves_ret _ keeps_entries_refl keeps_entries_trans)|].
    destruct args as [|arg0 rest];
      [apply (preserves_ret _ keeps_entries_refl keeps_entries_trans)|].
    unfold run_builtin.
    destruct (Py.str_eqb arg0 "var"); [apply handle_var_command_keeps_entries|].
    destruct (Py.str_eqb arg0 "pwd");
      [apply (quiet_handle_pwd_command _ keeps_entries_refl keeps_entries_trans
                keeps_entries_quiet)|].
    destruct (Py.str_eqb arg0 "cd"); [apply handle_cd_command_keeps_entries|].
    destruct (Py.str_eqb arg0 "which");
      [apply (quiet_handle_which_command _ keeps_entries_refl keeps_entries_trans
                keeps_entries_quiet)|].
    destruct (Py.str_eqb arg0 "exit");
      [apply (quiet_handle_exit_command _ keeps_entries_refl keeps_entries_trans
                keeps_entries_quiet)|].
    apply (preserves_bind _ keeps_entries_refl keeps_entries_trans);
      [apply (quiet_execute_external_command _ keeps_entries_refl keeps_entries_trans
                keeps_entries_quiet)
      |intros _; apply (preserves_ret _ keeps_entries_refl keeps_entries_trans)].
Qed.

Lemma run_shell_loop_keeps_entries (lines : list str) :
  preserves keeps_entries (run_shell_loop os split_by_pipe_op lines).
Proof.
  induction lines as [|cmd rest IH]; cbn [run_shell_loop].
  - unfold getenv, print.
    frame keeps_entries_refl keeps_entries_trans; keeps_entries_update.
  - apply (preserves_bind _ keeps_entries_refl keeps_entries_trans);
      [unfold getenv; frame keeps_entries_refl keeps_entries_trans|intros p].
    apply (preserves_bind _ keeps_entries_refl keeps_entries_trans);
      [frame keeps_entries_refl keeps_entries_trans; keeps_entries_update|intros _].
    destruct (Shlex.is_empty (Py.strip cmd)); [exact IH|].
    destruct (Shlex.is_empty cmd);
      [unfold print; frame keeps_entries_refl keeps_entries_trans; keeps_entries_update|].
    apply (preserves_bind _ keeps_entries_refl keeps_entries_trans);
      [apply run_command_keeps_entries|intros _; exact IH].
Qed.

Lemma load_items_keeps_entries (items : list (str * json_value)) :
  preserves keeps_entries (load_items items).
Proof.
  induction items as [|[var_name value] rest IH]; cbn [load_items].
  - apply (preserves_ret _ keeps_entries_refl keeps_entries_trans).
  - destruct value as [v|].
    + destruct (negb (Re.match_identifier var_name)).
      * apply (preserves_bind _ keeps_entries_refl keeps_entries_trans);
          [|intros _; exact IH].
        unfold eprint. frame keeps_entries_refl keeps_entries_trans; keeps_entries_update.
      * apply (preserves_bind _ keeps_entries_refl keeps_entries_trans);
          [apply (quiet_replace_variables _ keeps_entries_refl keeps_entries_trans
                    keeps_entries_quiet)|intros r].
        apply (preserves_bind _ keeps_entries_refl keeps_entries_trans);
          [|intros _; exact IH].
        unfold environ_set.
        frame keeps_entries_refl keeps_entries_trans; keeps_entries_update.
    + apply (preserves_bind _ keeps_entries_refl keeps_entries_trans);
        [|intros _; exact IH].
      unfold eprint. frame keeps_entries_refl keeps_entries_trans; keeps_entries_update.
Qed.

Lemma run_shell_keeps_entries (lines : list str) :
  preserves keeps_entries (setup_signals ;; run_shell os split_by_pipe_op read_rc lines).
Proof.
  apply (preserves_bind _ keeps_entries_refl keeps_entries_trans);
    [apply (preserves_ret _ keeps_entries_refl keeps_entries_trans)|intros _].
  unfold run_shell.
  apply (preserves_bind _ keeps_entries_refl keeps_entries_trans);
    [|intros _; apply run_shell_loop_keeps_entries].
  unfold load_myshrc.
  apply (preserves_bind _ keeps_entries_refl keeps_entries_trans);
    [apply (preserves_get _ keeps_entries_refl keeps_entries_trans)|intros env].
  destruct (read_rc _).
  - apply (preserves_ret _ keeps_entries_refl keeps_entries_trans).
  - apply (preserves_raise_exn _ keeps_entries_refl keeps_entries_trans).
  - unfold eprint. frame keeps_entries_refl keeps_entries_trans; keeps_entries_update.
  - apply load_items_keeps_entries.
Qed.

Lemma setup_default_environment_keeps_entries :
  preserves keeps_entries setup_default_environment.
Proof.
  unfold setup_default_environment, when, environ_set.
  frame keeps_entries_refl keeps_entries_trans; keeps_entries_update.
Qed.

(** The defaults: what is bound stays as it is, what is missing is bound;
    the function cannot fail. *)
Lemma setup_default_environment_returns (w : world) :
  exists w1,
    setup_default_environment w = (Ret tt, w1)
    /\ is_Some (environ w1 !! ("PROMPT" : str))
    /\ is_Some (environ w1 !! ("MYSH_VERSION" : str)).
Proof.
  unfold setup_default_environment, when.
  change (environ_set "PROMPT" ">> ")
    with (modify (set_environ (fun e => <[("PROMPT" : str) := (">> " : str)]> e))).
  change (environ_set "MYSH_VERSION" "1.0")
    with (modify (set_environ (fun e => <[("MYSH_VERSION" : str) := ("1.0" : str)]> e))).
  unfold bind, get, ret, modify.
  destruct (environ w !! ("PROMPT" : str)) as [p|] eqn:Ep;
    [rewrite bool_decide_eq_false_2 by discriminate
    |rewrite bool_decide_eq_true_2 by reflexivity]; cbn [environ set_environ].
  - destruct (environ w !! ("MYSH_VERSION" : str)) as [v|] eqn:Ev;
      [rewrite bool_decide_eq_false_2 by discriminate
      |rewrite bool_decide_eq_true_2 by reflexivity];
      eexists; (split; [reflexivity|]); cbn [environ set_environ].
    + rewrite Ep, Ev. eauto.
    + rewrite lookup_insert_eq, lookup_insert_ne, Ep by discriminate. eauto.
  - rewrite lookup_insert_ne by discriminate.
    destruct (environ w !! ("MYSH_VERSION" : str)) as [v|] eqn:Ev;
      [rewrite bool_decide_eq_false_2 by discriminate
      |rewrite bool_decide_eq_true_2 by reflexivity];
      eexists; (split; [reflexivity|]); cbn [environ set_environ].
    + rewrite lookup_insert_eq, lookup_insert_ne, Ev by discriminate. eauto.
    + rewrite lookup_insert_eq, lookup_insert_ne, lookup_insert_eq by discriminate.
      eauto.
Qed.

(** X15.  From its start to its end, however it ends, the interpreter
    never removes an entry of the environment: a name that is bound at the
    start is bound at the end.  There is no way to unset a variable. *)
Theorem environment_entries_never_removed (lines : list str) :
  preserves keeps_entries (main os split_by_pipe_op read_rc lines).
Proof.
  unfold main.
  apply (preserves_bind _ keeps_entries_refl keeps_entries_trans);
    [apply setup_default_environment_keeps_entries|intros _].
  apply run_shell_keeps_entries.
Qed.

(** X16.  Whatever the environment at the start, whatever the rc file and
    the input, and however the run ends, [PROMPT] and [MYSH_VERSION] are
    bound at the end of [main]: [setup_default_environment] binds them
    when they are missing and nothing unbinds them afterwards, so the
    default of [os.getenv("PROMPT", ">> ")] in [run_shell] is never
    used. *)
Theorem defaults_stay_defined (lines : list str) (w : world) :
  is_Some (environ (snd (main os split_by_pipe_op read_rc lines w)) !! ("PROMPT" : str))
  /\ is_Some (environ (snd (main os split_by_pipe_op read_rc lines w))
              !! ("MYSH_VERSION" : str)).
Proof.
  destruct (setup_default_environment_returns w) as (w1 & E & Hp & Hv).
  pose proof (run_shell_keeps_entries lines w1) as Hk.
  assert (Em : main os split_by_pipe_op read_rc lines w
               = (setup_signals ;; run_shell os split_by_pipe_op read_rc lines) w1)
    by (unfold main; unfold bind at 1; now rewrite E).
  rewrite Em. split; apply Hk; assumption.
Qed.

End EnvironGrows.

(** ** The entries of the rc file *)

Section RcFile.

Variable os : OS.
Variable read_rc : str -> rc_file.

Lemma environ_set_binds (name value : str) (w : world) :
  Py.char_in "000"%char value = false ->
  environ_set name value w = (Ret tt, set_environ (fun e => <[name := value]> e) w).
Proof. intros H. unfold environ_set. now rewrite H. Qed.

Lemma load_items_string (var_name value : str) (rest : list (str * json_value))
    (s : str) (ok : bool) (w w1 : world) :
  Re.match_identifier var_name = true ->
  replace_variables value w = (Ret (s, ok), w1) ->
  Py.char_in "000"%char s = false ->
  load_items ((var_name, JString value) :: rest) w
  = load_items rest (set_environ (fun e => <[var_name := s]> e) w1).
Proof.
  intros Hv Hr Hnul. cbn [load_items]. rewrite Hv. cbn [negb].
  unfold bind at 1. rewrite Hr. cbn [fst].
  unfold bind at 1. now rewrite (environ_set_binds _ _ _ Hnul).
Qed.

(** X17.  An entry of the rc file with a valid name whose value holds a
    reference that is neither escaped nor to a valid name is not skipped:
    the name is bound to the empty string, the line that names the first
    such reference of the value is written to standard error, and the
    entries after it are loaded as usual. *)
Theorem rc_value_with_invalid_reference (var_name value : str)
    (rest : list (str * json_value)) (m : Re.rmatch) (w : world) :
  read_rc (rc_file_path os (environ w)) = RcObject ((var_name, JString value) :: rest) ->
  Re.match_identifier var_name = true ->
  In m (Re.finditer value) ->
  preceded_by_backslash value m = false ->
  is_valid_variable_name (Re.m_group1 m) = false ->
  exists m0,
    first_rejected value (Re.finditer value) m0
    /\ load_myshrc os read_rc w
       = load_items rest
           (set_environ (fun e => <[var_name := []]> e)
              (write_stderr (invalid_variable (Re.m_group1 m0)) w)).
Proof.
  intros Hrc Hv Hin Hesc Hinv.
  destruct (replace_matches_invalid value (Re.finditer value) [] 0 w m Hin Hesc Hinv)
    as (m0 & H0 & H).
  exists m0. split; [exact H0|].
  unfold load_myshrc. unfold bind at 1, get at 1.
  rewrite Hrc. now apply (load_items_string _ _ _ [] false w).
Qed.

(** X18.  The entries of the rc file are loaded in the order of the file,
    each one into the environment the earlier ones have made: a value that
    refers to the name of the entry before it gets that entry's value. *)
Theorem rc_entries_see_earlier_ones (a v b pre post : str) (w : world) :
  read_rc (rc_file_path os (environ w))
  = RcObject [(a, JString v); (b, JString (pre ++ reference a ++ post))] ->
  Re.match_identifier a = true ->
  Re.match_identifier b = true ->
  Py.contains "${" v = false ->
  Py.char_in "$"%char pre = false ->
  ends_with_backslash pre = false ->
  Py.char_in "$"%char post = false ->
  Py.char_in "000"%char (pre ++ v ++ post) = false ->
  load_myshrc os read_rc w
  = (Ret tt,
     set_environ (fun e => <[b := pre ++ v ++ post]> e)
       (set_environ (fun e => <[a := v]> e) w)).
Proof.
  intros Hrc Ha Hb Hv Hpre Hbs Hpost Hnul.
  assert (Hnv : Py.char_in "000"%char v = false).
  { rewrite !char_in_app in Hnul. apply orb_false_iff in Hnul as [_ Hnul].
    now apply orb_false_iff in Hnul as [Hnul _]. }
  unfold load_myshrc. unfold bind at 1, get at 1. rewrite Hrc.
  rewrite (load_items_string a v _ v true w w Ha (replace_variables_absent v w Hv) Hnv).
  set (w1 := set_environ (fun e => <[a := v]> e) w).
  assert (Hval : value_of w1 a = v).
  { unfold value_of, w1. cbn [environ set_environ]. now rewrite lookup_insert_eq. }
  rewrite (load_items_string b _ _ (pre ++ v ++ post) true w1 w1 Hb).
  - reflexivity.
  - rewrite <- Hval. now apply replace_variables_reference.
  - exact Hnul.
Qed.

End RcFile.

(** A file whose only entry has the name [A] and the value
    [${1x}/${HOME}/${2y}]. *)
Lemma rc_value_with_invalid_reference_witness :
  exists m0,
    first_rejected "${1x}/${HOME}/${2y}" (Re.finditer "${1x}/${HOME}/${2y}") m0
    /\ load_myshrc (plain_os 7)
         (fun _ => RcObject [("A" : str, JString "${1x}/${HOME}/${2y}")])
         (world_with [])
       = load_items []
           (set_environ (fun e => <[("A" : str) := []]> e)
              (write_stderr (invalid_variable (Re.m_group1 m0)) (world_with []))).
Proof.
  apply (rc_value_with_invalid_reference (plain_os 7)
           (fun _ => RcObject [("A" : str, JString "${1x}/${HOME}/${2y}")])
           "A" "${1x}/${HOME}/${2y}" []
           {| Re.m_start := 14; Re.m_end := 19; Re.m_group1 := "2y" |} (world_with []));
    first [reflexivity | vm_compute; now auto].
Defined.

(** The file [{"BASE": "/opt", "BIN": "${BASE}/bin"}]. *)
Lemma rc_entries_see_earlier_ones_witness :
  load_myshrc (plain_os 7)
    (fun _ => RcObject [("BASE" : str, JString "/opt"); ("BIN" : str, JString "${BASE}/bin")])
    (world_with [])
  = (Ret tt,
     set_environ (fun e => <[("BIN" : str) := ("/opt/bin" : str)]> e)
       (set_environ (fun e => <[("BASE" : str) := ("/opt" : str)]> e) (world_with []))).
Proof.
  apply (rc_entries_see_earlier_ones (plain_os 7)
           (fun _ => RcObject [("BASE" : str, JString "/opt");
                               ("BIN" : str, JString "${BASE}/bin")])
           "BASE" "/opt" "BIN" [] "/bin" (world_with [])); reflexivity.
Defined.

(** ** Lines of the session *)

Section Lines.

Variable os : OS.
Variable split_by_pipe_op : str -> list str.











End Lines.



(** ** The descriptors of a pipeline *)

Section Descriptors.

#[local] Set Warnings "-clear-no-such-hyp".

Variable os : OS.
Hypothesis Hparent : parent_role os.

Lemma lowest_free_fresh (fds : gset nat) : lowest_free fds ∉ fds.
Proof.
  unfold lowest_free.
  destruct (List.find _ _) as [n|] eqn:E.
  - apply find_some in E as [_ H]. now apply bool_decide_eq_true in H.
  - intros _.
    assert (Hsub : (list_to_set (seq 0 (S (size fds))) : gset nat) ⊆ fds).
    { intros x Hx. apply elem_of_list_to_set, list_elem_of_In in Hx.
      pose proof (find_none _ _ E x Hx) as Hf. cbv beta in Hf.
      apply bool_decide_eq_false in Hf. now apply dec_stable. }
    apply subseteq_size in Hsub. rewrite size_list_to_set in Hsub by apply NoDup_seq.
    rewrite length_seq in Hsub. lia.
Qed.

Lemma os_pipe_returns (w w1 : world) (p : nat * nat) :
  os_pipe os w = (Ret p, w1) ->
  fst p <> snd p /\ (fst p ∉ open_fds w) /\ (snd p ∉ open_fds w)
  /\ open_fds w1 = {[fst p; snd p]} ∪ open_fds w.
Proof.
  unfold os_pipe, bind, get, modify, ret, raise.
  destruct (pipe_ok os (pipes w)); [|discriminate].
  intros [= <- <-]. cbn [fst snd open_fds log set_open_fds count_pipe].
  pose proof (lowest_free_fresh (open_fds w)) as Hr.
  pose proof (lowest_free_fresh ({[lowest_free (open_fds w)]} ∪ open_fds w)) as Hw.
  split; [|split; [|split]]; [set_solver | exact Hr | set_solver | reflexivity].
Qed.

Lemma read_ends_cons (p : nat * nat) (rest : list (nat * nat)) :
  read_ends (p :: rest) = {[fst p]} ∪ read_ends rest.
Proof. reflexivity. Qed.

Lemma write_ends_cons (p : nat * nat) (rest : list (nat * nat)) :
  write_ends (p :: rest) = {[snd p]} ∪ write_ends rest.
Proof. reflexivity. Qed.

Lemma fresh_pipes_mono (fds fds' : gset nat) (pipe_fds : list (nat * nat)) :
  fds ⊆ fds' -> fresh_pipes fds' pipe_fds -> fresh_pipes fds pipe_fds.
Proof.
  intros Hsub. induction pipe_fds as [|p rest IH]; [trivial|].
  cbn [fresh_pipes]. intros (H1 & H2 & H3 & H4 & H5 & H6).
  repeat match goal with |- _ /\ _ => split end; auto; set_solver.
Qed.

Lemma fresh_pipes_outside (fds : gset nat) (pipe_fds : list (nat * nat)) :
  fresh_pipes fds pipe_fds ->
  forall x, x ∈ read_ends pipe_fds ∪ write_ends pipe_fds -> x ∉ fds.
Proof.
  induction pipe_fds as [|p rest IH]; cbn [fresh_pipes].
  - intros _ x Hx. unfold read_ends, write_ends in Hx. cbn in Hx. set_solver.
  - intros (H1 & H2 & H3 & H4 & H5 & H6) x.
    rewrite read_ends_cons, write_ends_cons. intros Hx.
    specialize (IH H6 x). set_solver.
Qed.

Lemma fresh_pipes_skipn (fds : gset nat) (k : nat) : forall pipe_fds,
  fresh_pipes fds pipe_fds -> fresh_pipes fds (skipn k pipe_fds).
Proof.
  induction k as [|k IH]; intros [|p rest] H; try exact H; try exact I.
  cbn [skipn]. apply IH. cbn [fresh_pipes] in H. tauto.
Qed.

Lemma index_skipn {A} (l : list A) : forall i x,
  Py.index l i = Some x -> skipn i l = x :: skipn (S i) l.
Proof.
  unfold Py.index. induction l as [|y l IH]; intros [|i] x H; try discriminate.
  - now injection H as ->.
  - cbn [nth_error] in H. change (skipn (S i) (y :: l)) with (skipn i l).
    now rewrite (IH _ _ H).
Qed.

(** The pipes that [create_pipes] adds are new, and they are open. *)
Lemma create_pipes_fresh (n : nat) : forall acc w pipe_fds w',
  create_pipes os n acc w = (Ret pipe_fds, w') ->
  exists new,
    pipe_fds = acc ++ new
    /\ length new = n
    /\ fresh_pipes (open_fds w) new
    /\ open_fds w' = read_ends new ∪ write_ends new ∪ open_fds w.
Proof.
  induction n as [|n IH]; intros acc w pipe_fds w' H; cbn [create_pipes] in H.
  - unfold ret in H. injection H as <- <-. exists [].
    rewrite app_nil_r. repeat match goal with |- _ /\ _ => split end;
      try reflexivity; try exact I.
    unfold read_ends, write_ends. cbn. set_solver.
  - apply bind_ret_inv in H as (p & w1 & Hp & H).
    apply os_pipe_returns in Hp as (Hne & Hr & Hw & Hopen).
    apply IH in H as (new & -> & Hlen & Hfresh & Hopen').
    exists (p :: new). rewrite <- app_assoc.
    split; [reflexivity|]. split; [cbn [length]; now rewrite Hlen|].
    pose proof (fresh_pipes_outside _ _ Hfresh) as Hout. rewrite Hopen in Hout.
    split.
    + cbn [fresh_pipes]. repeat match goal with |- _ /\ _ => split end; auto.
      * intros Hx. apply (Hout _ Hx). set_solver.
      * intros Hx. apply (Hout _ Hx). set_solver.
      * apply (fresh_pipes_mono _ (open_fds w1)); [rewrite Hopen; set_solver|exact Hfresh].
    + rewrite Hopen', Hopen, read_ends_cons, write_ends_cons. set_solver.
Qed.

Lemma os_close_open (fd : nat) (w w1 : world) :
  os_close fd w = (Ret tt, w1) -> open_fds w1 = open_fds w ∖ {[fd]}.
Proof.
  unfold os_close, bind, get, modify, raise.
  destruct (bool_decide _); [|discriminate]. now intros [= <-].
Qed.

Lemma os_fork_parent (w w1 : world) (pid : Z) :
  os_fork os w = (Ret pid, w1) -> (0 < pid)%Z /\ open_fds w1 = open_fds w.
Proof using Hparent.
  unfold os_fork, bind, get, modify, ret, raise.
  destruct (fork_result os (forks w)) as [p|] eqn:E; [|discriminate].
  intros [= <- <-]. split; [exact (Hparent _ _ E)|reflexivity].
Qed.

(** What the parent closes after the fork of stage [i]. *)
Lemma pipeline_parent_descriptors (n i : nat) (pipe_fds : list (nat * nat))
    (fds : gset nat) (w w' : world) :
  fresh_pipes fds pipe_fds ->
  length pipe_fds = n - 1 ->
  i < n ->
  open_fds w = read_ends (skipn (i - 1) pipe_fds) ∪ write_ends (skipn i pipe_fds) ∪ fds ->
  pipeline_parent n pipe_fds i w = (Ret tt, w') ->
  open_fds w' = read_ends (skipn i pipe_fds) ∪ write_ends (skipn (S i) pipe_fds) ∪ fds.
Proof.
  intros Hfresh Hlen Hi Hopen H. unfold pipeline_parent, when in H.
  apply bind_ret_inv in H as ([] & wm & H1 & H2).
  assert (Hmid : open_fds wm
                 = read_ends (skipn i pipe_fds) ∪ write_ends (skipn i pipe_fds) ∪ fds).
  { destruct i as [|j].
    - cbn [Nat.ltb Nat.leb] in H1. unfold ret in H1. injection H1 as <-. exact Hopen.
    - change (0 <? S j) with true in H1. cbv iota in H1.
      replace (S j - 1) with j in * by lia.
      apply bind_ret_inv in H1 as (p & w1 & Hp & H1).
      unfold item in Hp. destruct (Py.index pipe_fds j) as [q|] eqn:Eq; [|discriminate].
      unfold ret in Hp. injection Hp as -> ->.
      apply os_close_open in H1. rewrite H1, Hopen.
      pose proof (fresh_pipes_skipn fds j _ Hfresh) as Hf.
      rewrite (index_skipn _ _ _ Eq) in Hf |- *.
      cbn [fresh_pipes] in Hf. destruct Hf as (F1 & F2 & F3 & F4 & F5 & F6).
      rewrite read_ends_cons. set_solver. }
  destruct (i <? n - 1) eqn:Ei.
  - apply Nat.ltb_lt in Ei.
    apply bind_ret_inv in H2 as (p & w1 & Hp & H2).
    unfold item in Hp. destruct (Py.index pipe_fds i) as [q|] eqn:Eq; [|discriminate].
    unfold ret in Hp. injection Hp as -> ->.
    apply os_close_open in H2. rewrite H2, Hmid.
    pose proof (fresh_pipes_skipn fds i _ Hfresh) as Hf.
    rewrite (index_skipn _ _ _ Eq) in Hf |- *.
    cbn [fresh_pipes] in Hf. destruct Hf as (F1 & F2 & F3 & F4 & F5 & F6).
    rewrite read_ends_cons, write_ends_cons. set_solver.
  - apply Nat.ltb_ge in Ei. unfold ret in H2. injection H2 as <-.
    rewrite Hmid. rewrite !skipn_all2 by lia. reflexivity.
Qed.

(** When the loop over the stages returns, every end of every pipe has
    been closed. *)
Lemma fork_stages_descriptors (commands : list str) :
  forall n pipe_fds fds i pids w out w',
  fresh_pipes fds pipe_fds ->
  length pipe_fds = n - 1 ->
  i + length commands = n ->
  open_fds w = read_ends (skipn (i - 1) pipe_fds) ∪ write_ends (skipn i pipe_fds) ∪ fds ->
  fork_stages os n pipe_fds i commands pids w = (Ret out, w') ->
  open_fds w' = fds.
Proof using Hparent.
  induction commands as [|cmd rest IH];
    intros n pipe_fds fds i pids w out w' Hfresh Hlen Hi Hopen H;
    cbn [fork_stages] in H.
  - unfold ret in H. injection H as <- <-. cbn [length] in Hi.
    rewrite Hopen, !skipn_all2 by lia. unfold read_ends, write_ends. cbn. set_solver.
  - cbn [length] in Hi.
    apply bind_ret_inv in H as (args & w1 & Hsplit & H).
    assert (w1 = w) as ->.
    { unfold shlex_split in Hsplit. destruct (Shlex.split cmd); [discriminate|].
      unfold ret in Hsplit. congruence. }
    apply bind_ret_inv in H as (pid & w2 & Hfork & H).
    apply os_fork_parent in Hfork as [Hpos Hopen2].
    replace (pid =? 0)%Z with false in H by (symmetry; apply Z.eqb_neq; lia).
    replace (0 <? pid)%Z with true in H by (symmetry; apply Z.ltb_lt; lia).
    apply bind_ret_inv in H as ([] & w3 & Hpar & H).
    apply (IH n pipe_fds fds (S i) (pids ++ [pid]) w3 out w' Hfresh Hlen); [lia| |exact H].
    replace (S i - 1) with i by lia.
    apply (pipeline_parent_descriptors n i pipe_fds fds w2 w3); auto; [lia|].
    now rewrite Hopen2.
Qed.

Lemma os_close_closed (fd : nat) (w : world) :
  fd ∉ open_fds w -> os_close fd w = raise OSError "Bad file descriptor" w.
Proof. intros H. unfold os_close, bind, get. now rewrite bool_decide_eq_false_2. Qed.

(** The last loop over the pipes finds them closed: each [os.close]
    raises [OSError], which is passed over. *)
Lemma close_pipes_closed (pipe_fds : list (nat * nat)) (w : world) :
  (forall x, x ∈ read_ends pipe_fds -> x ∉ open_fds w) ->
  close_pipes pipe_fds w = (Ret tt, w).
Proof.
  induction pipe_fds as [|[r w0] rest IH]; intros H; cbn [close_pipes]; [reflexivity|].
  assert (Hr : r ∉ open_fds w) by (apply H; rewrite read_ends_cons; set_solver).
  assert (E : try_except (os_close r ;; os_close w0) is_OSError (fun _ => ret tt) w
              = (Ret tt, w)).
  { unfold try_except, bind at 1. now rewrite (os_close_closed r w Hr). }
  unfold bind at 1. rewrite E.
  apply IH. intros x Hx. apply H. rewrite read_ends_cons. set_solver.
Qed.

Lemma wait_all_open_fds (pids : list Z) : forall w,
  open_fds (snd (wait_all pids w)) = open_fds w.
Proof.
  induction pids as [|pid rest IH]; intros w; cbn [wait_all]; [reflexivity|].
  unfold bind, os_waitpid, modify. specialize (IH (log (EvWaitpid pid) w)).
  destruct (wait_all rest _) as [[]]; exact IH.
Qed.

(** X23.  A pipeline that returns, in a process that is never the child
    of one of its forks, leaves open exactly the descriptors that were
    open before it: every end of every pipe it created has been closed,
    and nothing else has. *)
Theorem returning_pipeline_leaves_no_descriptor_open (commands : list str)
    (w w' : world) :
  execute_pipeline os commands w = (Ret tt, w') ->
  open_fds w' = open_fds w.
Proof using Hparent.
  unfold execute_pipeline. intros H.
  apply bind_ret_inv in H as (pipe_fds & w1 & Hpipes & H).
  apply bind_ret_inv in H as (pids & w2 & Hforks & H).
  apply bind_ret_inv in H as ([] & w3 & Hclose & H).
  apply create_pipes_fresh in Hpipes as (new & Hnew & Hlen & Hfresh & Hopen1).
  cbn [app] in Hnew. subst pipe_fds.
  assert (Hopen2 : open_fds w2 = open_fds w).
  { apply (fork_stages_descriptors commands (length commands) new (open_fds w) 0
             [] w1 pids w2 Hfresh Hlen); [reflexivity| |exact Hforks].
    exact Hopen1. }
  rewrite close_pipes_closed in Hclose.
  - injection Hclose as <-. pose proof (wait_all_open_fds pids w2) as Hw.
    rewrite H in Hw. cbn [snd] in Hw. now rewrite Hw.
  - intros x Hx. rewrite Hopen2.
    apply (fresh_pipes_outside _ _ Hfresh). set_solver.
Qed.

End Descriptors.

(** The pipeline [ls | wc | wc]: two pipes, three children. *)
Lemma returning_pipeline_leaves_no_descriptor_open_witness :
  open_fds (snd (execute_pipeline
                   (scripted_os ["/bin/ls"; "/bin/wc"] [Some 11; Some 12; Some 13]%Z)
                   (strs ["ls"; "wc"; "wc"]) (world_with [])))
  = open_fds (world_with []).
Proof.
  refine (returning_pipeline_leaves_no_descriptor_open
            (scripted_os ["/bin/ls"; "/bin/wc"] [Some 11; Some 12; Some 13]%Z) _
            (strs ["ls"; "wc"; "wc"]) (world_with []) _ _).
  - intros n pid H.
    do 3 (destruct n as [|n]; [cbn in H; injection H as <-; lia|]).
    destruct n; discriminate H.
  - vm_compute. reflexivity.
Defined.

(** ** The child of the launcher *)

Section LauncherChild.

#[local] Set Warnings "-clear-no-such-hyp".

Variable os : OS.

Lemma setpgid_tolerant_returns (w : world) :
  exists w', setpgid_tolerant os w = (Ret tt, w')
    /\ open_fds w' = open_fds w /\ stderr w' = stderr w /\ forks w' = forks w.
Proof.
  unfold setpgid_tolerant, try_except, os_setpgid.
  destruct (setpgid_permission_error os).
  - exists w. unfold raise. cbn [kind kind_eqb]. now unfold ret.
  - eexists. unfold modify. split; [reflexivity|]. now cbn.
Qed.

Lemma os_close_member (fd : nat) (w : world) :
  fd ∈ open_fds w ->
  os_close fd w
  = (Ret tt, log (EvClose fd) (set_open_fds (fun s => s ∖ {[fd]}) w)).
Proof.
  intros H. unfold os_close, bind, get, modify.
  now rewrite bool_decide_eq_true_2 by exact H.
Qed.

Lemma os_dup2_member (fd fd2 : nat) (w : world) :
  fd ∈ open_fds w ->
  os_dup2 fd fd2 w
  = (Ret tt, log (EvDup2 fd fd2) (set_open_fds (fun s => {[fd2]} ∪ s) w)).
Proof.
  intros H. unfold os_dup2, bind, get, modify.
  now rewrite bool_decide_eq_true_2 by exact H.
Qed.

(** The child's side of the fork, in both modes, when [os.execvp]
    raises. *)
Lemma child_exec_fails (arg0 : str) (args : list str) (e : exn) (w : world) :
  execvp_error os arg0 = Some e ->
  exists w',
    (setpgid_tolerant os ;; os_execvp os arg0 args ;; ret (None : option str)) w
    = (Raise e, w')
    /\ stderr w' = stderr w /\ forks w' = forks w.
Proof.
  intros He. destruct (setpgid_tolerant_returns w) as (w1 & E1 & _ & Hs & Hf).
  exists w1. unfold bind at 1. rewrite E1. unfold bind, os_execvp. rewrite He.
  unfold raise_exn. auto.
Qed.

Lemma capturing_child_exec_fails (arg0 : str) (args : list str) (e : exn)
    (r w0 : nat) (w : world) :
  execvp_error os arg0 = Some e ->
  r <> w0 -> r ∈ open_fds w -> w0 ∈ open_fds w ->
  exists w',
    (setpgid_tolerant os ;; os_close r ;; os_dup2 w0 1 ;; os_close w0 ;;
     os_execvp os arg0 args ;; ret (None : option str)) w
    = (Raise e, w')
    /\ stderr w' = stderr w /\ forks w' = forks w.
Proof.
  intros He Hne Hr Hw.
  destruct (setpgid_tolerant_returns w) as (w1 & E1 & Ho & Hs & Hf).
  unfold bind at 1. rewrite E1.
  unfold bind at 1. rewrite os_close_member by (rewrite Ho; exact Hr).
  unfold bind at 1. rewrite os_dup2_member
    by (cbn [open_fds log set_open_fds]; rewrite Ho; set_solver).
  unfold bind at 1. rewrite os_close_member
    by (cbn [open_fds log set_open_fds]; set_solver).
  unfold bind, os_execvp. rewrite He. unfold raise_exn.
  eexists. split; [reflexivity|]. cbn [stderr forks log set_open_fds]. auto.
Qed.

(** X24.  In the child of the launcher's fork, when [os.execvp] raises
    (the file was found and may be executed, but cannot be run), the
    exception is caught by the launcher's own handler: the child prints
    one line and the launcher returns in the child as it does in the
    parent, so that the child is not ended and goes on as a second
    interpreter. *)
Theorem failed_exec_child_returns (arg0 : str) (rest : list str) (capture : bool)
    (p : str) (e : exn) (w : world) :
  no_tilde (arg0 :: rest) = true ->
  Py.char_in "/"%char arg0 = false ->
  search_path os (path_dirs os w) arg0 = Some p ->
  access_x os p = true ->
  pipe_ok os (pipes w) = true ->
  fork_result os (forks w) = Some 0%Z ->
  execvp_error os arg0 = Some e ->
  exists w',
    execute_external_command os (arg0 :: rest) capture w = (Ret None, w')
    /\ stderr w' = stderr w ++ error_executing e
    /\ forks w' = S (forks w).
Proof.
  intros Ht Hs Hr Hx Hpipe Hfork He. unfold execute_external_command.
  unfold bind at 1. rewrite (expand_path_in_args_no_tilde _ _ _ Ht).
  unfold bind at 1. unfold item at 1. cbn [Py.index nth_error]. unfold ret at 1.
  rewrite Hs. unfold bind at 1. unfold bind at 1. unfold getenv at 1.
  unfold bind at 1. unfold get at 1. unfold ret at 1. unfold ret at 1.
  fold (path_dirs os w). rewrite Hr, Hx. cbn [negb].
  unfold try_except. destruct capture.
  - unfold bind at 1. unfold os_pipe at 1. unfold bind at 1, get at 1.
    unfold bind at 1, modify at 1. cbn [pipes count_pipe]. rewrite Hpipe.
    unfold bind at 1, get at 1. unfold bind at 1, modify at 1.
    unfold bind at 1, modify at 1. unfold ret at 1.
    set (r := lowest_free (open_fds (count_pipe w))).
    set (w0 := lowest_free ({[r]} ∪ open_fds (count_pipe w))).
    set (w1 := log (EvPipe r w0) (set_open_fds (fun s => {[r; w0]} ∪ s) (count_pipe w))).
    unfold bind at 1. unfold os_fork at 1. unfold bind at 1, get at 1.
    unfold bind at 1, modify at 1.
    change (forks w1) with (forks w). rewrite Hfork.
    unfold bind at 1, modify at 1. unfold ret at 1.
    change (0 =? 0)%Z with true. cbv iota.
    pose proof (lowest_free_fresh ({[r]} ∪ open_fds (count_pipe w))) as Hfresh.
    fold w0 in Hfresh.
    destruct (capturing_child_exec_fails arg0 (arg0 :: rest) e r w0
                (log (EvFork 0) (count_fork w1)) He) as (w' & E & Hs' & Hf').
    + set_solver.
    + unfold w1. cbn [open_fds log set_open_fds count_fork]. set_solver.
    + unfold w1. cbn [open_fds log set_open_fds count_fork]. set_solver.
    + rewrite E. cbn [kind any_exception]. unfold bind, eprint, modify, ret.
      eexists. split; [reflexivity|]. cbn [stderr forks write_stderr].
      rewrite Hs', Hf'. unfold error_executing. cbn [stderr forks log count_fork].
      unfold w1. cbn [stderr forks log set_open_fds count_pipe].
      now rewrite <- app_assoc.
  - unfold bind at 1. unfold os_fork at 1. unfold bind at 1, get at 1.
    unfold bind at 1, modify at 1. rewrite Hfork.
    unfold bind at 1, modify at 1. unfold ret at 1.
    change (0 =? 0)%Z with true. cbv iota.
    destruct (child_exec_fails arg0 (arg0 :: rest) e
                (log (EvFork 0) (count_fork w)) He) as (w' & E & Hs' & Hf').
    rewrite E. cbn [kind any_exception]. unfold bind, eprint, modify, ret.
    eexists. split; [reflexivity|]. cbn [stderr forks write_stderr].
    rewrite Hs', Hf'. unfold error_executing. cbn [stderr forks log count_fork].
    now rewrite <- app_assoc.
Qed.

End LauncherChild.

(** The command [ls] when [/bin/ls] cannot be run, in capture mode. *)
Lemma failed_exec_child_returns_witness :
  exists w',
    execute_external_command
      (child_os_exec_fails ["/bin/ls"] (Exn OSError "Exec format error"))
      [("ls" : str)] true (world_with [])
    = (Ret None, w')
    /\ stderr w'
       = stderr (world_with []) ++ error_executing (Exn OSError "Exec format error")
    /\ forks w' = S (forks (world_with [])).
Proof.
  apply (failed_exec_child_returns
           (child_os_exec_fails ["/bin/ls"] (Exn OSError "Exec format error"))
           "ls" [] true "/bin/ls" (Exn OSError "Exec format error") (world_with []));
    reflexivity.
Defined.

(** ** The options of [pwd] *)

Section PwdOptions.

Variable os : OS.

Lemma pwd_bad_option_none (options : str) :
  forallb (fun o => Ascii.eqb o "P") options = true -> pwd_bad_option options = None.
Proof.
  induction options as [|o rest IH]; [reflexivity|].
  cbn [forallb pwd_bad_option]. intros H. apply andb_prop in H as [Ho Hrest].
  rewrite Ho. cbn [negb]. now apply IH.
Qed.

Lemma pwd_bad_args_none (rest : list str) :
  forallb pwd_option rest = true -> pwd_bad_args rest = None.
Proof.
  induction rest as [|arg rest IH]; [reflexivity|].
  cbn [forallb pwd_bad_args]. intros H. apply andb_prop in H as [Ha Hrest].
  destruct arg as [|c options]; [discriminate|].
  cbn [pwd_option] in Ha. apply andb_prop in Ha as [Hc Ho].
  apply Ascii.eqb_eq in Hc as ->.
  change (Py.startswith "-" ("-"%char :: options)) with true. cbn [negb skipn].
  change (skipn 0 options) with options.
  rewrite (pwd_bad_option_none _ Ho). now apply IH.
Qed.

(** X25.  [pwd] accepts any number of arguments made of a dash followed by
    any number of [P] (the dash alone included), and then prints one line:
    the physical directory when one of the words is exactly [-P], the
    logical directory otherwise, as after [pwd -PP]. *)
Theorem pwd_accepts_dash_P_options (c : str) (rest : list str) (w : world) :
  forallb pwd_option rest = true ->
  handle_pwd_command os (c :: rest) w
  = (Ret tt,
     write_stdout
       ((if existsb (Py.str_eqb "-P") (c :: rest)
         then realpath os (os_cwd w) else logical_pwd w) ++ [newline]) w).
Proof.
  intros H. unfold handle_pwd_command.
  change (skipn 1 (c :: rest)) with rest.
  rewrite (pwd_bad_args_none _ H).
  destruct (existsb _ _); reflexivity.
Qed.

End PwdOptions.

(** [pwd -PP -] in a process whose directories differ. *)
Lemma pwd_accepts_dash_P_options_witness :
  handle_pwd_command (plain_os 7) (strs ["pwd"; "-PP"; "-"]) (world_with [])
  = (Ret tt,
     write_stdout
       ((if existsb (Py.str_eqb "-P") (strs ["pwd"; "-PP"; "-"])
         then realpath (plain_os 7) (os_cwd (world_with []))
         else logical_pwd (world_with [])) ++ [newline]) (world_with [])).
Proof.
  apply (pwd_accepts_dash_P_options (plain_os 7) "pwd" (strs ["-PP"; "-"]) (world_with [])).
  reflexivity.
Defined.

(** ** [var -s]: the output of a command *)

Section VarCapture.

#[local] Set Warnings "-clear-no-such-hyp".

Variable os : OS.

(** The launcher in capture mode, on the parent's side of the fork, up to
    the reading of the pipe: the write end has been closed, the read end
    is closed by the reading, and the child has not been waited for. *)
Lemma execute_external_command_reads (arg0 : str) (rest : list str)
    (p : str) (pid : Z) (w : world) :
  no_tilde (arg0 :: rest) = true ->
  Py.char_in "/"%char arg0 = false ->
  search_path os (path_dirs os w) arg0 = Some p ->
  access_x os p = true ->
  pipe_ok os (pipes w) = true ->
  fork_result os (forks w) = Some pid ->
  (0 < pid)%Z ->
  exists w1,
    execute_external_command os (arg0 :: rest) true w
    = match read_error os (lowest_free (open_fds w)) with
      | Some e => (Ret None, write_stderr (error_executing e) w1)
      | None =>
          (Ret (Some (captured_output os (lowest_free (open_fds w)))),
           log (EvWaitpid pid) w1)
      end
    /\ environ w1 = environ w /\ logical_pwd w1 = logical_pwd w
    /\ stdout w1 = stdout w /\ stderr w1 = stderr w
    /\ open_fds w1 = open_fds w
    /\ children (trace w1) = children (trace w) ++ [pid]
    /\ reaped (trace w1) = reaped (trace w).
Proof.
  intros Ht Hs Hr Hx Hpipe Hfork Hpos. unfold execute_external_command.
  unfold bind at 1. rewrite (expand_path_in_args_no_tilde _ _ _ Ht).
  unfold bind at 1. unfold item at 1. cbn [Py.index nth_error]. unfold ret at 1.
  rewrite Hs. unfold bind at 1. unfold bind at 1. unfold getenv at 1.
  unfold bind at 1. unfold get at 1. unfold ret at 1. unfold ret at 1.
  fold (path_dirs os w). rewrite Hr, Hx. cbn [negb].
  unfold try_except.
  unfold bind at 1. unfold os_pipe at 1. unfold bind at 1, get at 1.
  unfold bind at 1, modify at 1. cbn [pipes count_pipe]. rewrite Hpipe.
  unfold bind at 1, get at 1. unfold bind at 1, modify at 1.
  unfold bind at 1, modify at 1. unfold ret at 1.
  change (open_fds (count_pipe w)) with (open_fds w).
  pose proof (lowest_free_fresh (open_fds w)) as Hfr.
  pose proof (lowest_free_fresh ({[lowest_free (open_fds w)]} ∪ open_fds w)) as Hfw.
  set (r := lowest_free (open_fds w)) in *.
  set (w0 := lowest_free ({[r]} ∪ open_fds w)) in *.
  set (w1 := log (EvPipe r w0) (set_open_fds (fun s => {[r; w0]} ∪ s) (count_pipe w))).
  unfold bind at 1. unfold os_fork at 1. unfold bind at 1, get at 1.
  unfold bind at 1, modify at 1.
  change (forks w1) with (forks w). rewrite Hfork.
  unfold bind at 1, modify at 1. unfold ret at 1.
  replace (pid =? 0)%Z with false by (symmetry; apply Z.eqb_neq; lia).
  unfold bind at 1. rewrite os_close_member
    by (unfold w1; cbn [open_fds log set_open_fds count_fork]; set_solver).
  unfold read_all.
  exists (set_open_fds (fun s => s ∖ {[r]})
            (log (EvRead r)
               (log (EvClose w0)
                  (set_open_fds (fun s => s ∖ {[w0]})
                     (log (EvFork pid) (count_fork w1)))))).
  split.
  - destruct (read_error os r) as [e|].
    + cbv beta iota zeta delta [bind modify raise_exn ret].
      cbn [kind any_exception]. unfold eprint, modify, error_executing.
      now rewrite <- app_assoc.
    + cbv beta iota zeta delta [bind modify os_waitpid ret]. reflexivity.
  - unfold w1. cbn [environ logical_pwd stdout stderr open_fds trace log
                    set_open_fds count_fork count_pipe].
    repeat match goal with |- _ /\ _ => split end; try reflexivity.
    + set_solver.
    + unfold children. rewrite !flat_map_app. cbn [flat_map forked_pid app].
      replace (0 <? pid)%Z with true by (symmetry; apply Z.ltb_lt; lia).
      now rewrite !app_nil_r.
    + unfold reaped. rewrite !flat_map_app. cbn [flat_map waited_pid app].
      now rewrite !app_nil_r.
Qed.

(** The prefix of [handle_var_command] for [var -s NAME COMMAND]. *)
Lemma handle_var_command_capture (c name cmdline : str) (words : list str) (w : world) :
  Re.match_identifier name = true ->
  Shlex.split cmdline = inr words ->
  handle_var_command os [c; ("-s" : str); name; cmdline] w
  = try_except
      (result <- execute_external_command os words true ;;
       match result with
       | Some out => environ_set name out
       | None => raise TypeError "str expected, not NoneType"
       end)
      any_exception
      (fun e => eprint ("var: failed to execute command: " ++ message e)) w.
Proof.
  intros Hv Hsplit.
  unfold handle_var_command. cbn [length Nat.leb].
  unfold bind at 1. unfold item at 1. cbn [Py.index nth_error]. unfold ret at 1.
  change (Py.startswith "-" ("-s" : str)) with true.
  change (Py.str_eqb ("-s" : str) "-s") with true. cbn [negb].
  unfold bind at 1. unfold ret at 1. cbn [length Nat.sub Nat.ltb Nat.leb].
  unfold bind at 1. unfold item at 1. cbn [Py.index nth_error]. unfold ret at 1.
  unfold identifier_ok. rewrite Hv. cbn [negb].
  unfold try_except.
  unfold bind at 1. unfold item at 1. cbn [Py.index nth_error]. unfold ret at 1.
  unfold bind at 1. unfold shlex_split. rewrite Hsplit. unfold ret at 1.
  reflexivity.
Qed.

(** X26.  [var -s NAME COMMAND], in the parent of the launcher's fork, for
    a command found on [PATH] with execute permission and when the reading
    of the pipe does not fail, binds [NAME] to exactly what was read from
    the pipe of the child, with nothing stripped from it; it writes
    nothing, has waited for the child, and leaves open the descriptors
    that were open before. *)
Theorem var_s_binds_output (c name cmdline arg0 : str) (rest : list str)
    (p : str) (pid : Z) (w : world) :
  Re.match_identifier name = true ->
  Shlex.split cmdline = inr (arg0 :: rest) ->
  no_tilde (arg0 :: rest) = true ->
  Py.char_in "/"%char arg0 = false ->
  search_path os (path_dirs os w) arg0 = Some p ->
  access_x os p = true ->
  pipe_ok os (pipes w) = true ->
  fork_result os (forks w) = Some pid ->
  (0 < pid)%Z ->
  read_error os (lowest_free (open_fds w)) = None ->
  Py.char_in "000"%char (captured_output os (lowest_free (open_fds w))) = false ->
  exists w',
    handle_var_command os [c; ("-s" : str); name; cmdline] w = (Ret tt, w')
    /\ environ w'
       = <[name := captured_output os (lowest_free (open_fds w))]> (environ w)
    /\ stdout w' = stdout w /\ stderr w' = stderr w
    /\ open_fds w' = open_fds w
    /\ children (trace w') = children (trace w) ++ [pid]
    /\ reaped (trace w') = reaped (trace w) ++ [pid].
Proof.
  intros Hv Hsplit Ht Hs Hr Hx Hpipe Hfork Hpos Hread Hnul.
  destruct (execute_external_command_reads arg0 rest p pid w Ht Hs Hr Hx Hpipe
              Hfork Hpos) as (w1 & E & He & _ & Hout & Herr & Hfds & Hch & Hre).
  rewrite Hread in E.
  rewrite (handle_var_command_capture _ _ _ _ _ Hv Hsplit).
  unfold try_except, bind at 1. rewrite E.
  rewrite (environ_set_binds _ _ _ Hnul).
  eexists. split; [reflexivity|].
  cbn [environ stdout stderr open_fds trace set_environ log].
  rewrite He, Hout, Herr, Hfds.
  repeat match goal with |- _ /\ _ => split end; try reflexivity.
  - unfold children in *. rewrite flat_map_app. cbn [flat_map forked_pid].
    now rewrite Hch, app_nil_r.
  - unfold reaped in *. rewrite flat_map_app. cbn [flat_map waited_pid].
    now rewrite Hre, app_nil_r.
Qed.

(** X28.  [var -s NAME COMMAND] when the reading of the pipe raises (what
    the child wrote cannot be decoded): the launcher's handler prints the
    exception and returns [None] without waiting for the child, the
    assignment of [None] raises, and [var] prints its failure line; [NAME]
    is not bound, the environment is as it was, and the child that was
    forked has not been waited for. *)
Theorem var_s_read_failure_binds_nothing (c name cmdline arg0 : str)
    (rest : list str) (p : str) (pid : Z) (e : exn) (w : world) :
  Re.match_identifier name = true ->
  Shlex.split cmdline = inr (arg0 :: rest) ->
  no_tilde (arg0 :: rest) = true ->
  Py.char_in "/"%char arg0 = false ->
  search_path os (path_dirs os w) arg0 = Some p ->
  access_x os p = true ->
  pipe_ok os (pipes w) = true ->
  fork_result os (forks w) = Some pid ->
  (0 < pid)%Z ->
  read_error os (lowest_free (open_fds w)) = Some e ->
  exists w',
    handle_var_command os [c; ("-s" : str); name; cmdline] w = (Ret tt, w')
    /\ environ w' = environ w
    /\ stdout w' = stdout w
    /\ stderr w' = stderr w ++ error_executing e ++ var_failed_none
    /\ children (trace w') = children (trace w) ++ [pid]
    /\ reaped (trace w') = reaped (trace w).
Proof.
  intros Hv Hsplit Ht Hs Hr Hx Hpipe Hfork Hpos Hread.
  destruct (execute_external_command_reads arg0 rest p pid w Ht Hs Hr Hx Hpipe
              Hfork Hpos) as (w1 & E & He & _ & Hout & Herr & Hfds & Hch & Hre).
  rewrite Hread in E.
  rewrite (handle_var_command_capture _ _ _ _ _ Hv Hsplit).
  unfold try_except, bind at 1. rewrite E.
  unfold raise. cbn [kind any_exception message]. unfold eprint, modify.
  eexists. split; [reflexivity|].
  cbn [environ stdout stderr trace write_stderr].
  rewrite He, Hout, Herr, Hch, Hre. unfold var_failed_none.
  repeat match goal with |- _ /\ _ => split end; try reflexivity.
  now rewrite <- !app_assoc.
Qed.

(** X27.  [var -s NAME COMMAND] for a command that no directory of [PATH]
    holds binds nothing: the launcher reports the command as not found
    and returns [None], the assignment of [None] to the environment
    raises, and the handler reports that as a failure to execute; the
    process state is otherwise as it was. *)
Theorem var_s_command_not_found (c name cmdline arg0 : str) (rest : list str)
    (w : world) :
  Re.match_identifier name = true ->
  Shlex.split cmdline = inr (arg0 :: rest) ->
  no_tilde (arg0 :: rest) = true ->
  Py.char_in "/"%char arg0 = false ->
  forallb (fun d => negb (has_file os arg0 d)) (path_dirs os w) = true ->
  handle_var_command os [c; ("-s" : str); name; cmdline] w
  = (Ret tt, write_stderr var_failed_none (write_stderr (command_not_found arg0) w)).
Proof.
  intros Hv Hsplit Ht Hs Hnone. apply search_path_none in Hnone.
  destruct (execute_external_command_resolves os arg0 rest true w _ Ht Hs Hnone)
    as [E _].
  specialize (E eq_refl).
  unfold handle_var_command. cbn [length Nat.leb].
  unfold bind at 1. unfold item at 1. cbn [Py.index nth_error]. unfold ret at 1.
  change (Py.startswith "-" ("-s" : str)) with true.
  change (Py.str_eqb ("-s" : str) "-s") with true. cbn [negb].
  unfold bind at 1. unfold ret at 1. cbn [length Nat.sub Nat.ltb Nat.leb].
  unfold bind at 1. unfold item at 1. cbn [Py.index nth_error]. unfold ret at 1.
  unfold identifier_ok. rewrite Hv. cbn [negb].
  unfold try_except.
  unfold bind at 1. unfold item at 1. cbn [Py.index nth_error]. unfold ret at 1.
  unfold bind at 1. unfold shlex_split. rewrite Hsplit. unfold ret at 1.
  unfold bind at 1. rewrite E. reflexivity.
Qed.

End VarCapture.

(** [var -s FILES ls] where [/bin/ls] exists, the fork gives pid 11 and
    the child writes one line: the newline is kept. *)
Lemma var_s_binds_output_witness :
  exists w',
    handle_var_command (os_with_output ["/bin/ls"] 11 ("a.txt" ++ [newline]) None)
      (strs ["var"; "-s"; "FILES"; "ls"]) (world_with [])
    = (Ret tt, w')
    /\ environ w'
       = <[("FILES" : str) :=
             captured_output (os_with_output ["/bin/ls"] 11 ("a.txt" ++ [newline]) None)
               (lowest_free (open_fds (world_with [])))]> (environ (world_with []))
    /\ stdout w' = stdout (world_with []) /\ stderr w' = stderr (world_with [])
    /\ open_fds w' = open_fds (world_with [])
    /\ children (trace w') = children (trace (world_with [])) ++ [11%Z]
    /\ reaped (trace w') = reaped (trace (world_with [])) ++ [11%Z].
Proof.
  apply (var_s_binds_output (os_with_output ["/bin/ls"] 11 ("a.txt" ++ [newline]) None)
           "var" "FILES" "ls" "ls" [] "/bin/ls" 11 (world_with []));
    first [reflexivity | lia].
Defined.

(** The same command when what the child wrote cannot be decoded. *)
Lemma var_s_read_failure_binds_nothing_witness :
  exists w',
    handle_var_command
      (os_with_output ["/bin/ls"] 11 [] (Some (Exn ValueError "invalid start byte")))
      (strs ["var"; "-s"; "FILES"; "ls"]) (world_with [])
    = (Ret tt, w')
    /\ environ w' = environ (world_with [])
    /\ stdout w' = stdout (world_with [])
    /\ stderr w'
       = stderr (world_with [])
         ++ error_executing (Exn ValueError "invalid start byte") ++ var_failed_none
    /\ children (trace w') = children (trace (world_with [])) ++ [11%Z]
    /\ reaped (trace w') = reaped (trace (world_with [])).
Proof.
  apply (var_s_read_failure_binds_nothing
           (os_with_output ["/bin/ls"] 11 [] (Some (Exn ValueError "invalid start byte")))
           "var" "FILES" "ls" "ls" [] "/bin/ls" 11
           (Exn ValueError "invalid start byte") (world_with []));
    first [reflexivity | lia].
Defined.

(** [var -s FILES ls] where no file exists. *)
Lemma var_s_command_not_found_witness :
  handle_var_command (plain_os 7) (strs ["var"; "-s"; "FILES"; "ls"]) (world_with [])
  = (Ret tt,
     write_stderr var_failed_none
       (write_stderr (command_not_found "ls") (world_with []))).
Proof.
  apply (var_s_command_not_found (plain_os 7) "var" "FILES" "ls" "ls" [] (world_with []));
    reflexivity.
Defined.
